(** * vpptop: statistics aggregator and polling client

    A shallow embedding of the Go packages [stats] (the VPP statistics
    aggregator) and [client] (the polling / rendering application), followed
    by the properties of the error-counter baseline, the interface join, the
    version resolver, the rate computation, the polling tick and the user
    actions.

    Conventions of the embedding:
    - a Go [uint64] is a [Z] in [[0, 2^64)]; subtraction wraps ([U64.sub]);
    - a Go [error] is its message, a [string];
    - a Go call returning [(value, error)] is a [result]: [Ok v] stands for
      [(v, nil)] and [Err e] for [(nil, e)];
    - a Go [map[string]uint64] is a [gmap string Z]; indexing a missing key
      yields the zero value ([map_index]);
    - replies of the monitored engine are explicit arguments of the function
      that issues the request. *)

From Stdlib Require Import ZArith Lia Ascii String.
From stdpp Require Import base option list gmap strings pretty.

Local Open Scope Z_scope.

(** ** Machine integers *)

Module U64.

Definition modulus : Z := 2 ^ 64.

Definition wrap (z : Z) : Z := z mod modulus.

(** [a - b] on [uint64]. *)
Definition sub (a b : Z) : Z := wrap (a - b).

Definition in_range (z : Z) : Prop := 0 <= z < modulus.

End U64.

(** ** Results of fallible calls *)

Inductive result (A : Type) : Type :=
| Ok (v : A)
| Err (e : string).

Arguments Ok {A} v.
Arguments Err {A} e.

(** The value half of a [(slice, error)] pair: [nil] when the call failed. *)
Definition value_or_nil {A : Type} (r : result (list A)) : list A :=
  match r with
  | Ok v => v
  | Err _ => []
  end.

(** The error half of a [(value, error)] pair. *)
Definition error_of {A : Type} (r : result A) : option string :=
  match r with
  | Ok _ => None
  | Err e => Some e
  end.

(** [m[k]] on a Go map with integer values. *)
Definition map_index (m : gmap string Z) (k : string) : Z :=
  default 0 (m !! k).

(** ** Package stats *)

Module Stats.

Definition stateUp : string := "up".
Definition stateDown : string := "down".

(** [telemetry.NodeCounter]; [Error] is the same structure. *)
Record NodeCounter : Type := mkNodeCounter {
  Value : Z;
  Node : string;
  Name : string
}.

Definition Error : Type := NodeCounter.

(** The fields of [VPP] that survive a request: the error baseline. *)
Record VPP : Type := mkVPP {
  lastErrorCounters : gmap string Z
}.

(** [make(map[string]uint64)] at connect time. *)
Definition connected : VPP := mkVPP ∅.

(** The map key of a counter: [counter.Node+counter.Name]. *)
Definition errKey (c : NodeCounter) : string := Node c +:+ Name c.

(** One iteration of the loop of [GetErrors]. *)
Definition GetErrors_body (s : VPP) (res : list Error) (counter : NodeCounter)
  : list Error :=
  let counter' :=
    mkNodeCounter
      (U64.sub (Value counter) (map_index (lastErrorCounters s) (errKey counter)))
      (Node counter) (Name counter) in
  if Value counter' =? 0 then res else res ++ [counter'].

(** [GetErrors]; [reply] is what [GetNodeCounters] returned. *)
Definition GetErrors (s : VPP) (reply : result (list NodeCounter))
  : result (list Error) :=
  match reply with
  | Err e => Err e
  | Ok counters => Ok (foldl (GetErrors_body s) [] counters)
  end.

(** One iteration of the loop of [updateLastErrors]. *)
Definition updateLastErrors_body (m : gmap string Z) (counter : NodeCounter)
  : gmap string Z :=
  if Value counter =? 0 then m else <[errKey counter := Value counter]> m.

Definition updateLastErrors (s : VPP) (reply : result (list NodeCounter)) : VPP :=
  match reply with
  | Err _ => s
  | Ok counters =>
      mkVPP (foldl updateLastErrors_body (lastErrorCounters s) counters)
  end.

(** [RunCli cmd] followed by the error wrapping shared by the three clear
    operations; [cli] is the reply of the engine. *)
Definition clear_reply (cli : result string) : option string :=
  match cli with
  | Ok _ => None
  | Err e => Some ("request failed: " +:+ e)
  end.

Definition ClearIfaceCounters (cli : result string) : option string :=
  clear_reply cli.

Definition ClearRuntimeCounters (cli : result string) : option string :=
  clear_reply cli.

(** [ClearErrorCounters]: snapshot first ([reply] answers the counter
    request), then the reset command ([cli] answers it). *)
Definition ClearErrorCounters (s : VPP) (reply : result (list NodeCounter))
    (cli : result string) : VPP * option string :=
  (updateLastErrors s reply, clear_reply cli).


(** *** Interfaces *)

(** [api.InterfaceCounterCombined]. *)
Record InterfaceCounterCombined : Type := mkCombined {
  Packets : Z;
  Bytes : Z
}.

(** [api.InterfaceCounters], with the fields the program reads. *)
Record InterfaceCounters : Type := mkInterfaceCounters {
  InterfaceIndex : Z;
  InterfaceName : string;
  Rx : InterfaceCounterCombined;
  Tx : InterfaceCounterCombined;
  RxErrors : Z;
  TxErrors : Z;
  RxUnicast : InterfaceCounterCombined;
  RxMulticast : InterfaceCounterCombined;
  RxBroadcast : InterfaceCounterCombined;
  TxUnicast : InterfaceCounterCombined;
  TxMulticast : InterfaceCounterCombined;
  TxBroadcast : InterfaceCounterCombined;
  Drops : Z;
  Punts : Z;
  IP4 : Z;
  IP6 : Z;
  RxNoBuf : Z;
  RxMiss : Z
}.

(** [api.InterfaceStats]. *)
Record InterfaceStats : Type := mkInterfaceStats {
  Interfaces : list InterfaceCounters
}.

(** What [GetInterfaces] reads of [ifplugin.InterfaceDetails]:
    [details.Interface.GetEnabled()], [details.Interface.GetIpAddresses()]
    and [details.Meta.MTU]. *)
Record InterfaceConfig : Type := mkInterfaceConfig {
  GetEnabled : bool;
  GetIpAddresses : list string
}.

Record InterfaceMeta : Type := mkInterfaceMeta {
  MetaMTU : list Z
}.

Record InterfaceDetails : Type := mkInterfaceDetails {
  DetailsInterface : InterfaceConfig;
  Meta : InterfaceMeta
}.

Record Interface : Type := mkInterface {
  Counters : InterfaceCounters;
  IPAddrs : list string;
  State : string;
  MTU : list Z
}.

(** One iteration of the join loop of [GetInterfaces]. *)
Definition join_body (ifaceDetails : gmap Z InterfaceDetails)
    (res : list Interface) (iface : InterfaceCounters) : list Interface :=
  match ifaceDetails !! InterfaceIndex iface with
  | None => res
  | Some details =>
      let state :=
        if GetEnabled (DetailsInterface details) then stateUp else stateDown in
      res ++ [mkInterface iface
                (GetIpAddresses (DetailsInterface details))
                state
                (MetaMTU (Meta details))]
  end.

(** The entry the loop appends for a counter-side entry and the details
    found under its index. *)
Definition joined (iface : InterfaceCounters) (details : InterfaceDetails)
  : Interface :=
  mkInterface iface
    (GetIpAddresses (DetailsInterface details))
    (if GetEnabled (DetailsInterface details) then stateUp else stateDown)
    (MetaMTU (Meta details)).

(** The part of [GetInterfaces] after the receive loop. *)
Definition join (ifaceDetails : gmap Z InterfaceDetails)
    (ifaceStats : InterfaceStats) : list Interface :=
  foldl (join_body ifaceDetails) [] (Interfaces ifaceStats).

(** *** The goroutines of [GetInterfaces]

    Four goroutines share a wait group, the buffered channel [errChan]
    and the two captured variables.  Each goroutine is a small program
    counter; [step] runs one atomic action of one goroutine and is [None]
    when that goroutine is blocked or has finished. *)

Module GetInterfaces.

Inductive tid : Type := TCloser | TDetails | TStats | TMain.

(** A fetching goroutine: before the request returns, after it (holding
    [err]), after [errChan <- err], after the deferred [wg.Done()]. *)
Inductive fetcher : Type :=
| FStart
| FFetched (err : option string)
| FSent
| FDone.

(** The caller: in the [range errChan] loop, returned, or stopped by a
    nil dereference of [ifaceStats]. *)
Inductive caller : Type :=
| MRange
| MReturn (r : result (list Interface))
| MPanic.

Record state : Type := mkState {
  wg : Z;
  errChan : list (option string);
  closed : bool;
  ifaceDetails : gmap Z InterfaceDetails;
  ifaceStats : option InterfaceStats;
  gCloser : bool;              (* the closing goroutine has finished *)
  gDetails : fetcher;
  gStats : fetcher;
  gMain : caller;
  sent : list (option string)  (* every value sent so far, oldest first *)
}.

(** After [wg.Add(2)], [make(chan error, 2)] and the three [go]. *)
Definition init : state :=
  mkState 2 [] false ∅ None false FStart FStart MRange [].

Definition capacity : nat := 2.

Section Replies.

(** What [DumpInterfaces] and [GetInterfaceStats] answer. *)
Variable dReply : result (gmap Z InterfaceDetails).
Variable sReply : result InterfaceStats.

Definition step_closer (s : state) : option state :=
  if gCloser s then None
  else if wg s =? 0 then
    Some (mkState (wg s) (errChan s) true (ifaceDetails s) (ifaceStats s)
            true (gDetails s) (gStats s) (gMain s) (sent s))
  else None.

Definition set_details (s : state) (g : fetcher) : state :=
  mkState (wg s) (errChan s) (closed s) (ifaceDetails s) (ifaceStats s)
    (gCloser s) g (gStats s) (gMain s) (sent s).

Definition set_stats (s : state) (g : fetcher) : state :=
  mkState (wg s) (errChan s) (closed s) (ifaceDetails s) (ifaceStats s)
    (gCloser s) (gDetails s) g (gMain s) (sent s).

(** [errChan <- err]; blocks while the buffer is full. *)
Definition send (s : state) (err : option string) : option state :=
  if decide (length (errChan s) < capacity)%nat then
    Some (mkState (wg s) (errChan s ++ [err]) (closed s) (ifaceDetails s)
            (ifaceStats s) (gCloser s) (gDetails s) (gStats s) (gMain s)
            (sent s ++ [err]))
  else None.

(** [wg.Done()]. *)
Definition done (s : state) : state :=
  mkState (wg s - 1) (errChan s) (closed s) (ifaceDetails s) (ifaceStats s)
    (gCloser s) (gDetails s) (gStats s) (gMain s) (sent s).

Definition step_details (s : state) : option state :=
  match gDetails s with
  | FStart =>
      let s' :=
        mkState (wg s) (errChan s) (closed s)
          (match dReply with Ok m => m | Err _ => ∅ end) (ifaceStats s)
          (gCloser s) (gDetails s) (gStats s) (gMain s) (sent s) in
      Some (set_details s' (FFetched (error_of dReply)))
  | FFetched err => s' ← send s err; Some (set_details s' FSent)
  | FSent => Some (set_details (done s) FDone)
  | FDone => None
  end.

Definition step_stats (s : state) : option state :=
  match gStats s with
  | FStart =>
      let s' :=
        mkState (wg s) (errChan s) (closed s) (ifaceDetails s)
          (match sReply with Ok st => Some st | Err _ => None end)
          (gCloser s) (gDetails s) (gStats s) (gMain s) (sent s) in
      Some (set_stats s' (FFetched (error_of sReply)))
  | FFetched err => s' ← send s err; Some (set_stats s' FSent)
  | FSent => Some (set_stats (done s) FDone)
  | FDone => None
  end.

Definition set_main (s : state) (q : list (option string)) (m : caller)
  : state :=
  mkState (wg s) q (closed s) (ifaceDetails s) (ifaceStats s)
    (gCloser s) (gDetails s) (gStats s) m (sent s).

(** One turn of [for err := range errChan], or the code after it. *)
Definition step_main (s : state) : option state :=
  match gMain s with
  | MRange =>
      match errChan s with
      | Some err :: q =>
          Some (set_main s q (MReturn (Err ("request failed: " +:+ err))))
      | None :: q => Some (set_main s q MRange)
      | [] =>
          if closed s then
            match ifaceStats s with
            | Some st =>
                Some (set_main s [] (MReturn (Ok (join (ifaceDetails s) st))))
            | None => Some (set_main s [] MPanic)
            end
          else None
      end
  | _ => None
  end.

Definition step (t : tid) (s : state) : option state :=
  match t with
  | TCloser => step_closer s
  | TDetails => step_details s
  | TStats => step_stats s
  | TMain => step_main s
  end.

(** Run a schedule; a goroutine that cannot move is skipped. *)
Definition run (sched : list tid) (s : state) : state :=
  foldl (fun s t => default s (step t s)) s sched.

(** Run a schedule in which every listed goroutine has to move: [None] as
    soon as one of them is blocked or has finished. *)
Fixpoint execute (sched : list tid) (s : state) : option state :=
  match sched with
  | [] => Some s
  | t :: sched => s' ← step t s; execute sched s'
  end.

Inductive reachable : state -> Prop :=
| reachable_init : reachable init
| reachable_step s t s' :
    reachable s -> step t s = Some s' -> reachable s'.

(** The first error in send order. *)
Definition first_error (l : list (option string)) : option string :=
  mjoin (head (filter is_Some l)).

(** An upper bound on the number of actions still to come. *)
Definition fetcher_left (g : fetcher) : nat :=
  match g with FStart => 3 | FFetched _ => 2 | FSent => 1 | FDone => 0 end.

Definition to_send (g : fetcher) : nat :=
  match g with FStart | FFetched _ => 1 | _ => 0 end.

Definition actions_left (s : state) : nat :=
  ((if gCloser s then 0 else 1)
   + fetcher_left (gDetails s) + fetcher_left (gStats s)
   + match gMain s with
     | MRange => 1 + length (errChan s) + to_send (gDetails s) + to_send (gStats s)
     | _ => 0
     end)%nat.


(** No goroutine can move. *)
Definition stuck (s : state) : Prop := forall t, step t s = None.

(** What a fetching goroutine has put on the channel so far. *)
Definition sent_by {A : Type} (g : fetcher) (reply : result A)
  : list (option string) :=
  match g with
  | FSent | FDone => [error_of reply]
  | _ => []
  end.

Definition alive (g : fetcher) : nat :=
  match g with FDone => 0 | _ => 1 end.

(** The invariant of the four goroutines. *)
Record inv (s : state) : Prop := mkInv {
  inv_wg : wg s = Z.of_nat (alive (gDetails s) + alive (gStats s));
  inv_closed : closed s = gCloser s;
  inv_closer : gCloser s = true -> gDetails s = FDone /\ gStats s = FDone;
  inv_err_details : forall e, gDetails s = FFetched e -> e = error_of dReply;
  inv_err_stats : forall e, gStats s = FFetched e -> e = error_of sReply;
  inv_details :
    gDetails s <> FStart ->
    ifaceDetails s = match dReply with Ok m => m | Err _ => ∅ end;
  inv_stats :
    gStats s <> FStart ->
    ifaceStats s = match sReply with Ok st => Some st | Err _ => None end;
  inv_sent :
    sent s ≡ₚ sent_by (gDetails s) dReply ++ sent_by (gStats s) sReply;
  inv_queue : exists pre, sent s = pre ++ errChan s;
  inv_main :
    match gMain s with
    | MRange => exists k, sent s = replicate k None ++ errChan s
    | MReturn (Err m) =>
        exists e, m = "request failed: " +:+ e
                  /\ first_error (sent s) = Some e
    | MReturn (Ok r) =>
        gDetails s = FDone /\ gStats s = FDone
        /\ exists d st, dReply = Ok d /\ sReply = Ok st /\ r = join d st
    | MPanic => False
    end
}.

End Replies.

End GetInterfaces.


(** *** Protocol versions

    A message type is identified by its name; a handler bundle carries the
    message set of its release. *)

Definition Message : Type := string.

Record HandlerVersion : Type := mkHandlerVersion {
  Msgs : list Message
}.

(** [m[k].Msgs] on a [map[string]HandlerVersion]: a missing key yields the
    zero handler, whose message set is nil. *)
Definition msgs_index (m : gmap string HandlerVersion) (k : string)
  : list Message :=
  match m !! k with
  | Some h => Msgs h
  | None => []
  end.

(** The tables of the imported binary-API packages. *)
Record Binapi : Type := mkBinapi {
  govppmux_Versions : gmap string HandlerVersion;
  ifplugin_Versions : gmap string HandlerVersion;
  telemetry_Versions : gmap string HandlerVersion;
  gpe1904 : list Message;
  gre1904 : list Message;
  gpe1908 : list Message;
  gre1908 : list Message;
  gpe2001_324 : list Message;
  gre2001_324 : list Message;
  gpe2001 : list Message;
  gre2001 : list Message
}.

(** [strings.Replace(ver, ".", "", -1)]. *)
Fixpoint remove_dots (ver : string) : string :=
  match ver with
  | EmptyString => EmptyString
  | String c r =>
      if decide (c = "."%char) then remove_dots r else String c (remove_dots r)
  end.

(** The [switch ver] of [ConnectRemote]. *)
Definition overlay_msgs (b : Binapi) (ver : string) : list Message :=
  if decide (ver = "19.04") then gpe1904 b ++ gre1904 b
  else if decide (ver = "19.08") then gpe1908 b ++ gre1908 b
  else if decide (ver = "20.01_324") then gpe2001_324 b ++ gre2001_324 b
  else if decide (ver = "20.01_379") then gpe2001 b ++ gre2001 b
  else [].

(** The messages registered with [gob] by one matching iteration. *)
Definition registered_for (b : Binapi) (ver : string) (h : HandlerVersion)
  : list Message :=
  Msgs h
  ++ msgs_index (ifplugin_Versions b) ("vpp" +:+ remove_dots ver)
  ++ msgs_index (telemetry_Versions b) ver
  ++ overlay_msgs b ver.

(** An order in which [range] may visit a map: the language leaves it
    unspecified, every enumeration of the entries is allowed. *)
Definition iteration_order (m : gmap string HandlerVersion)
    (order : list (string * HandlerVersion)) : Prop :=
  order ≡ₚ map_to_list m.

(** The loop [for ver, h := range govppmux.Versions] of [ConnectRemote],
    run over the visiting order [order].  [check msgs] is what
    [s.apiChan.CheckCompatiblity(msgs...)] returns; [gob] is the list of
    registered messages.  The result is the version at which the loop
    breaks, if any, and the registry afterwards. *)
Fixpoint resolve (b : Binapi) (check : list Message -> option string)
    (order : list (string * HandlerVersion)) (gob : list Message)
  : option string * list Message :=
  match order with
  | [] => (None, gob)
  | (ver, h) :: rest =>
      match check (Msgs h) with
      | Some _ => resolve b check rest gob
      | None => (Some ver, gob ++ registered_for b ver h)
      end
  end.

(** *** Nodes *)

(** What [GetNodes] reads of a thread of [telemetry.RuntimeInfo]: its
    items. *)
Record RuntimeThread (A : Type) : Type := mkRuntimeThread {
  Items : list A
}.

Arguments mkRuntimeThread {A} Items.
Arguments Items {A} r.

(** [GetNodes]; [reply] is what [GetRuntimeInfo] returned, as the list
    [runtimeCounters.GetThreads()]. *)
Definition GetNodes {A : Type} (reply : result (list (RuntimeThread A)))
  : result (list A) :=
  match reply with
  | Err e => Err e
  | Ok threads =>
      if decide (length threads = 0%nat) then Err "No runtime counters"
      else
        Ok (foldl
              (fun res thread =>
                 foldl (fun res item => res ++ [item]) res (Items thread))
              [] threads)
  end.

(** *** Connecting to a remote endpoint *)

(** The variables [client] and [err] of [ConnectRemote], and the number of
    calls of [time.Sleep] so far. *)
Record dialing (C : Type) : Type := mkDialing {
  dial_client : option C;
  dial_err : option string;
  dial_sleeps : nat
}.

Arguments mkDialing {C} dial_client dial_err dial_sleeps.
Arguments dial_client {C} d.
Arguments dial_err {C} d.
Arguments dial_sleeps {C} d.

(** [for i := 0; i < 3; i++], from [i] on; [Connect i] is what the call of
    [proxy.Connect(raddr)] of iteration [i] returns. *)
Fixpoint dial_loop {C : Type} (Connect : nat -> result C) (fuel i : nat)
    (st : dialing C) : dialing C :=
  match fuel with
  | O => st
  | S fuel' =>
      if decide (i < 3)%nat then
        match Connect i with
        | Ok c => mkDialing (Some c) None (dial_sleeps st)
        | Err e =>
            dial_loop Connect fuel' (S i) (mkDialing None (Some e) (S (dial_sleeps st)))
        end
      else st
  end.

Definition dial {C : Type} (Connect : nat -> result C) : dialing C :=
  dial_loop Connect 3 0 (mkDialing None None 0).

(** The answers of the remote endpoint and of the engine to the requests of
    [ConnectRemote], and the order in which [range] visits the version
    table. *)
Record remote (V : Type) : Type := mkRemote {
  proxy_Connect : nat -> result unit;
  NewStatsClient : result unit;
  NewBinapiClient : nat -> result unit;
  CheckCompatiblity : list Message -> option string;
  range_order : list (string * HandlerVersion);
  GetVersionInfo : result V
}.

Arguments mkRemote {V}.
Arguments proxy_Connect {V} r.
Arguments NewStatsClient {V} r.
Arguments NewBinapiClient {V} r.
Arguments CheckCompatiblity {V} r.
Arguments range_order {V} r.
Arguments GetVersionInfo {V} r.

(** What a call of [ConnectRemote] leaves behind: the returned error, the
    baseline, the version, the registered messages, and how many times it
    slept and asked for a binary-API client. *)
Record connection (V : Type) : Type := mkConnection {
  conn_err : option string;
  conn_vpp : VPP;
  conn_version : option V;
  conn_gob : list Message;
  conn_sleeps : nat;
  conn_binapi_clients : nat
}.

Arguments mkConnection {V}.
Arguments conn_err {V} c.
Arguments conn_vpp {V} c.
Arguments conn_version {V} c.
Arguments conn_gob {V} c.
Arguments conn_sleeps {V} c.
Arguments conn_binapi_clients {V} c.

(** [for i := range s.channels], from [i] on: the call number [1 + i] of
    [NewBinapiClient].  The result is the error of the first failing call,
    and the number of calls made. *)
Fixpoint channels_loop (NewClient : nat -> result unit) (fuel i : nat)
  : option string * nat :=
  match fuel with
  | O => (None, 0%nat)
  | S fuel' =>
      match NewClient (S i) with
      | Err e => (Some e, 1%nat)
      | Ok _ =>
          let '(err, calls) := channels_loop NewClient fuel' (S i) in
          (err, S calls)
      end
  end.

(** [ConnectRemote], started with [gob] as the registered messages. *)
Definition ConnectRemote {V : Type} (b : Binapi) (raddr : string) (r : remote V)
    (gob : list Message) : connection V :=
  let s := mkVPP ∅ in
  let d := dial (proxy_Connect r) in
  match dial_err d with
  | Some err =>
      mkConnection
        (Some ("failed to connect to raddr " +:+ raddr +:+ ", reason: " +:+ err))
        s None gob (dial_sleeps d) 0
  | None =>
      match NewStatsClient r with
      | Err err => mkConnection (Some err) s None gob (dial_sleeps d) 0
      | Ok _ =>
          match NewBinapiClient r 0 with
          | Err err => mkConnection (Some err) s None gob (dial_sleeps d) 1
          | Ok _ =>
              match channels_loop (NewBinapiClient r) 3 0 with
              | (Some err, calls) =>
                  mkConnection (Some ("api channel creation failed: " +:+ err))
                    s None gob (dial_sleeps d) (1 + calls)
              | (None, calls) =>
                  let gob' :=
                    (resolve b (CheckCompatiblity r) (range_order r) gob).2 in
                  match GetVersionInfo r with
                  | Err err =>
                      mkConnection (Some ("failed to get vpp version: " +:+ err))
                        s None gob' (dial_sleeps d) (1 + calls)
                  | Ok v =>
                      mkConnection None s (Some v) gob' (dial_sleeps d) (1 + calls)
                  end
              end
          end
      end
  end.

End Stats.

(** ** Text helpers of the formatters *)

(** [fmt.Sprint] and the verb [%d] on an integer. *)
Definition Sprint (z : Z) : string := pretty z.

(** [strings.Split(s, sep)] for a one-character separator. *)
Fixpoint split_on (sep : ascii) (s : string) : list string :=
  match s with
  | EmptyString => [EmptyString]
  | String c r =>
      if decide (c = sep) then EmptyString :: split_on sep r
      else match split_on sep r with
           | h :: t => String c h :: t
           | [] => [String c EmptyString]
           end
  end.

(** ** Package stats: the memory report *)

Module StatsCli.

(** The cut set [" \n"] of [strings.Trim] in [Memory]. *)
Definition blank (c : ascii) : bool :=
  if decide (c = " "%char) then true
  else if decide (c = "010"%char) then true
  else false.

(** [strings.TrimLeft(s, " \n")]. *)
Fixpoint trim_left (s : string) : string :=
  match s with
  | EmptyString => EmptyString
  | String c r => if blank c then trim_left r else s
  end.

(** [strings.TrimRight(s, " \n")]. *)
Fixpoint trim_right (s : string) : string :=
  match s with
  | EmptyString => EmptyString
  | String c r =>
      match trim_right r with
      | EmptyString => if blank c then EmptyString else String c EmptyString
      | r' => String c r'
      end
  end.

(** [strings.Trim(s, " \n")]. *)
Definition Trim (s : string) : string := trim_right (trim_left s).

(** One iteration of the loop of [Memory]. *)
Definition Memory_body (rows : list string) (r : string) : list string :=
  if decide (r = EmptyString) then rows else rows ++ [Trim r].

(** [Memory]; [cli] is what [RunCli("show memory main-heap verbose")]
    returned. *)
Definition Memory (cli : result string) : result (list string) :=
  match cli with
  | Err e => Err e
  | Ok mem => Ok (foldl Memory_body [] (split_on "010"%char mem))
  end.

End StatsCli.

(** ** Package cmd: the node command *)

Module Cmd.

(** The four flags [RunE] reads, each as what [GetString] returns. *)
Record flags : Type := mkFlags {
  kubeconfig : result string;
  addr : result string;
  binapi_socket : result string;
  stats_socket : result string
}.

(** What the proxy answers to the goroutine that serves locally: the error
    of [proxy.NewServer()], of [p.ConnectStats] and of [p.ConnectBinapi]. *)
Record server_replies : Type := mkServerReplies {
  NewServer : option string;
  ConnectStats : option string;
  ConnectBinapi : option string
}.

(** Where that goroutine gets to: a [log.Fatalln], which writes its line
    and ends the process with status 1, or [p.ListenAndServe(raddr)] on the
    two adapters. *)
Inductive server_end : Type :=
| Fatal (line : string)
| ListenAndServe (statsSocket binapiSocket raddr : string).

(** The body of [go func() { ... }()]. *)
Definition server (r : server_replies) (statsSocket binapiSocket raddr : string)
  : server_end :=
  match NewServer r with
  | Some _ => Fatal "creating local server failed"
  | None =>
      match ConnectStats r with
      | Some err => Fatal ("connecting to stats failed: " +:+ err)
      | None =>
          match ConnectBinapi r with
          | Some err => Fatal ("connecting to binapi failed: " +:+ err)
          | None => ListenAndServe statsSocket binapiSocket raddr
          end
      end
  end.

(** The goroutine runs beside the caller.  When it ends in [log.Fatalln],
    the scheduler decides where the exit falls: before the caller reaches
    [startClient], while [startClient] runs, or only after [startClient]
    has returned and [RunE] with it. *)
Inductive exit_point : Type := BeforeClient | DuringClient | AfterReturn.

(** What [RunE] does to the outside: a line of [log.Println], the [go]
    statement, the call of [startClient], a [log.Fatalln] of the
    goroutine. *)
Inductive action : Type :=
| Println (line : string)
| GoServer (statsSocket binapiSocket raddr : string)
| StartClient (soc raddr logfile : string)
| Fatalln (line : string).

(** How the run ends: [RunE] returns its error, or the process exits. *)
Inductive ending : Type :=
| Return (err : option string)
| Exit (status : Z).

Record outcome : Type := mkOutcome {
  run_end : ending;
  run_actions : list action;
  run_sleeps : nat
}.

Section Node.

(** [resolveNode] and [startClient] of this package, the answers of
    [proxy.Connect(raddr)], one per call, the answers to the serving
    goroutine, and the scheduling of its exit. *)
Variable resolveNode : string -> string -> string * bool.
Variable startClient : string -> string -> string -> option string.
Variable proxy_Connect : nat -> result unit.
Variable proxy_server : server_replies.
Variable scheduled : exit_point.

(** From the [go] statement to the end of [RunE]. *)
Definition serve_and_start (statsSocket binapiSocket raddr : string)
  : ending * list action :=
  let go := GoServer statsSocket binapiSocket raddr in
  let client := StartClient "" raddr "remote.log" in
  match server proxy_server statsSocket binapiSocket raddr with
  | ListenAndServe _ _ _ =>
      (Return (startClient "" raddr "remote.log"), [go; client])
  | Fatal line =>
      match scheduled with
      | BeforeClient => (Exit 1, [go; Fatalln line])
      | DuringClient => (Exit 1, [go; client; Fatalln line])
      | AfterReturn =>
          (Return (startClient "" raddr "remote.log"), [go; client])
      end
  end.

(** [nodeCmd.RunE]; its probing loop is the one of [ConnectRemote]. *)
Definition RunE (args : list string) (f : flags) : outcome :=
  match args with
  | [] => mkOutcome (Return (Some "no node specified")) [] 0
  | node :: _ =>
      match kubeconfig f with
      | Err err => mkOutcome (Return (Some err)) [] 0
      | Ok kc =>
          let '(ipaddr, found) := resolveNode kc node in
          if found then
            mkOutcome
              (Return (startClient "" (ipaddr +:+ ":" +:+ "7878") "remote.log"))
              [StartClient "" (ipaddr +:+ ":" +:+ "7878") "remote.log"] 0
          else
            let log1 := Println ("failed to resolve addr: " +:+ node) in
            match addr f with
            | Err err => mkOutcome (Return (Some err)) [log1] 0
            | Ok raddr =>
                let log2 :=
                  Println ("trying to connect to a local server at: " +:+ raddr) in
                let d := Stats.dial proxy_Connect in
                match Stats.dial_err d with
                | Some _ =>
                    let logs :=
                      [log1; log2; Println "no server found";
                       Println ("starting local server at: " +:+ raddr)] in
                    match binapi_socket f with
                    | Err err =>
                        mkOutcome (Return (Some err)) logs (Stats.dial_sleeps d)
                    | Ok binapiSocket =>
                        match stats_socket f with
                        | Err err =>
                            mkOutcome (Return (Some err)) logs (Stats.dial_sleeps d)
                        | Ok statsSocket =>
                            let '(e, acts) :=
                              serve_and_start statsSocket binapiSocket raddr in
                            mkOutcome e (logs ++ acts) (Stats.dial_sleeps d)
                        end
                    end
                | None =>
                    mkOutcome (Return (startClient "" raddr "remote.log"))
                      [log1; log2; StartClient "" raddr "remote.log"]
                      (Stats.dial_sleeps d)
                end
            end
      end
  end.

End Node.

End Cmd.

(** ** Package client *)

Module Client.

Import Stats.

(** Index of each table view. *)
Definition Interfaces : Z := 0.
Definition Nodes : Z := 1.
Definition Errors : Z := 2.
Definition Memory : Z := 3.
Definition Threads : Z := 4.

Definition RowsPerIface : nat := 11.
Definition RowsPerMemory : nat := 8.

(** [xtui.TableRows]. *)
Abbreviation TableRows := (list (list string)) (only parsing).

(** An element of [sortBy]. *)
Record SortSpec : Type := mkSortSpec {
  asc : bool;
  field : Z
}.

Record App : Type := mkApp {
  vpp : VPP;
  IfCache : list Interface;
  sortBy : list SortSpec;
  currTab : Z
}.

(** What a callback or a tick does to the outside: a line written with
    [log.Printf], or [gui.ViewAtTab(tab).Update(rows)]. *)
Inductive effect : Type :=
| Log (line : string)
| Update (tab : Z) (rows : TableRows).

(** [stats.ThreadData]; the byte slices are printed with [%s]. *)
Record ThreadData : Type := mkThreadData {
  ID : Z;
  ThreadName : string;
  ThreadType : string;
  PID : Z;
  CPUID : Z;
  Core : Z;
  CPUSocket : Z
}.

(** The cell [rows[r][c]] of a table. *)
Definition cell (rows : TableRows) (r c : nat) : option string :=
  row ← rows !! r; row !! c.

(** [rows[r] = append(rows[r], x)]. *)
Definition append_cell (r : nat) (x : string) (rows : TableRows) : TableRows :=
  alter (fun row => row ++ [x]) r rows.

(** [rows[r][0] = x]. *)
Definition set_first_cell (r : nat) (x : string) (rows : TableRows) : TableRows :=
  alter (fun row => <[0%nat := x]> row) r rows.

(** [strings.Split(addr, "/")[0]]. *)
Definition address_of (addr : string) : option string :=
  head (split_on "/"%char addr).

(** The loop that writes the addresses of an interface, last address
    first, into the first column of the rows below its name:
    [for ip > 0 && row < maxRow]. *)
Fixpoint ip_loop (addrs : list string) (maxRow ip row : nat) (rows : TableRows)
  : option TableRows :=
  match ip with
  | O => Some rows
  | S ip' =>
      if decide (row < maxRow)%nat then
        addr ← addrs !! ip';
        a ← address_of addr;
        ip_loop addrs maxRow ip' (S row) (set_first_cell row a rows)
      else Some rows
  end.

(** [nameToIdx], filled from index [i] on. *)
Fixpoint build_index (i : nat) (cache : list Interface) (m : gmap string nat)
  : gmap string nat :=
  match cache with
  | [] => m
  | iface :: rest =>
      build_index (S i) rest (<[InterfaceName (Counters iface) := i]> m)
  end.

(** The four rates of one interface: rx bytes/s, tx bytes/s, rx packets/s,
    tx packets/s. *)
Record rates : Type := mkRates {
  rxbbs : Z;
  txbbs : Z;
  rxpps : Z;
  txpps : Z
}.

Definition compute_rates (cache : list Interface) (nameToIdx : gmap string nat)
    (iface : Interface) : option rates :=
  match nameToIdx !! InterfaceName (Counters iface) with
  | Some idx =>
      old ← cache !! idx;
      Some (mkRates
              (U64.sub (Bytes (Rx (Counters iface))) (Bytes (Rx (Counters old))))
              (U64.sub (Bytes (Tx (Counters iface))) (Bytes (Tx (Counters old))))
              (U64.sub (Packets (Rx (Counters iface))) (Packets (Rx (Counters old))))
              (U64.sub (Packets (Tx (Counters iface))) (Packets (Tx (Counters old)))))
  | None => Some (mkRates 0 0 0 0)
  end.

Definition pair_cell (c : InterfaceCounterCombined) : string :=
  Sprint (Packets c) +:+ "/" +:+ Sprint (Bytes c).

Section Gui.

(** Constants and helpers of the packages [gui] and [xtui], and the
    sorting routines of this package. *)
Variable EmptyCell : string.
Variable NoColumn : Z.
Variable sortInterfaceStats : list Interface -> Z -> bool -> list Interface.
Variable sortErrorStats : list Error -> Z -> bool -> list Error.

(** Floating-point numbers and the two operations applied to them:
    the conversion [uint64(x)] and the verb [%.2f]. *)
Variable float64 : Type.
Variable to_uint64 : float64 -> Z.
Variable fmt_2f : float64 -> string.

(** [stats.Node], that is [telemetry.RuntimeItem]. *)
Record RuntimeItem : Type := mkRuntimeItem {
  NodeName : string;
  NodeIndex : Z;
  Clocks : float64;
  Vectors : Z;
  Calls : Z;
  Suspends : Z;
  VectorsPerCall : float64
}.

Variable sortNodeStats : list RuntimeItem -> Z -> bool -> list RuntimeItem.

(** [NewApp]: five sort specifications, each with [field = NoColumn] and
    [asc = !asc]. *)
Definition NewApp : App :=
  mkApp (mkVPP ∅) [] (replicate 5 (mkSortSpec (negb false) NoColumn)) 0.

(** One iteration of the loop of [formatInterfaces], for the interface
    at index [i].  The rows written lie inside the table allocated by
    [formatInterfaces]; reading a slice outside its bounds is [None]. *)
Definition format_entry (cache : list Interface) (nameToIdx : gmap string nat)
    (i : nat) (iface : Interface) (rows : TableRows) : option TableRows :=
  let c := Counters iface in
  let E := EmptyCell in
  let r := (RowsPerIface * i)%nat in
  let rows := append_cell r (InterfaceName c) rows in
  let rows := append_cell r (Sprint (InterfaceIndex c)) rows in
  let rows := append_cell r (State iface) rows in
  m0 ← MTU iface !! 0%nat;
  m1 ← MTU iface !! 1%nat;
  m2 ← MTU iface !! 2%nat;
  m3 ← MTU iface !! 3%nat;
  let rows :=
    append_cell r
      (Sprint m0 +:+ "/" +:+ Sprint m1 +:+ "/" +:+ Sprint m2 +:+ "/" +:+ Sprint m3)
      rows in
  let rows := append_cell r "Packets" rows in
  let rows := append_cell r (Sprint (Packets (Rx c))) rows in
  let rows := append_cell r "Packets" rows in
  let rows := append_cell r (Sprint (Packets (Tx c))) rows in
  let rows := append_cell r (Sprint (Drops c)) rows in
  let rows := append_cell r (Sprint (Punts c)) rows in
  let rows := append_cell r (Sprint (IP4 c)) rows in
  let rows := append_cell r (Sprint (IP6 c)) rows in
  rt ← compute_rates cache nameToIdx iface;
  let rows := <[(r + 1)%nat :=
    [E; E; E; E; "Packets/s"; Sprint (rxpps rt); "Packets/s"; Sprint (txpps rt);
     E; E; E; E]]> rows in
  let rows := <[(r + 2)%nat :=
    [E; E; E; E; "Bytes"; Sprint (Bytes (Rx c)); "Bytes"; Sprint (Bytes (Tx c));
     E; E; E; E]]> rows in
  let rows := <[(r + 3)%nat :=
    [E; E; E; E; "Bytes/s"; Sprint (rxbbs rt); "Bytes/s"; Sprint (txbbs rt);
     E; E; E; E]]> rows in
  let rows := <[(r + 4)%nat :=
    [E; E; E; E; "Errors"; Sprint (RxErrors c); "Errors"; Sprint (TxErrors c);
     E; E; E; E]]> rows in
  let rows := <[(r + 5)%nat :=
    [E; E; E; E; "Unicast"; pair_cell (RxUnicast c);
     "UnicastMiss"; pair_cell (TxUnicast c); E; E; E; E]]> rows in
  let rows := <[(r + 6)%nat :=
    [E; E; E; E; "Multicast"; pair_cell (RxMulticast c);
     "Multicast"; pair_cell (TxMulticast c); E; E; E; E]]> rows in
  let rows := <[(r + 7)%nat :=
    [E; E; E; E; "Broadcast"; pair_cell (RxBroadcast c);
     "Broadcast"; pair_cell (TxBroadcast c); E; E; E; E]]> rows in
  let rows := <[(r + 8)%nat :=
    [E; E; E; E; "NoBuf"; Sprint (RxNoBuf c); E; E; E; E; E; E]]> rows in
  let rows := <[(r + 9)%nat :=
    [E; E; E; E; "Miss"; Sprint (RxMiss c); E; E; E; E; E; E]]> rows in
  let rows := <[(r + 10)%nat :=
    [E; E; E; E; E; E; E; E; E; E; E; E]]> rows in
  ip_loop (IPAddrs iface) (r + RowsPerIface) (length (IPAddrs iface))
    (r + 1) rows.

(** [for i, iface := range ifaces], from index [i] on. *)
Fixpoint format_loop (cache : list Interface) (nameToIdx : gmap string nat)
    (i : nat) (ifaces : list Interface) (rows : TableRows) : option TableRows :=
  match ifaces with
  | [] => Some rows
  | iface :: rest =>
      rows' ← format_entry cache nameToIdx i iface rows;
      format_loop cache nameToIdx (S i) rest rows'
  end.

(** [formatInterfaces]: the rows, and the new value of [app.IfCache]. *)
Definition formatInterfaces (cache : list Interface) (ifaces : list Interface)
  : option (TableRows * list Interface) :=
  let nameToIdx := build_index 0 cache ∅ in
  let rows := replicate (RowsPerIface * length ifaces) [] in
  rows' ← format_loop cache nameToIdx 0 ifaces rows;
  Some (rows', ifaces).

Definition formatNodes (nodes : list RuntimeItem) : TableRows :=
  (fun node =>
     split_on " "%char
       (NodeName node +:+ " " +:+ Sprint (NodeIndex node) +:+ " "
        +:+ Sprint (to_uint64 (Clocks node)) +:+ " " +:+ Sprint (Vectors node)
        +:+ " " +:+ Sprint (Calls node) +:+ " " +:+ Sprint (Suspends node)
        +:+ " " +:+ fmt_2f (VectorsPerCall node))) <$> nodes.

Definition formatErrors (errors : list Error) : TableRows :=
  let rows :=
    (fun errorC =>
       split_on ";"%char
         (Sprint (Value errorC) +:+ ";" +:+ Node errorC +:+ ";" +:+ Name errorC))
      <$> errors in
  if decide (length rows = 0%nat) then rows ++ [[""; ""; ""]] else rows.

(** One iteration of the loop of [formatMemstats]: seven source lines
    fill seven of the eight rows of entry [i]. *)
Definition memory_entry (memstats : list string) (i : nat) (rows : TableRows)
  : option TableRows :=
  let E := EmptyCell in
  let r := (RowsPerMemory * i)%nat in
  let k := (7 * i)%nat in
  l0 ← memstats !! k;
  l1 ← memstats !! (k + 1)%nat;
  l2 ← memstats !! (k + 2)%nat;
  l3 ← memstats !! (k + 3)%nat;
  l4 ← memstats !! (k + 4)%nat;
  l5 ← memstats !! (k + 5)%nat;
  l6 ← memstats !! (k + 6)%nat;
  Some (<[(r + 6)%nat := [E; E]]>
         (<[(r + 5)%nat := [E; l6]]>
           (<[(r + 4)%nat := [E; l5]]>
             (<[(r + 3)%nat := [E; l4]]>
               (<[(r + 2)%nat := [E; l3]]>
                 (<[(r + 1)%nat := [E; l2]]>
                   (<[r := [l0; l1]]> rows))))))).

Fixpoint memory_loop (memstats : list string) (fuel i count : nat)
    (rows : TableRows) : option TableRows :=
  match fuel with
  | O => Some rows
  | S fuel' =>
      if decide (i < count)%nat then
        rows' ← memory_entry memstats i rows;
        memory_loop memstats fuel' (S i) count rows'
      else Some rows
  end.

Definition formatMemstats (memstats : list string) : option TableRows :=
  let count := (length memstats / 7)%nat in
  memory_loop memstats count 0 count (replicate (RowsPerMemory * count) []).

Definition formatThreads (threads : list ThreadData) : TableRows :=
  (fun thread =>
     split_on " "%char
       (Sprint (ID thread) +:+ " " +:+ ThreadName thread +:+ " "
        +:+ ThreadType thread +:+ " " +:+ Sprint (PID thread) +:+ " "
        +:+ Sprint (CPUID thread) +:+ " " +:+ Sprint (Core thread) +:+ " "
        +:+ Sprint (CPUSocket thread))) <$> threads.

(** What the aggregator calls of one tick return: [GetInterfaces],
    [GetNodes], the counter request behind [GetErrors], [Memory] and
    [Threads]. *)
Record replies : Type := mkReplies {
  rInterfaces : result (list Interface);
  rNodes : result (list RuntimeItem);
  rNodeCounters : result (list NodeCounter);
  rMemory : result (list string);
  rThreads : result (list ThreadData)
}.

(** The [log.Printf] of a failed poll, if the call failed. *)
Definition log_poll {A : Type} (what : string) (r : result A) : list effect :=
  match error_of r with
  | Some err =>
      [Log ("error occured while polling " +:+ what +:+ " stats: " +:+ err
            +:+ String "010"%char EmptyString)]
  | None => []
  end.

(** One firing of [updateTicker], between [vppLock.Lock()] and
    [vppLock.Unlock()].  [None] is a run-time panic. *)
Definition tick (app : App) (r : replies) : option (App * list effect) :=
  if currTab app =? Interfaces then
    let ifaces := value_or_nil (rInterfaces r) in
    s ← sortBy app !! Z.to_nat Interfaces;
    let ifaces := sortInterfaceStats ifaces (field s) (asc s) in
    '(rows, cache) ← formatInterfaces (IfCache app) ifaces;
    Some (mkApp (vpp app) cache (sortBy app) (currTab app),
          log_poll "interface" (rInterfaces r) ++ [Update Interfaces rows])
  else if currTab app =? Nodes then
    let nodes := value_or_nil (rNodes r) in
    s ← sortBy app !! Z.to_nat Nodes;
    let nodes := sortNodeStats nodes (field s) (asc s) in
    Some (app, log_poll "nodes" (rNodes r) ++ [Update Nodes (formatNodes nodes)])
  else if currTab app =? Errors then
    let got := GetErrors (vpp app) (rNodeCounters r) in
    let errors := value_or_nil got in
    s ← sortBy app !! Z.to_nat Errors;
    let errors := sortErrorStats errors (field s) (asc s) in
    Some (app, log_poll "errors" got ++ [Update Errors (formatErrors errors)])
  else if currTab app =? Memory then
    let memstats := value_or_nil (rMemory r) in
    rows ← formatMemstats memstats;
    Some (app, log_poll "memory" (rMemory r) ++ [Update Memory rows])
  else if currTab app =? Threads then
    let threads := value_or_nil (rThreads r) in
    Some (app, log_poll "threads" (rThreads r)
               ++ [Update Threads (formatThreads threads)])
  else Some (app, []).

(** The [log.Printf] of a failed clear. *)
Definition log_clear (what : string) (err : option string) : list effect :=
  match err with
  | Some e =>
      [Log ("error occured while clearing " +:+ what +:+ " stats: " +:+ e
            +:+ String "010"%char EmptyString)]
  | None => []
  end.

(** The goroutine started by the clear callback, between
    [vppLock.Lock()] and [vppLock.Unlock()]; [counters] and [cli] are the
    replies of the engine to the requests it may issue. *)
Definition onClear (app : App) (tab : Z)
    (counters : result (list NodeCounter)) (cli : result string)
  : App * list effect :=
  if tab =? Interfaces then
    (mkApp (vpp app) [] (sortBy app) (currTab app),
     log_clear "interface" (ClearIfaceCounters cli))
  else if tab =? Nodes then
    (app, log_clear "node" (ClearRuntimeCounters cli))
  else if tab =? Errors then
    let '(vpp', err) := ClearErrorCounters (vpp app) counters cli in
    (mkApp vpp' (IfCache app) (sortBy app) (currTab app), log_clear "error" err)
  else (app, []).

(** [app.sortBy[tab].field = row; app.sortBy[tab].asc = !app.sortBy[tab].asc]. *)
Definition toggle (tab : Z) (row : Z) (specs : list SortSpec)
  : option (list SortSpec) :=
  s ← specs !! Z.to_nat tab;
  Some (<[Z.to_nat tab := mkSortSpec (negb (asc s)) row]> specs).

(** The goroutine started by the sort callback, under [sortLock];
    [CurrTab] and [CurrRow] are the fields of the event payload. *)
Definition onSort (app : App) (CurrTab CurrRow : Z) : option App :=
  if CurrTab =? Interfaces then
    specs ← toggle Interfaces CurrRow (sortBy app);
    Some (mkApp (vpp app) (IfCache app) specs (currTab app))
  else if CurrTab =? Nodes then
    specs ← toggle Nodes CurrRow (sortBy app);
    Some (mkApp (vpp app) (IfCache app) specs (currTab app))
  else if CurrTab =? Errors then
    specs ← toggle Errors CurrRow (sortBy app);
    Some (mkApp (vpp app) (IfCache app) specs (currTab app))
  else Some app.

(** The tab-switch callback, under [tabLock]. *)
Definition onTabSwitch (app : App) (tab : Z) : App :=
  mkApp (vpp app) (IfCache app) (sortBy app) tab.

End Gui.

Arguments mkRuntimeItem {float64}.
Arguments NodeName {float64}.
Arguments NodeIndex {float64}.
Arguments Clocks {float64}.
Arguments Vectors {float64}.
Arguments Calls {float64}.
Arguments Suspends {float64}.
Arguments VectorsPerCall {float64}.
Arguments mkReplies {float64}.
Arguments rInterfaces {float64}.
Arguments rNodes {float64}.
Arguments rNodeCounters {float64}.
Arguments rMemory {float64}.
Arguments rThreads {float64}.

(** *** The events of a run

    The tick and the clear action hold [vppLock]; the sort action writes
    [sortBy] under [sortLock], where the tick reads it once; the tab switch
    writes [currTab] under [tabLock], where the tick reads it once.  A run
    is therefore a sequence of events, each handled as a whole. *)

Section Events.

Variable EmptyCell : string.
Variable sortInterfaceStats : list Interface -> Z -> bool -> list Interface.
Variable sortErrorStats : list Error -> Z -> bool -> list Error.
Variable float64 : Type.
Variable to_uint64 : float64 -> Z.
Variable fmt_2f : float64 -> string.
Variable sortNodeStats :
  list (RuntimeItem float64) -> Z -> bool -> list (RuntimeItem float64).

Inductive event : Type :=
| ETick (r : replies float64)
| EClear (tab : Z) (counters : result (list NodeCounter)) (cli : result string)
| ESort (CurrTab CurrRow : Z)
| ETabSwitch (tab : Z).

(** One event; [None] is a run-time panic. *)
Definition handle (app : App) (ev : event) : option (App * list effect) :=
  match ev with
  | ETick r =>
      tick EmptyCell sortInterfaceStats sortErrorStats float64 to_uint64 fmt_2f
        sortNodeStats app r
  | EClear tab counters cli => Some (onClear app tab counters cli)
  | ESort CurrTab CurrRow => app' ← onSort app CurrTab CurrRow; Some (app', [])
  | ETabSwitch tab => Some (onTabSwitch app tab, [])
  end.

(** The events of a run, in order, with everything logged and displayed. *)
Fixpoint handle_all (app : App) (evs : list event) : option (App * list effect) :=
  match evs with
  | [] => Some (app, [])
  | ev :: rest =>
      '(app', eff) ← handle app ev;
      '(app'', eff') ← handle_all app' rest;
      Some (app'', eff ++ eff')
  end.

(** The polls a run displays correctly: every interface handed to the
    formatter has the four elements of its MTU slice. *)
Definition well_formed (ev : event) : Prop :=
  match ev with
  | ETick r =>
      Forall (fun iface => (4 <= length (MTU iface))%nat)
        (value_or_nil (rInterfaces r))
  | _ => True
  end.

End Events.

Arguments ETick {float64} r.
Arguments EClear {float64} tab counters cli.
Arguments ESort {float64} CurrTab CurrRow.
Arguments ETabSwitch {float64} tab.
Arguments well_formed {float64} ev.

End Client.

(** ** Vocabulary of the properties *)

(** The character [c] occurs in [s]. *)
Fixpoint occurs (c : ascii) (s : string) : bool :=
  match s with
  | EmptyString => false
  | String c' r => if decide (c' = c) then true else occurs c r
  end.

(** [s] consists of characters of the cut set of [Memory] only. *)
Fixpoint all_blank (s : string) : bool :=
  match s with
  | EmptyString => true
  | String c r => StatsCli.blank c && all_blank r
  end.

(** [s] starts, respectively ends, with a character of the cut set. *)
Definition starts_blank (s : string) : bool :=
  match s with
  | EmptyString => false
  | String c _ => StatsCli.blank c
  end.

Fixpoint ends_blank (s : string) : bool :=
  match s with
  | EmptyString => false
  | String c EmptyString => StatsCli.blank c
  | String _ r => ends_blank r
  end.

(** The number of occurrences of [c] in [s]. *)
Fixpoint count_char (c : ascii) (s : string) : nat :=
  match s with
  | EmptyString => 0
  | String c' r => if decide (c' = c) then S (count_char c r) else count_char c r
  end.

(** *** The error baseline by pair

    The baseline as the specification words it: one entry for each
    (node, name) pair, where the code has one for each concatenation
    [Node+Name].  [PerPair] follows [updateLastErrors] and [GetErrors] on
    such a baseline; the properties compare it with the code. *)

Module PerPair.

Abbreviation baseline := (gmap (string * string) Z) (only parsing).

Definition pair (c : Stats.NodeCounter) : string * string :=
  (Stats.Node c, Stats.Name c).

Definition index (b : baseline) (k : string * string) : Z := default 0 (b !! k).

(** One counter of a snapshot. *)
Definition record (b : baseline) (c : Stats.NodeCounter) : baseline :=
  if Stats.Value c =? 0 then b else <[pair c := Stats.Value c]> b.

(** One counter of a report. *)
Definition report (b : baseline) (res : list Stats.Error) (c : Stats.NodeCounter)
  : list Stats.Error :=
  let v := U64.sub (Stats.Value c) (index b (pair c)) in
  if v =? 0 then res else res ++ [Stats.mkNodeCounter v (Stats.Node c) (Stats.Name c)].

Definition GetErrors (b : baseline) (counters : list Stats.NodeCounter)
  : list Stats.Error :=
  foldl (report b) [] counters.

(** The baseline after the clears of [history], oldest first, each given by
    the raw counters its snapshot saw. *)
Definition after_clears (history : list (list Stats.NodeCounter)) : baseline :=
  foldl (foldl record) ∅ history.

End PerPair.

(** The state of the code after the same clears on a fresh connection. *)
Definition after_clears (history : list (list Stats.NodeCounter)) : Stats.VPP :=
  foldl (fun s counters => (Stats.ClearErrorCounters s (Ok counters) (Ok "")).1)
    Stats.connected history.

(** No two counters of [cs] with different (node, name) pairs have the same
    concatenation of node and name. *)
Definition keys_separate (cs : list Stats.NodeCounter) : bool :=
  forallb (fun c =>
    forallb (fun c' =>
      implb (String.eqb (Stats.Node c +:+ Stats.Name c)
               (Stats.Node c' +:+ Stats.Name c'))
        (String.eqb (Stats.Node c) (Stats.Node c')
         && String.eqb (Stats.Name c) (Stats.Name c'))) cs) cs.

(** The eight rows [formatMemstats] allocates for the entry [i] of the
    memory report [m]; it leaves the last one nil. *)
Definition memory_block (EmptyCell : string) (m : list string) (i : nat)
  : list (list string) :=
  let l k := default EmptyString (m !! (7 * i + k)%nat) in
  let E := EmptyCell in
  [[l 0%nat; l 1%nat]; [E; l 2%nat]; [E; l 3%nat]; [E; l 4%nat]; [E; l 5%nat];
   [E; l 6%nat]; [E; E]; []].

(** ** Sample data *)

Module Sample.

Import Stats.

Definition no_traffic : InterfaceCounterCombined := mkCombined 0 0.

(** Counters of an interface that has only received and sent traffic. *)
Definition counters (index : Z) (name : string) (rx tx : InterfaceCounterCombined)
  : InterfaceCounters :=
  mkInterfaceCounters index name rx tx 0 0
    no_traffic no_traffic no_traffic no_traffic no_traffic no_traffic
    0 0 0 0 0 0.

Definition details (enabled : bool) (addrs : list string) : InterfaceDetails :=
  mkInterfaceDetails (mkInterfaceConfig enabled addrs)
    (mkInterfaceMeta [9000; 0; 0; 0]).

(** ["eth0"] at two consecutive polls: 1000 then 1500 bytes received. *)
Definition eth0_before : Interface :=
  joined (counters 1 "eth0" (mkCombined 10 1000) (mkCombined 4 300))
    (details true ["10.0.0.1/24"]).

Definition eth0_after : Interface :=
  joined (counters 1 "eth0" (mkCombined 14 1500) (mkCombined 5 380))
    (details true ["10.0.0.1/24"]).

Definition lo_counters : InterfaceCounters :=
  counters 0 "local0" no_traffic no_traffic.

Definition eth0_counters : InterfaceCounters :=
  counters 1 "eth0" (mkCombined 10 1000) (mkCombined 4 300).

(** Two releases; the channel below is compatible with both. *)
Definition h1904 : HandlerVersion := mkHandlerVersion ["show_version_1904"].
Definition h1908 : HandlerVersion := mkHandlerVersion ["show_version_1908"].

Definition versions : gmap string HandlerVersion :=
  <["19.04" := h1904]> (<["19.08" := h1908]> ∅).

Definition binapi : Binapi :=
  mkBinapi versions ∅ ∅ [] [] [] [] [] [] [] [].

Definition compatible_with_all : list Message -> option string :=
  fun _ => None.

(** A sorting routine that leaves the order as it is. *)
Definition keep_order {A : Type} (l : list A) (f : Z) (a : bool) : list A := l.

(** The application on the interfaces tab after a completed poll that saw
    ["eth0"]. *)
Definition polled : Client.App :=
  Client.mkApp connected [eth0_before]
    (replicate 5 (Client.mkSortSpec true (-1))) Client.Interfaces.

(** A tick in which every aggregator call fails. *)
Definition all_failed : Client.replies unit :=
  Client.mkReplies (Err "request failed: timeout") (Err "timeout")
    (Err "timeout") (Err "timeout") (Err "timeout").

(** A tick in which the interface poll sees ["eth0"] again. *)
Definition eth0_polled : Client.replies unit :=
  Client.mkReplies (Ok [eth0_after]) (Err "timeout") (Err "timeout")
    (Err "timeout") (Err "timeout").

(** The tick of the program with the sample helpers. *)
Definition tick (app : Client.App) (r : Client.replies unit)
  : option (Client.App * list Client.effect) :=
  Client.tick "-" keep_order keep_order unit (fun _ => 0) (fun _ => "0.00")
    keep_order app r.

End Sample.

(** * Properties *)

Section U64_facts.

Lemma U64_sub_diag a : U64.sub a a = 0.
Proof. unfold U64.sub, U64.wrap. by rewrite Z.sub_diag. Qed.

Lemma U64_sub_exact a b :
  U64.in_range a -> 0 <= b <= a -> U64.sub a b = a - b.
Proof.
  unfold U64.in_range, U64.sub, U64.wrap. intros Ha Hb.
  apply Z.mod_small. lia.
Qed.

Lemma U64_sub_0_r a : U64.in_range a -> U64.sub a 0 = a.
Proof.
  intros Ha. rewrite U64_sub_exact; [lia | done | unfold U64.in_range in Ha; lia].
Qed.

Lemma U64_sub_range a b : U64.in_range (U64.sub a b).
Proof.
  unfold U64.in_range, U64.sub, U64.wrap, U64.modulus.
  apply Z.mod_pos_bound. lia.
Qed.

End U64_facts.

(** ** The error baseline *)

Lemma filter_none {A : Type} (P : A -> Prop) `{!forall x, Decision (P x)}
    (l : list A) :
  Forall (fun x => ~ P x) l -> filter P l = [].
Proof.
  induction 1 as [|x l Hx _ IH]; [done|].
  rewrite filter_cons. by rewrite decide_False.
Qed.

Section Errors.

Import Stats.

(** The entry [GetErrors] computes for one raw counter. *)
Local Abbreviation delta s c :=
  (mkNodeCounter
     (U64.sub (Value c) (map_index (lastErrorCounters s) (errKey c)))
     (Node c) (Name c)).

Lemma GetErrors_loop s counters acc :
  foldl (GetErrors_body s) acc counters
  = acc ++ filter (fun e => Value e <> 0) ((fun c => delta s c) <$> counters).
Proof.
  revert acc. induction counters as [|c counters IH]; intros acc; simpl.
  - by rewrite app_nil_r.
  - rewrite IH. unfold GetErrors_body at 1. simpl.
    rewrite filter_cons. simpl.
    destruct (Z.eqb_spec (U64.sub (Value c)
                (map_index (lastErrorCounters s) (errKey c))) 0) as [Hz|Hz].
    + rewrite decide_False by (intros H; apply H, Hz). done.
    + rewrite decide_True by done. by rewrite <- app_assoc.
Qed.

(** Keys that only zero-valued counters carry keep their old baseline. *)
Lemma updateLastErrors_loop_untouched counters m k :
  (forall c, c ∈ counters -> errKey c = k -> Value c = 0) ->
  foldl updateLastErrors_body m counters !! k = m !! k.
Proof.
  revert m. induction counters as [|c counters IH]; intros m Hz; simpl; [done|].
  rewrite IH.
  - unfold updateLastErrors_body.
    destruct (Z.eqb_spec (Value c) 0) as [|Hne]; [done|].
    apply lookup_insert_ne. intros Hk. apply Hne, Hz; [left | done].
  - intros c' Hc'. apply Hz. by right.
Qed.

(** A key carried by a non-zero counter ends up holding the value of
    some non-zero counter with that key. *)
Lemma updateLastErrors_loop_recorded counters m c :
  c ∈ counters -> Value c <> 0 ->
  exists c', c' ∈ counters /\ errKey c' = errKey c /\ Value c' <> 0
             /\ foldl updateLastErrors_body m counters !! errKey c
                = Some (Value c').
Proof.
  revert m c. induction counters as [|c0 counters IH]; intros m c Hin Hne.
  - by apply elem_of_nil in Hin.
  - simpl.
    destruct (decide (Exists (fun c1 => errKey c1 = errKey c /\ Value c1 <> 0)
                        counters)) as [Hex|Hno].
    + apply Exists_exists in Hex as (c1 & H1 & Hk & Hv).
      destruct (IH (updateLastErrors_body m c0) c1 H1 Hv) as (c' & ? & ? & ? & Hl).
      exists c'. split; [by right|]. by rewrite <- Hk.
    + assert (c = c0 \/ c ∈ counters) as [->|Hc] by (by apply elem_of_cons).
      * exists c0. split; [left|]. split; [done|]. split; [done|].
        rewrite updateLastErrors_loop_untouched.
        -- unfold updateLastErrors_body.
           destruct (Z.eqb_spec (Value c0) 0); [done|].
           by rewrite lookup_insert_eq.
        -- intros c1 H1 Hk. destruct (decide (Value c1 = 0)); [done|].
           exfalso. apply Hno, Exists_exists. by exists c1.
      * exfalso. apply Hno, Exists_exists. by exists c.
Qed.

(** The key is the plain concatenation of node and name: two different
    pairs can share a key, and then share a baseline entry. *)
Remark errKey_shared :
  errKey (mkNodeCounter 1 "ab" "c") = errKey (mkNodeCounter 2 "a" "bc").
Proof. reflexivity. Qed.

(** A failed counter request leaves the baseline as it was. *)
Remark updateLastErrors_failed s e : updateLastErrors s (Err e) = s.
Proof. reflexivity. Qed.

End Errors.

(** The string-keyed baseline of the code against the baseline by pair. *)
Section Pairs.

Import Stats.

(** The two baselines hold the same value for every counter of [all]. *)
Local Abbreviation agree all m b :=
  (forall c : NodeCounter,
     c ∈ all -> (m : gmap string Z) !! (Node c +:+ Name c)
               = (b : PerPair.baseline) !! PerPair.pair c).

Lemma keys_separate_spec cs c c' :
  keys_separate cs = true -> c ∈ cs -> c' ∈ cs ->
  Node c +:+ Name c = Node c' +:+ Name c' -> PerPair.pair c = PerPair.pair c'.
Proof.
  unfold keys_separate. intros H Hc Hc' Hk.
  apply list_elem_of_In in Hc, Hc'.
  rewrite forallb_forall in H. specialize (H c Hc).
  rewrite forallb_forall in H. specialize (H c' Hc').
  apply String.eqb_eq in Hk. rewrite Hk in H. simpl in H.
  apply andb_true_iff in H as [H1 H2].
  apply String.eqb_eq in H1, H2. unfold PerPair.pair. by rewrite H1, H2.
Qed.

Lemma record_agrees all m b c0 :
  keys_separate all = true -> c0 ∈ all ->
  agree all m b ->
  agree all (updateLastErrors_body m c0) (PerPair.record b c0).
Proof.
  intros Hsep H0 Hag c Hc. unfold updateLastErrors_body, PerPair.record.
  destruct (Value c0 =? 0); [by apply Hag|].
  destruct (decide (PerPair.pair c = PerPair.pair c0)) as [Heq|Hne].
  - rewrite Heq. injection Heq as Hn Hm. unfold errKey. rewrite Hn, Hm.
    by rewrite !lookup_insert_eq.
  - rewrite !lookup_insert_ne; [by apply Hag|done|].
    unfold errKey. intros Hk. apply Hne. symmetry.
    by apply (keys_separate_spec all).
Qed.

Lemma snapshot_agrees all counters m b :
  keys_separate all = true -> (forall c, c ∈ counters -> c ∈ all) ->
  agree all m b ->
  agree all (foldl updateLastErrors_body m counters)
    (foldl PerPair.record b counters).
Proof.
  intros Hsep. revert m b.
  induction counters as [|c0 counters IH]; intros m b Hin Hag; [done|].
  simpl. apply IH.
  - intros c Hc. apply Hin. by right.
  - apply record_agrees; [done| |done]. apply Hin. left.
Qed.

Lemma clears_agree all history s b :
  keys_separate all = true ->
  (forall counters c, counters ∈ history -> c ∈ counters -> c ∈ all) ->
  agree all (lastErrorCounters s) b ->
  agree all
    (lastErrorCounters
       (foldl (fun s counters => (ClearErrorCounters s (Ok counters) (Ok "")).1)
          s history))
    (foldl (foldl PerPair.record) b history).
Proof.
  intros Hsep. revert s b.
  induction history as [|counters history IH]; intros s b Hin Hag; [done|].
  simpl. apply IH.
  - intros counters' c Hcs. apply Hin. by right.
  - apply snapshot_agrees; [done| |done]. intros c. apply Hin. left.
Qed.

Lemma report_agrees s b counters acc :
  (forall c, c ∈ counters ->
     lastErrorCounters s !! (Node c +:+ Name c) = b !! PerPair.pair c) ->
  foldl (GetErrors_body s) acc counters = foldl (PerPair.report b) acc counters.
Proof.
  revert acc. induction counters as [|c counters IH]; intros acc Hag; [done|].
  simpl. rewrite IH by (intros c' Hc'; apply Hag; by right).
  f_equal. unfold GetErrors_body, PerPair.report, map_index, PerPair.index, errKey.
  rewrite (Hag c) by left. done.
Qed.

Lemma GetErrors_by_pair history counters :
  keys_separate (concat history ++ counters) = true ->
  GetErrors (after_clears history) (Ok counters)
  = Ok (PerPair.GetErrors (PerPair.after_clears history) counters).
Proof.
  intros Hsep. simpl. f_equal. unfold PerPair.GetErrors.
  apply report_agrees. intros c Hc.
  apply (clears_agree (concat history ++ counters) history connected ∅ Hsep).
  - intros cs c' Hcs Hc'. apply elem_of_app. left.
    apply list_elem_of_In, in_concat. exists cs.
    split; by apply list_elem_of_In.
  - intros c' _. by rewrite !lookup_empty.
  - apply elem_of_app. by right.
Qed.

End Pairs.




(** C2 as the specification states it fails: a counter that reads zero keeps
    the baseline of an earlier clear.  From the connected state, a first
    clear sees [("node1","err-a") = 5]; the engine then reports that counter
    as 0, a second clear is issued, and the next [GetErrors] over the same
    raw counters reports the entry with the wrapped value [0 - 5]. *)
Lemma C2_clear_then_get_counterexample :
  let c5 := Stats.mkNodeCounter 5 "node1" "err-a" in
  let c0 := Stats.mkNodeCounter 0 "node1" "err-a" in
  let s1 := (Stats.ClearErrorCounters Stats.connected (Ok [c5]) (Ok "")).1 in
  let s2 := (Stats.ClearErrorCounters s1 (Ok [c0]) (Ok "")).1 in
  Stats.GetErrors s2 (Ok [c0])
  = Ok [Stats.mkNodeCounter 18446744073709551611 "node1" "err-a"]
  /\ Stats.GetErrors s2 (Ok [c0]) <> Ok [].
Proof. split; [by vm_compute | by vm_compute]. Qed.

(** C2, amended.  After [ClearErrorCounters] whose counter request succeeded,
    the next [GetErrors] over the same raw counters returns the empty list,
    whatever the reset command answered, provided that counters sharing a key
    carry the same value and that no zero-valued counter has a non-zero
    baseline recorded under its key.  The snapshot merges the non-zero raw
    counters into the baseline; it is taken before the reset. *)
Theorem C2_clear_then_get_empty (s : Stats.VPP)
    (counters : list Stats.NodeCounter) (cli : result string) :
  (forall c c', c ∈ counters -> c' ∈ counters ->
      Stats.errKey c = Stats.errKey c' -> Stats.Value c = Stats.Value c') ->
  (forall c, c ∈ counters -> Stats.Value c = 0 ->
      map_index (Stats.lastErrorCounters s) (Stats.errKey c) = 0) ->
  Stats.GetErrors (Stats.ClearErrorCounters s (Ok counters) cli).1 (Ok counters)
  = Ok [].
Proof.
  intros Hsame Hzero. simpl. f_equal. rewrite GetErrors_loop. simpl.
  apply filter_none.
  apply Forall_forall. intros e He.
  apply list_elem_of_fmap in He as (c & -> & Hc). simpl.
  intros Hne. apply Hne. clear Hne.
  destruct (decide (Stats.Value c = 0)) as [Hv|Hv].
  - unfold map_index. rewrite updateLastErrors_loop_untouched.
    + fold (map_index (Stats.lastErrorCounters s) (Stats.errKey c)).
      rewrite Hzero by done. by rewrite Hv.
    + intros c' Hc' Hk. by rewrite (Hsame c' c Hc' Hc Hk).
  - destruct (updateLastErrors_loop_recorded counters
                (Stats.lastErrorCounters s) c Hc Hv) as (c' & Hc' & Hk & _ & Hl).
    unfold map_index. rewrite Hl. simpl.
    rewrite <- (Hsame c' c Hc' Hc Hk). apply U64_sub_diag.
Qed.

Lemma C2_clear_then_get_empty_witness :
  Stats.GetErrors
    (Stats.ClearErrorCounters Stats.connected
       (Ok [Stats.mkNodeCounter 5 "node1" "err-a";
            Stats.mkNodeCounter 2 "node1" "err-b"])
       (Err "timeout")).1
    (Ok [Stats.mkNodeCounter 5 "node1" "err-a";
         Stats.mkNodeCounter 2 "node1" "err-b"])
  = Ok [].
Proof.
  apply C2_clear_then_get_empty.
  - intros c c' Hc Hc' Hk.
    apply elem_of_cons in Hc as [->|Hc]; apply elem_of_cons in Hc' as [->|Hc'];
      try apply list_elem_of_singleton in Hc as ->;
      try apply list_elem_of_singleton in Hc' as ->;
      first [reflexivity | discriminate Hk].
  - intros c Hc Hv.
    apply elem_of_cons in Hc as [->|Hc];
      [|apply list_elem_of_singleton in Hc as ->]; discriminate Hv.
Defined.

(** ** The goroutines of [GetInterfaces] *)

Section GetInterfaces_facts.

Import Stats Stats.GetInterfaces.

Variable dReply : result (gmap Z InterfaceDetails).
Variable sReply : result InterfaceStats.

Lemma first_error_nils k e q :
  first_error (replicate k None ++ Some e :: q) = Some e.
Proof.
  unfold first_error. induction k as [|k IH].
  - change (replicate 0 None ++ Some e :: q) with (Some e :: q).
    rewrite filter_cons. by rewrite decide_True.
  - change (replicate (S k) None ++ Some e :: q)
      with (None :: (replicate k None ++ Some e :: q)).
    rewrite filter_cons. rewrite decide_False; [done|]. by intros [? ?].
Qed.

Lemma first_error_app l l' e :
  first_error l = Some e -> first_error (l ++ l') = Some e.
Proof.
  unfold first_error. rewrite filter_app.
  destruct (filter is_Some l); simpl; [discriminate|done].
Qed.

Lemma first_error_elem l e : first_error l = Some e -> Some e ∈ l.
Proof.
  unfold first_error. intros H.
  destruct (filter is_Some l) as [|x l'] eqn:Hf; [discriminate|].
  simpl in H. subst x.
  assert (Some e ∈ filter is_Some l) as Hin by (rewrite Hf; left).
  by apply list_elem_of_filter in Hin as [_ ?].
Qed.

Lemma replicate_None_all (k : nat) (l : list (option string)) x :
  l ≡ₚ replicate k None -> x ∈ l -> x = None.
Proof.
  intros Hp Hx. rewrite Hp in Hx.
  by apply elem_of_replicate in Hx as [-> _].
Qed.

(** Goals of the invariant a step leaves unchanged. *)
Local Ltac kept :=
  try solve
    [ done | congruence | intros; congruence
    | intros _; match goal with H : _ -> ?g |- ?g => apply H; done end ].

Lemma inv_init : inv dReply sReply init.
Proof.
  split; simpl; [kept .. | by exists [] | by exists 0%nat].
Qed.

Lemma inv_step_closer s s' :
  inv dReply sReply s -> step_closer s = Some s' -> inv dReply sReply s'.
Proof.
  intros [Hwg Hcl Hcr Hed Hes Hd Hs Hsent Hq Hm]. unfold step_closer.
  destruct (gCloser s) eqn:Hc; [discriminate|].
  destruct (Z.eqb_spec (wg s) 0) as [Hz|]; [|discriminate].
  intros [= <-]. split; simpl; kept.
  intros _. rewrite Hz in Hwg.
  destruct (gDetails s), (gStats s); simpl in Hwg; try lia; done.
Qed.

Lemma inv_step_main s s' :
  inv dReply sReply s -> step_main s = Some s' -> inv dReply sReply s'.
Proof.
  intros [Hwg Hcl Hcr Hed Hes Hd Hs Hsent Hq Hm]. unfold step_main.
  destruct (gMain s) eqn:Hmain; try discriminate.
  destruct Hm as [k Hk].
  destruct (errChan s) as [|[err|] q] eqn:Hch.
  - destruct (closed s) eqn:Hclosed; [|discriminate].
    assert (gCloser s = true) as Hc by congruence.
    destruct (Hcr Hc) as [HD HS].
    rewrite HD, HS in Hsent. simpl in Hsent. rewrite app_nil_r in Hk.
    assert (error_of dReply = None) as HdN.
    { apply (replicate_None_all k (sent s)); [by rewrite Hk|].
      rewrite Hsent. left. }
    assert (error_of sReply = None) as HsN.
    { apply (replicate_None_all k (sent s)); [by rewrite Hk|].
      rewrite Hsent. right. left. }
    destruct dReply as [d|] eqn:Ed; [|discriminate].
    destruct sReply as [st|] eqn:Es; [|discriminate].
    rewrite Hs by (rewrite HS; done). rewrite Hd by (rewrite HD; done).
    intros [= <-].
    split; simpl; [kept .. | by exists (sent s); rewrite app_nil_r | ].
    + by rewrite HD, HS.
    + split; [done|]. split; [done|]. by exists d, st.
  - intros [= <-]. split; simpl; [kept .. | | ].
    + destruct Hq as [pre Hpre]. exists (pre ++ [Some err]).
      by rewrite <- app_assoc.
    + exists err. split; [done|]. rewrite Hk. apply first_error_nils.
  - intros [= <-]. split; simpl; [kept .. | | ].
    + destruct Hq as [pre Hpre]. exists (pre ++ [None]).
      by rewrite <- app_assoc.
    + exists (S k). rewrite Hk. rewrite replicate_S_end.
      by rewrite <- app_assoc.
Qed.

Lemma inv_step_details s s' :
  inv dReply sReply s -> step_details dReply s = Some s' -> inv dReply sReply s'.
Proof.
  intros [Hwg Hcl Hcr Hed Hes Hd Hs Hsent Hq Hm]. unfold step_details.
  destruct (gDetails s) as [|err| |] eqn:HD; try discriminate.
  - intros [= <-].
    assert (gCloser s = false) as Hc.
    { destruct (gCloser s); [|done]. by destruct Hcr. }
    split; simpl; rewrite ?HD in *; kept.
    destruct (gMain s) as [|[r|m]|]; kept. by destruct Hm.
  - unfold send. case_decide as Hlen; [|discriminate]. simpl.
    intros [= <-].
    assert (gCloser s = false) as Hc.
    { destruct (gCloser s); [|done]. by destruct Hcr. }
    rewrite (Hed err eq_refl) in *.
    split; simpl; rewrite ?HD in *; kept.
    + simpl in Hsent. rewrite Hsent.
      by rewrite (Permutation_app_comm _ [error_of dReply]).
    + destruct Hq as [pre Hpre]. exists pre. by rewrite Hpre, app_assoc.
    + destruct (gMain s) as [|[r|m]|] eqn:Hmain; kept.
      * destruct Hm as [k Hk]. exists k. by rewrite Hk, app_assoc.
      * by destruct Hm.
      * destruct Hm as (e & He & Hf). exists e. split; [done|].
        by apply first_error_app.
  - intros [= <-].
    assert (gCloser s = false) as Hc.
    { destruct (gCloser s); [|done]. by destruct Hcr. }
    split; simpl; rewrite ?HD in *; kept.
    + rewrite Hwg. simpl. lia.
    + destruct (gMain s) as [|[r|m]|]; kept. by destruct Hm.
Qed.

Lemma inv_step_stats s s' :
  inv dReply sReply s -> step_stats sReply s = Some s' -> inv dReply sReply s'.
Proof.
  intros [Hwg Hcl Hcr Hed Hes Hd Hs Hsent Hq Hm]. unfold step_stats.
  destruct (gStats s) as [|err| |] eqn:HS; try discriminate.
  - intros [= <-].
    assert (gCloser s = false) as Hc.
    { destruct (gCloser s); [|done]. by destruct Hcr. }
    split; simpl; rewrite ?HS in *; kept.
    destruct (gMain s) as [|[r|m]|]; kept. by destruct Hm as (_ & ? & _).
  - unfold send. case_decide as Hlen; [|discriminate]. simpl.
    intros [= <-].
    assert (gCloser s = false) as Hc.
    { destruct (gCloser s); [|done]. by destruct Hcr. }
    rewrite (Hes err eq_refl) in *.
    split; simpl; rewrite ?HS in *; kept.
    + simpl in Hsent. rewrite app_nil_r in Hsent. by rewrite Hsent.
    + destruct Hq as [pre Hpre]. exists pre. by rewrite Hpre, app_assoc.
    + destruct (gMain s) as [|[r|m]|] eqn:Hmain; kept.
      * destruct Hm as [k Hk]. exists k. by rewrite Hk, app_assoc.
      * by destruct Hm as (_ & ? & _).
      * destruct Hm as (e & He & Hf). exists e. split; [done|].
        by apply first_error_app.
  - intros [= <-].
    assert (gCloser s = false) as Hc.
    { destruct (gCloser s); [|done]. by destruct Hcr. }
    split; simpl; rewrite ?HS in *; kept.
    + rewrite Hwg. destruct (gDetails s); simpl; lia.
    + destruct (gMain s) as [|[r|m]|]; kept. by destruct Hm as (_ & ? & _).
Qed.

Lemma inv_step t s s' :
  inv dReply sReply s -> step dReply sReply t s = Some s' -> inv dReply sReply s'.
Proof.
  destruct t; simpl.
  - apply inv_step_closer.
  - apply inv_step_details.
  - apply inv_step_stats.
  - apply inv_step_main.
Qed.

Lemma reachable_inv s : reachable dReply sReply s -> inv dReply sReply s.
Proof.
  induction 1 as [|s t s' _ IH Hstep]; [apply inv_init|].
  by apply (inv_step t s).
Qed.

(** Everything sent is the error of one of the two requests. *)
Lemma sent_from_replies s e :
  inv dReply sReply s -> Some e ∈ sent s ->
  error_of dReply = Some e \/ error_of sReply = Some e.
Proof.
  intros Hinv Hin. rewrite (inv_sent _ _ _ Hinv) in Hin.
  apply elem_of_app in Hin as [Hin|Hin]; [left|right];
    unfold sent_by in Hin;
    match type of Hin with
    | _ ∈ match ?g with _ => _ end => destruct g
    end;
    first [by apply elem_of_nil in Hin | by apply list_elem_of_singleton in Hin].
Qed.

(** A fetching goroutine never blocks on its send. *)
Lemma send_never_blocks s err :
  inv dReply sReply s ->
  gDetails s = FFetched err \/ gStats s = FFetched err ->
  (length (errChan s) < capacity)%nat.
Proof.
  intros Hinv Hf. destruct (inv_queue _ _ _ Hinv) as [pre Hpre].
  pose proof (Permutation_length (inv_sent _ _ _ Hinv)) as Hlen.
  rewrite Hpre in Hlen. rewrite !length_app in Hlen.
  unfold capacity.
  destruct Hf as [Hf|Hf]; rewrite Hf in Hlen; simpl in Hlen;
    [destruct (gStats s) | destruct (gDetails s)]; simpl in Hlen; lia.
Qed.

(** While the caller is in its loop some goroutine can move; when nothing
    can move the caller has returned and the other goroutines are done. *)
Lemma stuck_returned s :
  inv dReply sReply s -> stuck dReply sReply s ->
  (exists r, gMain s = MReturn r)
  /\ gDetails s = FDone /\ gStats s = FDone /\ gCloser s = true.
Proof.
  intros Hinv Hstuck.
  assert (gDetails s = FDone) as HD.
  { pose proof (Hstuck TDetails) as H. simpl in H. unfold step_details in H.
    destruct (gDetails s) as [|err| |] eqn:HD; try discriminate; [|done].
    unfold send in H. rewrite decide_True in H; [discriminate|].
    apply (send_never_blocks s err Hinv). by left. }
  assert (gStats s = FDone) as HS.
  { pose proof (Hstuck TStats) as H. simpl in H. unfold step_stats in H.
    destruct (gStats s) as [|err| |] eqn:HS; try discriminate; [|done].
    unfold send in H. rewrite decide_True in H; [discriminate|].
    apply (send_never_blocks s err Hinv). by right. }
  assert (gCloser s = true) as HC.
  { pose proof (Hstuck TCloser) as H. simpl in H. unfold step_closer in H.
    destruct (gCloser s); [done|].
    rewrite (inv_wg _ _ _ Hinv), HD, HS in H. simpl in H. discriminate. }
  split; [|done].
  pose proof (Hstuck TMain) as H. simpl in H. unfold step_main in H.
  pose proof (inv_main _ _ _ Hinv) as Hm.
  destruct (gMain s) as [|r|]; [|by exists r|done].
  rewrite (inv_closed _ _ _ Hinv), HC in H.
  destruct (errChan s) as [|[?|] ?]; try discriminate.
  destruct (ifaceStats s); discriminate.
Qed.

(** Every action uses up the bound: no execution is infinite. *)
Lemma step_decreases t s s' :
  step dReply sReply t s = Some s' -> (actions_left s' < actions_left s)%nat.
Proof.
  unfold actions_left. destruct t; simpl.
  - unfold step_closer. destruct (gCloser s) eqn:HC; [discriminate|].
    destruct (wg s =? 0); [|discriminate]. intros [= <-]. simpl. lia.
  - unfold step_details. destruct (gDetails s) eqn:HD; try discriminate.
    + intros [= <-]. simpl. destruct (gMain s); lia.
    + unfold send. case_decide; [|discriminate]. simpl. intros [= <-]. simpl.
      rewrite length_app. simpl. destruct (gMain s); lia.
    + intros [= <-]. simpl. destruct (gMain s); lia.
  - unfold step_stats. destruct (gStats s) eqn:HS; try discriminate.
    + intros [= <-]. simpl. destruct (gMain s); lia.
    + unfold send. case_decide; [|discriminate]. simpl. intros [= <-]. simpl.
      rewrite length_app. simpl. destruct (gMain s); lia.
    + intros [= <-]. simpl. destruct (gMain s); lia.
  - unfold step_main. destruct (gMain s) eqn:HM; try discriminate.
    destruct (errChan s) as [|[?|] ?] eqn:HQ.
    + destruct (closed s); [|discriminate].
      destruct (ifaceStats s); intros [= <-]; simpl; lia.
    + intros [= <-]. simpl. lia.
    + intros [= <-]. simpl. lia.
Qed.

Lemma run_reachable sched s :
  reachable dReply sReply s -> reachable dReply sReply (run dReply sReply sched s).
Proof.
  revert s. induction sched as [|t sched IH]; intros s Hs; [done|].
  simpl. apply IH. destruct (step dReply sReply t s) as [s'|] eqn:Hstep; [|done].
  by apply (reachable_step _ _ s t).
Qed.

End GetInterfaces_facts.

(** C4 as the specification states it fails: the failure is reported as soon
    as the caller receives the first error, not after both requests have
    completed.  When the detail request fails, the schedule "detail request
    returns, its error is sent, the caller receives it" ends with the caller
    returned while the counter request has not even answered. *)
Lemma C4_failure_before_join_counterexample :
  let dReply : result (gmap Z Stats.InterfaceDetails) := Err "timeout" in
  let sReply : result Stats.InterfaceStats := Ok (Stats.mkInterfaceStats []) in
  let s :=
    Stats.GetInterfaces.run dReply sReply
      [Stats.GetInterfaces.TDetails; Stats.GetInterfaces.TDetails;
       Stats.GetInterfaces.TMain]
      Stats.GetInterfaces.init in
  Stats.GetInterfaces.reachable dReply sReply s
  /\ Stats.GetInterfaces.gMain s
     = Stats.GetInterfaces.MReturn (Err "request failed: timeout")
  /\ Stats.GetInterfaces.gStats s = Stats.GetInterfaces.FStart.
Proof.
  split; [|split; reflexivity].
  apply run_reachable. constructor.
Qed.

(** C4, amended.  In every state the goroutines of [GetInterfaces] can reach:
    if the caller has returned and one of the two requests failed, it
    returned an error and no interface list, and the error wraps the first
    error sent on the channel, which is the error of a failed request; the
    caller returns a list only after both requests succeeded and both
    fetching goroutines finished, so only the success path waits for both.
    The caller never stops on a nil dereference, it has returned whenever no
    goroutine can move, and every action uses up a finite bound, so
    [GetInterfaces] always returns. *)
Theorem C4_GetInterfaces_failure
    (dReply : result (gmap Z Stats.InterfaceDetails))
    (sReply : result Stats.InterfaceStats) (s : Stats.GetInterfaces.state) :
  Stats.GetInterfaces.reachable dReply sReply s ->
  (forall r, Stats.GetInterfaces.gMain s = Stats.GetInterfaces.MReturn r ->
     match r with
     | Err m =>
         exists e, m = "request failed: " +:+ e
                   /\ Stats.GetInterfaces.first_error (Stats.GetInterfaces.sent s)
                      = Some e
                   /\ (error_of dReply = Some e \/ error_of sReply = Some e)
     | Ok res =>
         Stats.GetInterfaces.gDetails s = Stats.GetInterfaces.FDone
         /\ Stats.GetInterfaces.gStats s = Stats.GetInterfaces.FDone
         /\ exists d st, dReply = Ok d /\ sReply = Ok st /\ res = Stats.join d st
     end)
  /\ (forall r, Stats.GetInterfaces.gMain s = Stats.GetInterfaces.MReturn r ->
        error_of dReply <> None \/ error_of sReply <> None ->
        exists m, r = Err m)
  /\ Stats.GetInterfaces.gMain s <> Stats.GetInterfaces.MPanic
  /\ (Stats.GetInterfaces.stuck dReply sReply s ->
        exists r, Stats.GetInterfaces.gMain s = Stats.GetInterfaces.MReturn r)
  /\ (forall t s', Stats.GetInterfaces.step dReply sReply t s = Some s' ->
        (Stats.GetInterfaces.actions_left s' < Stats.GetInterfaces.actions_left s)%nat).
Proof.
  intros Hreach. pose proof (reachable_inv _ _ _ Hreach) as Hinv.
  pose proof (Stats.GetInterfaces.inv_main _ _ _ Hinv) as Hm.
  assert (forall r, Stats.GetInterfaces.gMain s = Stats.GetInterfaces.MReturn r ->
     match r with
     | Err m =>
         exists e, m = "request failed: " +:+ e
                   /\ Stats.GetInterfaces.first_error (Stats.GetInterfaces.sent s)
                      = Some e
                   /\ (error_of dReply = Some e \/ error_of sReply = Some e)
     | Ok res =>
         Stats.GetInterfaces.gDetails s = Stats.GetInterfaces.FDone
         /\ Stats.GetInterfaces.gStats s = Stats.GetInterfaces.FDone
         /\ exists d st, dReply = Ok d /\ sReply = Ok st /\ res = Stats.join d st
     end) as Hret.
  { intros r Hr. rewrite Hr in Hm. destruct r as [res|m]; [done|].
    destruct Hm as (e & He & Hf). exists e. split; [done|]. split; [done|].
    apply (sent_from_replies dReply sReply s e Hinv).
    by apply first_error_elem. }
  split; [done|]. split; [|split; [|split]].
  - intros r Hr Hfail. specialize (Hret r Hr). destruct r as [res|m]; [|by exists m].
    destruct Hret as (_ & _ & d & st & -> & -> & _). by destruct Hfail.
  - intros Hp. by rewrite Hp in Hm.
  - intros Hstuck. by destruct (stuck_returned _ _ s Hinv Hstuck).
  - intros t s'. apply step_decreases.
Qed.

Lemma C4_GetInterfaces_failure_witness :
  let dReply : result (gmap Z Stats.InterfaceDetails) := Err "timeout" in
  let sReply : result Stats.InterfaceStats := Ok (Stats.mkInterfaceStats []) in
  let s :=
    Stats.GetInterfaces.run dReply sReply
      [Stats.GetInterfaces.TDetails; Stats.GetInterfaces.TDetails;
       Stats.GetInterfaces.TMain]
      Stats.GetInterfaces.init in
  exists m e,
    Stats.GetInterfaces.gMain s = Stats.GetInterfaces.MReturn (Err m)
    /\ m = "request failed: " +:+ e
    /\ error_of dReply = Some e.
Proof.
  intros dReply sReply s.
  assert (Stats.GetInterfaces.reachable dReply sReply s) as Hreach.
  { apply run_reachable. constructor. }
  destruct (C4_GetInterfaces_failure dReply sReply s Hreach) as (Hret & _).
  destruct (Hret (Err "request failed: timeout") eq_refl) as (e & He & _ & Hfrom).
  exists "request failed: timeout", e. split; [reflexivity|]. split; [done|].
  destruct Hfrom as [Hd|Hs]; [done|discriminate Hs].
Defined.

(** ** The join of interface counters and interface details *)

Section Join.

Import Stats.

Lemma join_loop d l acc :
  foldl (join_body d) acc l
  = acc ++ omap (fun iface => joined iface <$> d !! InterfaceIndex iface) l.
Proof.
  revert acc. induction l as [|iface l IH]; intros acc; simpl.
  - by rewrite app_nil_r.
  - rewrite IH. unfold join_body at 1.
    destruct (d !! InterfaceIndex iface) as [details|]; simpl; [|done].
    by rewrite <- app_assoc.
Qed.

Lemma join_omap d st :
  join d st
  = omap (fun iface => joined iface <$> d !! InterfaceIndex iface) (Interfaces st).
Proof. unfold join. by rewrite join_loop. Qed.

Lemma elem_of_join d st r :
  r ∈ join d st <->
  exists iface details,
    iface ∈ Interfaces st /\ d !! InterfaceIndex iface = Some details
    /\ r = joined iface details.
Proof.
  rewrite join_omap, list_elem_of_omap. split.
  - intros (iface & Hin & Hr).
    destruct (d !! InterfaceIndex iface) as [details|] eqn:Hd; [|done].
    simpl in Hr. injection Hr as <-. by exists iface, details.
  - intros (iface & details & Hin & Hd & ->). exists iface.
    split; [done|]. by rewrite Hd.
Qed.

End Join.

(** C5. A successful [GetInterfaces] returns the join of the two replies:
    in the order of the counter-side entries, one entry for each of them
    whose interface index is a key of the detail map, and nothing for the
    others (they are dropped without an error).  The state of an entry is
    "up" when the enabled flag of its details is set and "down" otherwise. *)
Theorem C5_GetInterfaces_join
    (d : gmap Z Stats.InterfaceDetails) (st : Stats.InterfaceStats) :
  Stats.join d st
  = omap (fun iface => Stats.joined iface <$> d !! Stats.InterfaceIndex iface)
      (Stats.Interfaces st)
  /\ (forall r,
        r ∈ Stats.join d st <->
        exists iface details,
          iface ∈ Stats.Interfaces st
          /\ d !! Stats.InterfaceIndex iface = Some details
          /\ r = Stats.joined iface details)
  /\ (forall iface,
        iface ∈ Stats.Interfaces st -> d !! Stats.InterfaceIndex iface = None ->
        forall r, r ∈ Stats.join d st -> Stats.Counters r <> iface)
  /\ (forall iface details,
        (Stats.State (Stats.joined iface details) = "up"
         <-> Stats.GetEnabled (Stats.DetailsInterface details) = true)
        /\ (Stats.State (Stats.joined iface details) = "down"
            <-> Stats.GetEnabled (Stats.DetailsInterface details) = false))
  /\ (forall s res,
        Stats.GetInterfaces.reachable (Ok d) (Ok st) s ->
        Stats.GetInterfaces.gMain s = Stats.GetInterfaces.MReturn (Ok res) ->
        res = Stats.join d st)
  /\ (forall s,
        Stats.GetInterfaces.reachable (Ok d) (Ok st) s ->
        Stats.GetInterfaces.stuck (Ok d) (Ok st) s ->
        Stats.GetInterfaces.gMain s
        = Stats.GetInterfaces.MReturn (Ok (Stats.join d st))).
Proof.
  split; [apply join_omap|]. split; [apply elem_of_join|].
  split; [|split; [|split]].
  - intros iface Hin Hnone r Hr Heq.
    apply elem_of_join in Hr as (iface' & details & _ & Hd & ->).
    simpl in Heq. subst iface'. congruence.
  - intros iface details. simpl.
    destruct (Stats.GetEnabled (Stats.DetailsInterface details)); by split.
  - intros s res Hreach Hmain.
    pose proof (Stats.GetInterfaces.inv_main _ _ _ (reachable_inv _ _ _ Hreach)) as Hm.
    rewrite Hmain in Hm. destruct Hm as (_ & _ & d' & st' & Hd & Hs & ->).
    congruence.
  - intros s Hreach Hstuck.
    pose proof (reachable_inv _ _ _ Hreach) as Hinv.
    destruct (stuck_returned _ _ s Hinv Hstuck) as ([r Hr] & _).
    pose proof (Stats.GetInterfaces.inv_main _ _ _ Hinv) as Hm.
    rewrite Hr in Hm. rewrite Hr. destruct r as [res|m].
    + destruct Hm as (_ & _ & d' & st' & Hd & Hs & ->). congruence.
    + destruct Hm as (e & _ & Hf). apply first_error_elem in Hf.
      by destruct (sent_from_replies _ _ s e Hinv Hf).
Qed.

Lemma C5_GetInterfaces_join_witness :
  Stats.join {[ 1 := Sample.details true ["10.0.0.1/24"] ]}
    (Stats.mkInterfaceStats [Sample.lo_counters; Sample.eth0_counters])
  = [Sample.eth0_before]
  /\ Stats.State Sample.eth0_before = "up".
Proof.
  destruct (C5_GetInterfaces_join {[ 1 := Sample.details true ["10.0.0.1/24"] ]}
              (Stats.mkInterfaceStats [Sample.lo_counters; Sample.eth0_counters]))
    as (Hjoin & _ & _ & Hstate & _).
  split.
  - rewrite Hjoin. reflexivity.
  - apply (Hstate (Sample.counters 1 "eth0" (Stats.mkCombined 10 1000)
                     (Stats.mkCombined 4 300))
             (Sample.details true ["10.0.0.1/24"])).
    reflexivity.
Defined.

(** ** The version resolver *)

Section Resolver.

Import Stats.

Variable b : Binapi.
Variable check : list Message -> option string.

Lemma resolve_first_match order gob :
  match resolve b check order gob with
  | (Some ver, gob') =>
      exists pre h post,
        order = pre ++ (ver, h) :: post
        /\ Forall (fun e => check (Msgs e.2) <> None) pre
        /\ check (Msgs h) = None
        /\ gob' = gob ++ registered_for b ver h
  | (None, gob') =>
      Forall (fun e => check (Msgs e.2) <> None) order /\ gob' = gob
  end.
Proof.
  induction order as [|[ver h] rest IH]; simpl; [done|].
  destruct (check (Msgs h)) as [err|] eqn:Hc.
  - destruct (resolve b check rest gob) as [[ver'|] gob'].
    + destruct IH as (pre & h' & post & -> & Hpre & Hh & ->).
      exists ((ver, h) :: pre), h', post. split; [done|].
      split; [|done]. constructor; [|done]. simpl. by rewrite Hc.
    + destruct IH as [Hall ->]. split; [|done].
      constructor; [|done]. simpl. by rewrite Hc.
  - by exists [], h, rest.
Qed.

End Resolver.

Lemma sample_orders :
  Stats.iteration_order Sample.versions
    [("19.04", Sample.h1904); ("19.08", Sample.h1908)]
  /\ Stats.iteration_order Sample.versions
       [("19.08", Sample.h1908); ("19.04", Sample.h1904)].
Proof.
  assert (Stats.iteration_order Sample.versions
            [("19.04", Sample.h1904); ("19.08", Sample.h1908)]) as H.
  { unfold Stats.iteration_order, Sample.versions.
    rewrite map_to_list_insert by done.
    by rewrite insert_empty, map_to_list_singleton. }
  split; [done|].
  unfold Stats.iteration_order in *. rewrite <- H. apply Permutation_swap.
Qed.

(** C6 as the specification states it fails: the loop ranges over a map,
    whose visiting order the language leaves unspecified, so there is no
    fixed priority order.  For a channel compatible with two releases, two
    visiting orders of the same version table select different releases. *)
Lemma C6_fixed_priority_counterexample :
  let order1 := [("19.04", Sample.h1904); ("19.08", Sample.h1908)] in
  let order2 := [("19.08", Sample.h1908); ("19.04", Sample.h1904)] in
  Stats.iteration_order (Stats.govppmux_Versions Sample.binapi) order1
  /\ Stats.iteration_order (Stats.govppmux_Versions Sample.binapi) order2
  /\ (Stats.resolve Sample.binapi Sample.compatible_with_all order1 []).1
     = Some "19.04"
  /\ (Stats.resolve Sample.binapi Sample.compatible_with_all order2 []).1
     = Some "19.08"
  /\ (Stats.resolve Sample.binapi Sample.compatible_with_all order1 []).1
     <> (Stats.resolve Sample.binapi Sample.compatible_with_all order2 []).1.
Proof.
  destruct sample_orders as [H1 H2].
  split; [done|]. split; [done|]. split; [done|]. split; [done|]. discriminate.
Qed.

(** C6, amended.  The resolver visits the version table in the order in
    which the map is ranged over, which is not fixed.  Within one visiting
    order it selects the first release whose compatibility check passes,
    never a later one: every release visited before it failed the check.
    The selected release is an entry of the table, its message sets are the
    ones registered, and when no release passes nothing is registered. *)
Theorem C6_resolver_first_match (b : Stats.Binapi)
    (check : list Stats.Message -> option string)
    (order : list (string * Stats.HandlerVersion)) (gob : list Stats.Message) :
  Stats.iteration_order (Stats.govppmux_Versions b) order ->
  match Stats.resolve b check order gob with
  | (Some ver, gob') =>
      exists pre h post,
        order = pre ++ (ver, h) :: post
        /\ Forall (fun e => check (Stats.Msgs e.2) <> None) pre
        /\ check (Stats.Msgs h) = None
        /\ Stats.govppmux_Versions b !! ver = Some h
        /\ gob' = gob ++ Stats.registered_for b ver h
  | (None, gob') =>
      (forall ver h, Stats.govppmux_Versions b !! ver = Some h ->
                     check (Stats.Msgs h) <> None)
      /\ gob' = gob
  end.
Proof.
  intros Horder. pose proof (resolve_first_match b check order gob) as H.
  destruct (Stats.resolve b check order gob) as [[ver|] gob'].
  - destruct H as (pre & h & post & Ho & Hpre & Hh & ->).
    exists pre, h, post. split; [done|]. split; [done|]. split; [done|].
    split; [|done]. apply elem_of_map_to_list.
    unfold Stats.iteration_order in Horder. rewrite <- Horder, Ho.
    apply elem_of_app. right. left.
  - destruct H as [Hall ->]. split; [|done]. intros ver h Hm.
    apply elem_of_map_to_list in Hm.
    unfold Stats.iteration_order in Horder. rewrite <- Horder in Hm.
    rewrite Forall_forall in Hall. apply (Hall (ver, h) Hm).
Qed.

Lemma C6_resolver_first_match_witness :
  exists pre h post,
    [("19.08", Sample.h1908); ("19.04", Sample.h1904)]
    = pre ++ ("19.08", h) :: post
    /\ Forall (fun e => Sample.compatible_with_all (Stats.Msgs e.2) <> None) pre
    /\ Sample.versions !! "19.08" = Some h.
Proof.
  pose proof (C6_resolver_first_match Sample.binapi Sample.compatible_with_all
                [("19.08", Sample.h1908); ("19.04", Sample.h1904)] []
                (proj2 sample_orders)) as H.
  simpl in H. destruct H as (pre & h & post & Ho & Hpre & _ & Hm & _).
  by exists pre, h, post.
Defined.

(** ** Sort actions *)

Lemma five_specs (l : list Client.SortSpec) :
  length l = 5%nat -> exists s0 s1 s2 s3 s4, l = [s0; s1; s2; s3; s4].
Proof.
  destruct l as [|s0 [|s1 [|s2 [|s3 [|s4 [|s5 l]]]]]]; try discriminate.
  intros _. by exists s0, s1, s2, s3, s4.
Qed.

(** C9. Two sort events in succession on the same tab and column leave every
    ascending flag as it was: on a sortable tab (interfaces, nodes, errors)
    each event stores the column and negates the flag, so the first event
    flips the direction and the second restores it; the sort specification
    of the other tabs, and the rest of the application state, are untouched.
    From the first event on, the specification alternates between exactly
    two values. *)
Theorem C9_sort_twice_restores_direction (app : Client.App) (tab row : Z) :
  length (Client.sortBy app) = 5%nat ->
  exists app1 app2,
    Client.onSort app tab row = Some app1
    /\ Client.onSort app1 tab row = Some app2
    /\ Client.asc <$> Client.sortBy app2 = Client.asc <$> Client.sortBy app
    /\ (tab = Client.Interfaces \/ tab = Client.Nodes \/ tab = Client.Errors ->
        exists s,
          Client.sortBy app !! Z.to_nat tab = Some s
          /\ Client.sortBy app1 !! Z.to_nat tab
             = Some (Client.mkSortSpec (negb (Client.asc s)) row)
          /\ Client.sortBy app2 !! Z.to_nat tab
             = Some (Client.mkSortSpec (Client.asc s) row))
    /\ (forall i, i <> Z.to_nat tab ->
          Client.sortBy app1 !! i = Client.sortBy app !! i
          /\ Client.sortBy app2 !! i = Client.sortBy app !! i)
    /\ (exists app3, Client.onSort app2 tab row = Some app3
                     /\ Client.sortBy app3 = Client.sortBy app1)
    /\ Client.vpp app2 = Client.vpp app
    /\ Client.IfCache app2 = Client.IfCache app
    /\ Client.currTab app2 = Client.currTab app
    /\ length (Client.sortBy app2) = 5%nat.
Proof.
  intros Hlen. destruct app as [v cache specs cur]. simpl in Hlen.
  destruct (five_specs specs Hlen) as (s0 & s1 & s2 & s3 & s4 & ->).
  unfold Client.onSort.
  destruct (Z.eqb_spec tab Client.Interfaces) as [->|H0].
  { eexists _, _. simpl. split; [reflexivity|]. simpl. split; [reflexivity|].
    simpl. rewrite !negb_involutive. split; [reflexivity|].
    split; [intros _; by exists s0|].
    split; [intros [|i] Hi; [done| by split]|].
    split; [|done]. eexists. split; [reflexivity|]. done. }
  destruct (Z.eqb_spec tab Client.Nodes) as [->|H1].
  { eexists _, _. simpl. split; [reflexivity|]. simpl. split; [reflexivity|].
    simpl. rewrite !negb_involutive. split; [reflexivity|].
    split; [intros _; by exists s1|].
    split; [intros [|[|i]] Hi; [by split|done|by split]|].
    split; [|done]. eexists. split; [reflexivity|]. done. }
  destruct (Z.eqb_spec tab Client.Errors) as [->|H2].
  { eexists _, _. simpl. split; [reflexivity|]. simpl. split; [reflexivity|].
    simpl. rewrite !negb_involutive. split; [reflexivity|].
    split; [intros _; by exists s2|].
    split; [intros [|[|[|i]]] Hi; [by split|by split|done|by split]|].
    split; [|done]. eexists. split; [reflexivity|]. done. }
  eexists _, _. split; [reflexivity|]. simpl.
  destruct (Z.eqb_spec tab Client.Interfaces); [done|].
  destruct (Z.eqb_spec tab Client.Nodes); [done|].
  destruct (Z.eqb_spec tab Client.Errors); [done|].
  split; [reflexivity|]. split; [reflexivity|].
  split; [by intros [|[|]]|]. split; [done|].
  split; [|done]. by eexists.
Qed.

Lemma C9_sort_twice_restores_direction_witness :
  exists app1 app2,
    Client.onSort (Client.NewApp (-1)) Client.Interfaces 8 = Some app1
    /\ Client.onSort app1 Client.Interfaces 8 = Some app2
    /\ Client.asc <$> Client.sortBy app2 = replicate 5 true.
Proof.
  destruct (C9_sort_twice_restores_direction (Client.NewApp (-1))
              Client.Interfaces 8 eq_refl)
    as (app1 & app2 & H1 & H2 & Hasc & _).
  exists app1, app2. split; [done|]. split; [done|]. by rewrite Hasc.
Defined.

(** ** Writing into the middle of a table *)

Section Frame.

Context {A : Type}.
Implicit Types pre mid post : list A.

Lemma alter_mid f pre mid post n k :
  length pre = n -> (k < length mid)%nat ->
  alter f (n + k)%nat (pre ++ mid ++ post) = pre ++ alter f k mid ++ post.
Proof.
  intros <- Hk. rewrite alter_app_r. f_equal. by apply alter_app_l.
Qed.

Lemma insert_mid x pre mid post n k :
  length pre = n -> (k < length mid)%nat ->
  <[(n + k)%nat := x]> (pre ++ mid ++ post) = pre ++ <[k := x]> mid ++ post.
Proof.
  intros <- Hk. rewrite insert_app_r. f_equal. by apply insert_app_l.
Qed.

Lemma lookup_mid pre mid post n k :
  length pre = n -> (k < length mid)%nat ->
  (pre ++ mid ++ post) !! (n + k)%nat = mid !! k.
Proof.
  intros <- Hk. rewrite lookup_app_r by lia.
  replace (length pre + k - length pre)%nat with k by lia.
  by apply lookup_app_l.
Qed.

End Frame.

(** ** The interface formatter *)

Lemma split_on_cons sep s : exists h t, split_on sep s = h :: t.
Proof.
  induction s as [|c s (h & t & IH)]; simpl; [by eexists _, _|].
  case_decide; [by eexists _, _|]. rewrite IH. by eexists _, _.
Qed.

Lemma address_of_total addr : is_Some (Client.address_of addr).
Proof.
  unfold Client.address_of. destruct (split_on_cons "/" addr) as (h & t & ->).
  by eexists.
Qed.

Lemma lookup_concat_blocks {A : Type} (blocks : list (list A)) (n k j : nat) :
  Forall (fun b => length b = n) blocks -> (j < n)%nat ->
  concat blocks !! (n * k + j)%nat = (blocks !! k ≫= fun b => b !! j).
Proof.
  intros Hall Hj. revert k. induction Hall as [|b blocks Hb _ IH]; intros k.
  - by rewrite lookup_nil.
  - destruct k as [|k]; simpl.
    + rewrite Nat.mul_0_r. simpl. apply lookup_app_l. lia.
    + rewrite lookup_app_r by lia.
      replace (n * S k + j - length b)%nat with (n * k + j)%nat by lia.
      apply IH.
Qed.

Section Ip_loop.

Import Stats Client.

Lemma set_first_cell_mid (pre mid post : TableRows) n k a :
  length pre = n -> (k < length mid)%nat ->
  set_first_cell (n + k) a (pre ++ mid ++ post)
  = pre ++ set_first_cell k a mid ++ post.
Proof. apply alter_mid. Qed.

Lemma ip_loop_frame addrs (pre post : TableRows) n maxr ip :
  length pre = n ->
  forall r (mid : TableRows),
    (maxr <= length mid)%nat ->
    ip_loop addrs (n + maxr) ip (n + r) (pre ++ mid ++ post)
    = (fun b => pre ++ b ++ post) <$> ip_loop addrs maxr ip r mid.
Proof.
  intros Hn. induction ip as [|ip IH]; intros r mid Hmax; simpl; [done|].
  destruct (decide (r < maxr)%nat) as [Hr|Hr].
  - rewrite decide_True by lia.
    destruct (addrs !! ip) as [addr|]; simpl; [|done].
    destruct (address_of addr) as [a|]; simpl; [|done].
    rewrite set_first_cell_mid by (done || lia).
    rewrite <- Nat.add_succ_r. apply IH.
    unfold set_first_cell. by rewrite length_alter.
  - by rewrite decide_False by lia.
Qed.

Lemma set_first_cell_other (rows : TableRows) r a j c :
  c <> 0%nat -> cell (set_first_cell r a rows) j c = cell rows j c.
Proof.
  intros Hc. unfold cell, set_first_cell.
  destruct (decide (r = j)) as [->|Hne].
  - rewrite list_lookup_alter_eq. destruct (rows !! j) as [row|]; simpl; [|done].
    by apply list_lookup_insert_ne.
  - by rewrite list_lookup_alter_ne.
Qed.

Lemma ip_loop_cell addrs maxr ip :
  forall r (rows rows' : TableRows) j c,
    ip_loop addrs maxr ip r rows = Some rows' -> c <> 0%nat ->
    cell rows' j c = cell rows j c.
Proof.
  induction ip as [|ip IH]; intros r rows rows' j c; simpl.
  - by intros [= <-].
  - case_decide; [|by intros [= <-]].
    destruct (addrs !! ip) as [addr|]; simpl; [|done].
    destruct (address_of addr) as [a|]; simpl; [|done].
    intros Hloop Hc. rewrite (IH _ _ _ j c Hloop Hc).
    by apply set_first_cell_other.
Qed.

Lemma ip_loop_length addrs maxr ip :
  forall r (rows rows' : TableRows),
    ip_loop addrs maxr ip r rows = Some rows' -> length rows' = length rows.
Proof.
  induction ip as [|ip IH]; intros r rows rows'; simpl.
  - by intros [= <-].
  - case_decide; [|by intros [= <-]].
    destruct (addrs !! ip) as [addr|]; simpl; [|done].
    destruct (address_of addr) as [a|]; simpl; [|done].
    intros Hloop. rewrite (IH _ _ _ Hloop).
    unfold set_first_cell. by rewrite length_alter.
Qed.

Lemma ip_loop_total addrs maxr ip :
  (ip <= length addrs)%nat ->
  forall r (rows : TableRows), is_Some (ip_loop addrs maxr ip r rows).
Proof.
  induction ip as [|ip IH]; intros Hip r rows; simpl; [by eexists|].
  case_decide; [|by eexists].
  destruct (lookup_lt_is_Some_2 addrs ip) as [addr ->]; [lia|]. simpl.
  destruct (address_of_total addr) as [a ->]. simpl.
  apply IH. lia.
Qed.

End Ip_loop.

Section Name_index.

Import Stats Client.

Implicit Types cache : list Interface.

(** A name no cached interface carries is not touched. *)
Lemma build_index_absent cache i m name :
  Forall (fun q => InterfaceName (Counters q) <> name) cache ->
  build_index i cache m !! name = m !! name.
Proof.
  intros Hall. revert i m.
  induction Hall as [|q cache Hq _ IH]; intros i m; simpl; [done|].
  rewrite IH. by apply lookup_insert_ne.
Qed.

(** The index recorded for a name is the one of its last occurrence. *)
Lemma build_index_last cache1 p cache2 i m :
  Forall (fun q => InterfaceName (Counters q) <> InterfaceName (Counters p))
    cache2 ->
  build_index i (cache1 ++ p :: cache2) m !! InterfaceName (Counters p)
  = Some (i + length cache1)%nat.
Proof.
  intros Hlast. revert i m.
  induction cache1 as [|q cache1 IH]; intros i m; simpl.
  - rewrite build_index_absent by done.
    rewrite lookup_insert_eq. f_equal. lia.
  - rewrite IH. f_equal. lia.
Qed.

(** Every recorded index is an index of the cache. *)
Lemma build_index_bound cache i m name idx :
  build_index i cache m !! name = Some idx ->
  m !! name = Some idx \/ (i <= idx < i + length cache)%nat.
Proof.
  revert i m. induction cache as [|q cache IH]; intros i m; simpl; [by left|].
  intros H. apply IH in H as [H|H]; [|right; lia].
  apply lookup_insert_Some in H as [[_ <-]|[_ H]]; [right; lia|by left].
Qed.

Lemma compute_rates_total cache iface :
  is_Some (compute_rates cache (build_index 0 cache ∅) iface).
Proof.
  unfold compute_rates.
  destruct (build_index 0 cache ∅ !! InterfaceName (Counters iface))
    as [idx|] eqn:Hidx; [|by eexists].
  apply build_index_bound in Hidx as [Hidx|Hidx]; [by rewrite lookup_empty in Hidx|].
  destruct (lookup_lt_is_Some_2 cache idx) as [old ->]; [lia|]. by eexists.
Qed.

(** The rates of an interface whose name is cached: the differences with
    the last cached interface of that name. *)
Lemma compute_rates_present cache1 old cache2 iface :
  InterfaceName (Counters old) = InterfaceName (Counters iface) ->
  Forall (fun q => InterfaceName (Counters q) <> InterfaceName (Counters iface))
    cache2 ->
  compute_rates (cache1 ++ old :: cache2)
    (build_index 0 (cache1 ++ old :: cache2) ∅) iface
  = Some (mkRates
            (U64.sub (Bytes (Rx (Counters iface))) (Bytes (Rx (Counters old))))
            (U64.sub (Bytes (Tx (Counters iface))) (Bytes (Tx (Counters old))))
            (U64.sub (Packets (Rx (Counters iface))) (Packets (Rx (Counters old))))
            (U64.sub (Packets (Tx (Counters iface))) (Packets (Tx (Counters old))))).
Proof.
  intros Hname Hlast. unfold compute_rates. rewrite <- Hname in *.
  rewrite build_index_last by done. simpl.
  by rewrite list_lookup_middle.
Qed.

Lemma compute_rates_absent cache iface :
  Forall (fun q => InterfaceName (Counters q) <> InterfaceName (Counters iface))
    cache ->
  compute_rates cache (build_index 0 cache ∅) iface = Some (mkRates 0 0 0 0).
Proof.
  intros Hall. unfold compute_rates.
  by rewrite build_index_absent, lookup_empty.
Qed.

End Name_index.

Section Format_entry.

Import Stats Client.

Variable EmptyCell : string.

Local Arguments Sprint : simpl never.
Local Arguments pair_cell : simpl never.

Lemma append_cell_mid (pre mid post : list (list string)) n x :
  length pre = n -> (0 < length mid)%nat ->
  append_cell n x (pre ++ mid ++ post) = pre ++ append_cell 0 x mid ++ post.
Proof.
  intros Hn Hmid. unfold append_cell.
  rewrite <- (Nat.add_0_r n) at 1. by apply alter_mid.
Qed.

(** An iteration only writes the eleven rows of its interface. *)
Lemma format_entry_frame cache idx i iface (pre mid post : list (list string)) :
  length pre = (RowsPerIface * i)%nat -> length mid = RowsPerIface ->
  format_entry EmptyCell cache idx i iface (pre ++ mid ++ post)
  = (fun b => pre ++ b ++ post)
      <$> format_entry EmptyCell cache idx 0 iface mid.
Proof.
  intros Hpre Hmid.
  destruct mid as [|r0 [|r1 [|r2 [|r3 [|r4 [|r5 [|r6 [|r7 [|r8 [|r9 [|r10 [|]]]]]]]]]]]];
    try discriminate Hmid.
  unfold format_entry. rewrite Nat.mul_0_r.
  set (n := (RowsPerIface * i)%nat) in *.
  destruct (MTU iface !! 0%nat) as [m0|]; cbn [mbind option_bind]; [|done].
  destruct (MTU iface !! 1%nat) as [m1|]; cbn [mbind option_bind]; [|done].
  destruct (MTU iface !! 2%nat) as [m2|]; cbn [mbind option_bind]; [|done].
  destruct (MTU iface !! 3%nat) as [m3|]; cbn [mbind option_bind]; [|done].
  destruct (compute_rates cache idx iface) as [rt|]; cbn [mbind option_bind];
    [|done].
  rewrite !append_cell_mid by (done || (simpl; lia)).
  rewrite !insert_mid by (done || (simpl; lia)).
  apply (ip_loop_frame (IPAddrs iface) pre post n RowsPerIface
           (length (IPAddrs iface)) Hpre 1%nat).
  simpl. unfold RowsPerIface. lia.
Qed.

Local Ltac eleven mid Hmid :=
  destruct mid as [|? [|? [|? [|? [|? [|? [|? [|? [|? [|? [|? [|]]]]]]]]]]]];
  try discriminate Hmid.

(** What an iteration leaves in the rate cells of its interface. *)
Lemma format_entry_rates cache idx iface (mid b : list (list string)) :
  length mid = RowsPerIface ->
  format_entry EmptyCell cache idx 0 iface mid = Some b ->
  length b = RowsPerIface
  /\ exists rt,
       compute_rates cache idx iface = Some rt
       /\ cell b 1 5 = Some (Sprint (rxpps rt))
       /\ cell b 1 7 = Some (Sprint (txpps rt))
       /\ cell b 3 5 = Some (Sprint (rxbbs rt))
       /\ cell b 3 7 = Some (Sprint (txbbs rt)).
Proof.
  intros Hmid. eleven mid Hmid.
  unfold format_entry. rewrite Nat.mul_0_r.
  destruct (MTU iface !! 0%nat) as [m0|]; cbn [mbind option_bind]; [|done].
  destruct (MTU iface !! 1%nat) as [m1|]; cbn [mbind option_bind]; [|done].
  destruct (MTU iface !! 2%nat) as [m2|]; cbn [mbind option_bind]; [|done].
  destruct (MTU iface !! 3%nat) as [m3|]; cbn [mbind option_bind]; [|done].
  destruct (compute_rates cache idx iface) as [rt|]; cbn [mbind option_bind];
    [|done].
  intros Hloop. split.
  - by rewrite (ip_loop_length _ _ _ _ _ _ Hloop).
  - exists rt. split; [done|].
    by rewrite !(ip_loop_cell _ _ _ _ _ _ _ _ Hloop).
Qed.

(** An iteration completes when the MTU slice has its four elements. *)
Lemma format_entry_total cache iface (mid : list (list string)) :
  (4 <= length (MTU iface))%nat ->
  is_Some (format_entry EmptyCell cache (build_index 0 cache ∅) 0 iface mid).
Proof.
  intros Hmtu. unfold format_entry.
  destruct (lookup_lt_is_Some_2 (MTU iface) 0) as [m0 ->]; [lia|].
  destruct (lookup_lt_is_Some_2 (MTU iface) 1) as [m1 ->]; [lia|].
  destruct (lookup_lt_is_Some_2 (MTU iface) 2) as [m2 ->]; [lia|].
  destruct (lookup_lt_is_Some_2 (MTU iface) 3) as [m3 ->]; [lia|].
  destruct (compute_rates_total cache iface) as [rt ->].
  cbn [mbind option_bind]. by apply ip_loop_total.
Qed.

(** The loop of [formatInterfaces] lays the blocks of the interfaces one
    after the other. *)
Lemma format_loop_blocks cache idx ifaces :
  forall i (pre : list (list string)),
    length pre = (RowsPerIface * i)%nat ->
    format_loop EmptyCell cache idx i ifaces
      (pre ++ replicate (RowsPerIface * length ifaces) [])
    = (fun blocks => pre ++ concat blocks)
        <$> mapM (fun iface =>
                    format_entry EmptyCell cache idx 0 iface
                      (replicate RowsPerIface []))
              ifaces.
Proof.
  induction ifaces as [|iface ifaces IH]; intros i pre Hpre.
  - simpl. by rewrite app_nil_r.
  - replace (RowsPerIface * length (iface :: ifaces))%nat
      with (RowsPerIface + RowsPerIface * length ifaces)%nat by (simpl; lia).
    rewrite replicate_add. cbn [format_loop mapM].
    rewrite format_entry_frame by (done || by rewrite length_replicate).
    destruct (format_entry EmptyCell cache idx 0 iface (replicate RowsPerIface []))
      as [b|] eqn:Hb; cbn [fmap option_fmap option_map mbind option_bind]; [|done].
    apply format_entry_rates in Hb as [Hlen _]; [|by rewrite length_replicate].
    rewrite (app_assoc pre b). rewrite IH.
    + destruct (mapM _ ifaces) as [blocks|]; simpl; [|done].
      by rewrite <- app_assoc.
    + rewrite length_app, Hpre, Hlen. lia.
Qed.

(** [formatInterfaces] completes when every MTU slice has its four
    elements. *)
Lemma formatInterfaces_total cache ifaces :
  Forall (fun iface => (4 <= length (MTU iface))%nat) ifaces ->
  exists rows, formatInterfaces EmptyCell cache ifaces = Some (rows, ifaces).
Proof.
  intros Hmtu. unfold formatInterfaces.
  rewrite (format_loop_blocks cache _ ifaces 0 []) by done.
  assert (is_Some (mapM (fun iface =>
              format_entry EmptyCell cache (build_index 0 cache ∅) 0 iface
                (replicate RowsPerIface [])) ifaces)) as [blocks ->].
  { apply mapM_is_Some. eapply Forall_impl; [exact Hmtu|].
    intros iface Hiface. by apply format_entry_total. }
  by eexists.
Qed.

(** The new cache is the list that was formatted, and the rate cells of
    the interface at index [i] hold its rates. *)
Lemma formatInterfaces_rates cache ifaces rows cache' :
  formatInterfaces EmptyCell cache ifaces = Some (rows, cache') ->
  cache' = ifaces
  /\ length rows = (RowsPerIface * length ifaces)%nat
  /\ forall i iface,
       ifaces !! i = Some iface ->
       exists rt,
         compute_rates cache (build_index 0 cache ∅) iface = Some rt
         /\ cell rows (RowsPerIface * i + 1) 5 = Some (Sprint (rxpps rt))
         /\ cell rows (RowsPerIface * i + 1) 7 = Some (Sprint (txpps rt))
         /\ cell rows (RowsPerIface * i + 3) 5 = Some (Sprint (rxbbs rt))
         /\ cell rows (RowsPerIface * i + 3) 7 = Some (Sprint (txbbs rt)).
Proof.
  unfold formatInterfaces.
  rewrite (format_loop_blocks cache _ ifaces 0 []) by done.
  destruct (mapM _ ifaces) as [blocks|] eqn:Hblocks; [|done].
  cbn [fmap option_fmap option_map mbind option_bind app].
  intros [= <- <-]. split; [done|].
  apply mapM_Some in Hblocks.
  assert (Forall (fun b : list (list string) => length b = RowsPerIface) blocks)
    as Hlens.
  { apply Forall_forall. intros b Hb.
    apply list_elem_of_lookup in Hb as [k Hk].
    destruct (Forall2_lookup_r _ _ _ _ _ Hblocks Hk) as (iface & _ & Hf).
    apply format_entry_rates in Hf as [? _]; [done|by rewrite length_replicate]. }
  split.
  { rewrite (Forall2_length _ _ _ Hblocks).
    clear Hblocks. induction Hlens as [|b blocks Hb _ IH]; simpl; [done|].
    rewrite length_app, IH, Hb. unfold RowsPerIface. lia. }
  intros i iface Hi.
  destruct (Forall2_lookup_l _ _ _ _ _ Hblocks Hi) as (b & Hb & Hf).
  apply format_entry_rates in Hf
    as (_ & rt & Hrt & H15 & H17 & H35 & H37); [|by rewrite length_replicate].
  exists rt. split; [done|].
  unfold cell in *.
  rewrite !(lookup_concat_blocks blocks RowsPerIface i) by (done || (unfold RowsPerIface; lia)).
  rewrite Hb. done.
Qed.

End Format_entry.

(** C3. After two consecutive calls of the interface formatter, the rate
    cells of every interface of the second sample whose name occurs in the
    first one hold the current counter minus the cached counter of that name
    (the last one, should the name occur twice), for received and sent bytes
    and packets; the cells hold 0 for a name absent from the cache.  The
    subtraction is the one of [uint64], the plain difference when the counter
    did not decrease.  Received bytes 1000 then 1500 for "eth0" give 500,
    and 0 when "eth0" was not in the previous sample. *)
Theorem C3_interface_rates (EmptyCell : string)
    (cache prev cur : list Stats.Interface) :
  Forall (fun iface => (4 <= length (Stats.MTU iface))%nat) prev ->
  Forall (fun iface => (4 <= length (Stats.MTU iface))%nat) cur ->
  exists rows1 rows2,
    Client.formatInterfaces EmptyCell cache prev = Some (rows1, prev)
    /\ Client.formatInterfaces EmptyCell prev cur = Some (rows2, cur)
    /\ (forall i iface,
          cur !! i = Some iface ->
          let name q := Stats.InterfaceName (Stats.Counters q) in
          let rx q := Stats.Rx (Stats.Counters q) in
          let tx q := Stats.Tx (Stats.Counters q) in
          let r := (Client.RowsPerIface * i)%nat in
          (forall before old after,
             prev = before ++ old :: after ->
             name old = name iface ->
             Forall (fun q => name q <> name iface) after ->
             Client.cell rows2 (r + 1) 5
             = Some (Sprint (U64.sub (Stats.Packets (rx iface)) (Stats.Packets (rx old))))
             /\ Client.cell rows2 (r + 1) 7
                = Some (Sprint (U64.sub (Stats.Packets (tx iface)) (Stats.Packets (tx old))))
             /\ Client.cell rows2 (r + 3) 5
                = Some (Sprint (U64.sub (Stats.Bytes (rx iface)) (Stats.Bytes (rx old))))
             /\ Client.cell rows2 (r + 3) 7
                = Some (Sprint (U64.sub (Stats.Bytes (tx iface)) (Stats.Bytes (tx old)))))
          /\ (Forall (fun q => name q <> name iface) prev ->
              Client.cell rows2 (r + 1) 5 = Some "0"
              /\ Client.cell rows2 (r + 1) 7 = Some "0"
              /\ Client.cell rows2 (r + 3) 5 = Some "0"
              /\ Client.cell rows2 (r + 3) 7 = Some "0"))
    /\ (forall now before, U64.in_range now -> 0 <= before <= now ->
          U64.sub now before = now - before)
    /\ (exists rows,
          Client.formatInterfaces EmptyCell [Sample.eth0_before] [Sample.eth0_after]
          = Some (rows, [Sample.eth0_after])
          /\ Client.cell rows 3 5 = Some "500")
    /\ (exists rows,
          Client.formatInterfaces EmptyCell [] [Sample.eth0_after]
          = Some (rows, [Sample.eth0_after])
          /\ Client.cell rows 3 5 = Some "0").
Proof.
  intros Hprev Hcur.
  destruct (formatInterfaces_total EmptyCell cache prev Hprev) as [rows1 H1].
  destruct (formatInterfaces_total EmptyCell prev cur Hcur) as [rows2 H2].
  exists rows1, rows2. split; [done|]. split; [done|].
  split; [|split; [apply U64_sub_exact|split]].
  - intros i iface Hi name rx tx r.
    destruct (formatInterfaces_rates EmptyCell prev cur rows2 cur H2)
      as (_ & _ & Hrates).
    destruct (Hrates i iface Hi) as (rt & Hrt & H15 & H17 & H35 & H37).
    split.
    + intros before old after -> Hname Hlast.
      rewrite (compute_rates_present before old after iface Hname Hlast) in Hrt.
      injection Hrt as <-. done.
    + intros Habsent.
      rewrite (compute_rates_absent prev iface Habsent) in Hrt.
      injection Hrt as <-. done.
  - eexists. split; [by vm_compute|]. by vm_compute.
  - eexists. split; [by vm_compute|]. by vm_compute.
Qed.

Lemma C3_interface_rates_witness :
  exists rows2,
    Client.formatInterfaces "-" [Sample.eth0_before] [Sample.eth0_after]
    = Some (rows2, [Sample.eth0_after])
    /\ Client.cell rows2 3 5 = Some (Sprint (U64.sub 1500 1000)).
Proof.
  assert (Forall (fun iface => (4 <= length (Stats.MTU iface))%nat)
            [Sample.eth0_before]) as Hprev.
  { repeat constructor. }
  assert (Forall (fun iface => (4 <= length (Stats.MTU iface))%nat)
            [Sample.eth0_after]) as Hcur.
  { repeat constructor. }
  destruct (C3_interface_rates "-" [] [Sample.eth0_before] [Sample.eth0_after]
              Hprev Hcur) as (rows1 & rows2 & _ & Hf & Hr & _).
  exists rows2. split; [done|].
  destruct (Hr 0%nat Sample.eth0_after eq_refl) as [Hpresent _].
  destruct (Hpresent [] Sample.eth0_before []) as (_ & _ & H35 & _);
    [reflexivity | reflexivity | constructor | exact H35].
Defined.

(** ** The polling tick and the clear action *)

Section Tick.

Import Stats Client.

Variable EmptyCell : string.
Variable sortInterfaceStats : list Interface -> Z -> bool -> list Interface.
Variable sortErrorStats : list Error -> Z -> bool -> list Error.
Variable float64 : Type.
Variable to_uint64 : float64 -> Z.
Variable fmt_2f : float64 -> string.
Variable sortNodeStats :
  list (RuntimeItem float64) -> Z -> bool -> list (RuntimeItem float64).

(** A slice is passed by value: the sorting routines reorder the elements
    of their argument and cannot change its length. *)
Hypothesis sortInterfaceStats_length :
  forall l f a, length (sortInterfaceStats l f a) = length l.
Hypothesis sortErrorStats_length :
  forall l f a, length (sortErrorStats l f a) = length l.
Hypothesis sortNodeStats_length :
  forall l f a, length (sortNodeStats l f a) = length l.

Local Abbreviation tick :=
  (Client.tick EmptyCell sortInterfaceStats sortErrorStats float64 to_uint64
     fmt_2f sortNodeStats).

Lemma sortInterfaceStats_nil f a : sortInterfaceStats [] f a = [].
Proof. apply nil_length_inv. by rewrite sortInterfaceStats_length. Qed.

Lemma sortErrorStats_nil f a : sortErrorStats [] f a = [].
Proof. apply nil_length_inv. by rewrite sortErrorStats_length. Qed.

Lemma sortNodeStats_nil f a : sortNodeStats [] f a = [].
Proof. apply nil_length_inv. by rewrite sortNodeStats_length. Qed.

(** The tick of the interfaces tab, once the formatter has completed. *)
Lemma tick_interfaces app r s :
  currTab app = Interfaces ->
  sortBy app !! 0%nat = Some s ->
  tick app r
  = match formatInterfaces EmptyCell (IfCache app)
            (sortInterfaceStats (value_or_nil (rInterfaces r)) (field s) (asc s))
    with
    | Some (rows, cache) =>
        Some (mkApp (vpp app) cache (sortBy app) (currTab app),
              log_poll "interface" (rInterfaces r) ++ [Update Interfaces rows])
    | None => None
    end.
Proof.
  intros Htab Hs. unfold Client.tick. rewrite Htab.
  change (Interfaces =? Interfaces) with true. cbv iota.
  change (Z.to_nat Interfaces) with 0%nat. rewrite Hs.
  cbn [mbind option_bind].
  by destruct (formatInterfaces _ _ _) as [[rows cache]|].
Qed.

(** On the other tabs the tick does not touch the application state. *)
Lemma tick_other_tabs app r app' eff :
  currTab app <> Interfaces -> tick app r = Some (app', eff) -> app' = app.
Proof.
  intros Htab. unfold Client.tick.
  destruct (Z.eqb_spec (currTab app) Interfaces); [done|].
  destruct (currTab app =? Nodes).
  { destruct (sortBy app !! Z.to_nat Nodes); simpl; [|done]. by intros [= <- _]. }
  destruct (currTab app =? Errors).
  { destruct (sortBy app !! Z.to_nat Errors); simpl; [|done]. by intros [= <- _]. }
  destruct (currTab app =? Memory).
  { destruct (formatMemstats _ _); simpl; [|done]. by intros [= <- _]. }
  destruct (currTab app =? Threads); by intros [= <- _].
Qed.

(** C7, amended.  On every tick of the interfaces tab that completes, the
  cache is replaced as a whole by the list the formatter was given: the
  sample just fetched, in the order the sort left it, when the fetch
  succeeded, and the empty sample when it failed; a failed fetch therefore
  does not keep the previous sample.  The tick completes whenever every
  MTU slice has its four elements, in particular after a failed fetch.  A
  tick of another tab leaves the cache as it was. *)
Theorem C7_cache_replaced_each_tick (app : App) (r : replies float64) :
length (sortBy app) = 5%nat ->
exists s,
  sortBy app !! 0%nat = Some s
  /\ (currTab app = Interfaces ->
      let shown :=
        sortInterfaceStats (value_or_nil (rInterfaces r)) (field s) (asc s) in
      (forall app' eff,
         tick app r = Some (app', eff) ->
         IfCache app' = shown /\ vpp app' = vpp app
         /\ sortBy app' = sortBy app /\ currTab app' = currTab app)
      /\ (Forall (fun iface => (4 <= length (MTU iface))%nat) shown ->
          exists app' eff, tick app r = Some (app', eff))
      /\ (forall ifaces,
            rInterfaces r = Ok ifaces ->
            shown = sortInterfaceStats ifaces (field s) (asc s))
      /\ (forall e,
            rInterfaces r = Err e ->
            shown = []
            /\ exists app' eff, tick app r = Some (app', eff) /\ IfCache app' = []))
  /\ (currTab app <> Interfaces ->
      forall app' eff, tick app r = Some (app', eff) -> IfCache app' = IfCache app).
Proof.
intros Hlen. destruct (five_specs _ Hlen) as (s0 & s1 & s2 & s3 & s4 & Hspecs).
exists s0. split; [by rewrite Hspecs|]. split.
- intros Htab shown.
  assert (sortBy app !! 0%nat = Some s0) as Hs by (by rewrite Hspecs).
  pose proof (tick_interfaces app r s0 Htab Hs) as Htick. fold shown in Htick.
  assert (forall app' eff,
            tick app r = Some (app', eff) ->
            IfCache app' = shown /\ vpp app' = vpp app
            /\ sortBy app' = sortBy app /\ currTab app' = currTab app) as Hcache.
  { intros app' eff. rewrite Htick.
    destruct (formatInterfaces EmptyCell (IfCache app) shown)
      as [[rows cache]|] eqn:Hf; [|done].
    apply formatInterfaces_rates in Hf as (-> & _). by intros [= <- _]. }
  assert (Forall (fun iface => (4 <= length (MTU iface))%nat) shown ->
          exists app' eff, tick app r = Some (app', eff)) as Hdone.
  { intros Hmtu. rewrite Htick.
    destruct (formatInterfaces_total EmptyCell (IfCache app) shown Hmtu)
      as [rows ->]. by eexists _, _. }
  split; [done|]. split; [done|]. split.
  + intros ifaces Hok. unfold shown. by rewrite Hok.
  + intros e Herr.
    assert (shown = []) as Hnil.
    { unfold shown. rewrite Herr. apply sortInterfaceStats_nil. }
    split; [done|].
    destruct Hdone as (app' & eff & Happ); [by rewrite Hnil|].
    exists app', eff. split; [done|].
    destruct (Hcache app' eff Happ) as [-> _]. done.
- intros Htab app' eff Happ.
  by rewrite (tick_other_tabs app r app' eff Htab Happ).
Qed.

(** C8, amended.  On a tick in which the fetch of the current tab returns an
  error, the failure is logged, the tick completes (the process goes on),
  and the view of the tab is updated with the rows formatted from an empty
  result: an empty table, and for the errors tab one row of three empty
  cells.  On the interfaces tab the cache is emptied as well; otherwise
  the application state is unchanged. *)
Theorem C8_failed_poll_pushes_empty_rows (app : App) (r : replies float64)
  (e : string) :
length (sortBy app) = 5%nat ->
let line what :=
  Log ("error occured while polling " +:+ what +:+ " stats: " +:+ e
       +:+ String "010"%char EmptyString) in
(currTab app = Interfaces -> rInterfaces r = Err e ->
 tick app r
 = Some (mkApp (vpp app) [] (sortBy app) (currTab app),
         [line "interface"; Update Interfaces []]))
/\ (currTab app = Nodes -> rNodes r = Err e ->
    tick app r = Some (app, [line "nodes"; Update Nodes []]))
/\ (currTab app = Errors -> rNodeCounters r = Err e ->
    GetErrors (vpp app) (rNodeCounters r) = Err e
    /\ tick app r = Some (app, [line "errors"; Update Errors [[""; ""; ""]]]))
/\ (currTab app = Memory -> rMemory r = Err e ->
    tick app r = Some (app, [line "memory"; Update Memory []]))
/\ (currTab app = Threads -> rThreads r = Err e ->
    tick app r = Some (app, [line "threads"; Update Threads []])).
Proof.
intros Hlen line.
destruct (five_specs _ Hlen) as (s0 & s1 & s2 & s3 & s4 & Hspecs).
split; [|split; [|split; [|split]]].
- intros Htab Herr.
  rewrite (tick_interfaces app r s0 Htab) by (by rewrite Hspecs).
  rewrite Herr. simpl. by rewrite sortInterfaceStats_nil.
- intros Htab Herr. unfold Client.tick. rewrite Htab, Herr, Hspecs. simpl.
  by rewrite sortNodeStats_nil.
- intros Htab Herr. split; [by rewrite Herr|].
  unfold Client.tick. rewrite Htab, Herr, Hspecs. simpl.
  by rewrite sortErrorStats_nil.
- intros Htab Herr. unfold Client.tick. by rewrite Htab, Herr.
- intros Htab Herr. unfold Client.tick. by rewrite Htab, Herr.
Qed.


End Tick.

(** C7 as the specification states it fails: a failed fetch does not leave
    the cache holding the previous sample.  With ["eth0"] cached, a tick of
    the interfaces tab whose fetch fails completes with an empty cache. *)
Lemma C7_failed_fetch_keeps_cache_counterexample :
  Client.IfCache Sample.polled = [Sample.eth0_before]
  /\ Client.currTab Sample.polled = Client.Interfaces
  /\ Client.rInterfaces Sample.all_failed = Err "request failed: timeout"
  /\ exists app' eff,
       Sample.tick Sample.polled Sample.all_failed = Some (app', eff)
       /\ Client.IfCache app' = []
       /\ Client.IfCache app' <> Client.IfCache Sample.polled.
Proof.
  split; [reflexivity|]. split; [reflexivity|]. split; [reflexivity|].
  eexists _, _. split; [by vm_compute|]. split; [reflexivity|]. discriminate.
Qed.

Lemma C7_cache_replaced_each_tick_witness :
  exists app' eff,
    Sample.tick Sample.polled Sample.all_failed = Some (app', eff)
    /\ Client.IfCache app' = [].
Proof.
  destruct (C7_cache_replaced_each_tick "-" Sample.keep_order Sample.keep_order
              unit (fun _ => 0) (fun _ => "0.00") Sample.keep_order
              (fun l f a => eq_refl) Sample.polled Sample.all_failed eq_refl)
    as (s & _ & Hon & _).
  destruct (Hon eq_refl) as (_ & _ & _ & Hfail).
  destruct (Hfail "request failed: timeout" eq_refl) as (_ & app' & eff & Ht & Hc).
  by exists app', eff.
Defined.

(** C8 as the specification states it fails: a failed poll does contribute to
    the display.  With rows of ["eth0"] shown by the previous tick, a tick of
    the interfaces tab whose fetch fails logs the failure and then updates
    the view with an empty table. *)
Lemma C8_failed_poll_no_push_counterexample :
  Client.rInterfaces Sample.all_failed = Err "request failed: timeout"
  /\ exists app' eff,
       Sample.tick Sample.polled Sample.all_failed = Some (app', eff)
       /\ eff = [Client.Log
                   ("error occured while polling interface stats: request failed: timeout"
                    +:+ String "010"%char EmptyString);
                 Client.Update Client.Interfaces []]
       /\ Client.Update Client.Interfaces [] ∈ eff.
Proof.
  split; [reflexivity|]. eexists _, _. split; [by vm_compute|].
  split; [reflexivity|]. right. left.
Qed.

Lemma C8_failed_poll_pushes_empty_rows_witness :
  Sample.tick Sample.polled Sample.all_failed
  = Some (Client.mkApp Stats.connected []
            (replicate 5 (Client.mkSortSpec true (-1))) Client.Interfaces,
          [Client.Log
             ("error occured while polling interface stats: request failed: timeout"
              +:+ String "010"%char EmptyString);
           Client.Update Client.Interfaces []]).
Proof.
  destruct (C8_failed_poll_pushes_empty_rows "-" Sample.keep_order
              Sample.keep_order unit (fun _ => 0) (fun _ => "0.00")
              Sample.keep_order (fun l f a => eq_refl) (fun l f a => eq_refl)
              (fun l f a => eq_refl) Sample.polled Sample.all_failed
              "request failed: timeout" eq_refl)
    as (Hifaces & _).
  exact (Hifaces eq_refl eq_refl).
Defined.


(** * Further properties of the aggregator *)

(** ** Nodes *)

Lemma GetNodes_items {A : Type} (items acc : list A) :
  foldl (fun res item => res ++ [item]) acc items = acc ++ items.
Proof.
  revert acc. induction items as [|x items IH]; intros acc; simpl.
  - by rewrite app_nil_r.
  - rewrite IH. by rewrite <- app_assoc.
Qed.

Lemma GetNodes_threads {A : Type} (threads : list (Stats.RuntimeThread A))
    (acc : list A) :
  foldl (fun res thread =>
           foldl (fun res item => res ++ [item]) res (Stats.Items thread))
    acc threads
  = acc ++ concat (Stats.Items <$> threads).
Proof.
  revert acc. induction threads as [|t threads IH]; intros acc; simpl.
  - by rewrite app_nil_r.
  - rewrite IH, GetNodes_items. by rewrite <- app_assoc.
Qed.

(** [GetNodes] fails with "No runtime counters" exactly when the request
    succeeded with no thread at all; otherwise it returns the items of all
    threads, thread after thread.  Threads without items give a successful,
    empty result. *)
Theorem GetNodes_flattens_threads {A : Type}
    (reply : result (list (Stats.RuntimeThread A))) :
  (Stats.GetNodes reply = Err "No runtime counters"
   <-> reply = Ok [] \/ reply = Err "No runtime counters")
  /\ (forall e, reply = Err e -> Stats.GetNodes reply = Err e)
  /\ (forall threads,
        reply = Ok threads -> threads <> [] ->
        Stats.GetNodes reply = Ok (concat (Stats.Items <$> threads))
        /\ (Forall (fun t => Stats.Items t = []) threads ->
            Stats.GetNodes reply = Ok [])).
Proof.
  assert (forall threads : list (Stats.RuntimeThread A),
            threads <> [] ->
            Stats.GetNodes (Ok threads) = Ok (concat (Stats.Items <$> threads)))
    as Hflat.
  { intros threads Hne. unfold Stats.GetNodes.
    rewrite decide_False by (by destruct threads).
    by rewrite GetNodes_threads. }
  split; [|split].
  - split.
    + destruct reply as [[|t threads]|e].
      * by left.
      * rewrite Hflat by done. discriminate.
      * simpl. intros [= ->]. by right.
    + by intros [->| ->].
  - by intros e ->.
  - intros threads -> Hne. split; [by apply Hflat|].
    intros Hempty. rewrite Hflat by done. f_equal.
    induction Hempty as [|t threads Ht _ IH]; [done|].
    simpl. rewrite Ht. simpl.
    destruct threads as [|t' threads']; [done|]. by apply IH.
Qed.

Lemma GetNodes_flattens_threads_witness :
  Stats.GetNodes (Ok [Stats.mkRuntimeThread [1; 2]; Stats.mkRuntimeThread [3]])
  = Ok [1; 2; 3].
Proof.
  destruct (GetNodes_flattens_threads
              (Ok [Stats.mkRuntimeThread [1; 2]; Stats.mkRuntimeThread [3]]))
    as (_ & _ & Hflat).
  destruct (Hflat [Stats.mkRuntimeThread [1; 2]; Stats.mkRuntimeThread [3]]
              eq_refl) as [H _]; [discriminate|exact H].
Defined.

(** ** More on the error baseline *)

Section Baseline.

Import Stats.

Lemma updateLastErrors_loop_dom counters (m : gmap string Z) k :
  is_Some (m !! k) -> is_Some (foldl updateLastErrors_body m counters !! k).
Proof.
  revert m. induction counters as [|c counters IH]; intros m Hk; simpl; [done|].
  apply IH. unfold updateLastErrors_body.
  destruct (Value c =? 0); [done|].
  destruct (decide (errKey c = k)) as [->|Hne].
  - rewrite lookup_insert_eq. by eexists.
  - by rewrite lookup_insert_ne.
Qed.

Lemma updateLastErrors_loop_nonzero counters (m : gmap string Z) :
  map_Forall (fun _ v => v <> 0) m ->
  map_Forall (fun _ v => v <> 0) (foldl updateLastErrors_body m counters).
Proof.
  revert m. induction counters as [|c counters IH]; intros m Hm; simpl; [done|].
  apply IH. unfold updateLastErrors_body.
  destruct (Z.eqb_spec (Value c) 0) as [|Hne]; [done|].
  by apply map_Forall_insert_2.
Qed.

(** With pairwise different keys, a non-zero counter is recorded under its
    key with its own value. *)
Lemma updateLastErrors_loop_own counters (m : gmap string Z) c :
  NoDup (errKey <$> counters) -> c ∈ counters -> Value c <> 0 ->
  foldl updateLastErrors_body m counters !! errKey c = Some (Value c).
Proof.
  intros Hdup Hc Hv.
  destruct (updateLastErrors_loop_recorded counters m c Hc Hv)
    as (c' & Hc' & Hk & _ & ->).
  f_equal. f_equal.
  apply list_elem_of_lookup in Hc as [i Hi].
  apply list_elem_of_lookup in Hc' as [j Hj].
  assert (i = j) as ->; [|congruence].
  apply (NoDup_lookup (errKey <$> counters) i j (errKey c)); [done|..].
  - by rewrite list_lookup_fmap, Hi.
  - rewrite list_lookup_fmap, Hj. simpl. by rewrite Hk.
Qed.

End Baseline.

(** A clear never removes an entry of the baseline, and never stores a zero:
    an entry survives every later clear until a non-zero counter with its
    key overwrites it, and a baseline without zeros (the one of a fresh
    connection is empty) stays without zeros.  A key carried by zero-valued
    counters only keeps what it held.  This holds whatever the reset
    command answers. *)
Theorem ClearErrorCounters_keeps_entries (s : Stats.VPP)
    (reply : result (list Stats.NodeCounter)) (cli : result string) :
  let s' := (Stats.ClearErrorCounters s reply cli).1 in
  (forall k, is_Some (Stats.lastErrorCounters s !! k) ->
             is_Some (Stats.lastErrorCounters s' !! k))
  /\ (map_Forall (fun _ v => v <> 0) (Stats.lastErrorCounters s) ->
      map_Forall (fun _ v => v <> 0) (Stats.lastErrorCounters s'))
  /\ (forall counters k,
        reply = Ok counters ->
        (forall c, c ∈ counters -> Stats.errKey c = k -> Stats.Value c = 0) ->
        Stats.lastErrorCounters s' !! k = Stats.lastErrorCounters s !! k)
  /\ (forall e, reply = Err e -> s' = s).
Proof.
  intros s'. subst s'. destruct reply as [counters|e]; simpl.
  - split; [intros k; apply updateLastErrors_loop_dom|].
    split; [apply updateLastErrors_loop_nonzero|].
    split; [|done]. intros counters' k [= <-].
    apply updateLastErrors_loop_untouched.
  - by repeat split.
Qed.

Lemma ClearErrorCounters_keeps_entries_witness :
  Stats.lastErrorCounters
    (Stats.ClearErrorCounters
       (Stats.mkVPP {[ "node1err-a" := 5 ]})
       (Ok [Stats.mkNodeCounter 0 "node1" "err-a"]) (Ok "")).1
  !! "node1err-a"
  = Some 5.
Proof.
  destruct (ClearErrorCounters_keeps_entries
              (Stats.mkVPP {[ "node1err-a" := 5 ]})
              (Ok [Stats.mkNodeCounter 0 "node1" "err-a"]) (Ok ""))
    as (_ & _ & Hkeep & _).
  rewrite (Hkeep [Stats.mkNodeCounter 0 "node1" "err-a"] "node1err-a" eq_refl).
  - reflexivity.
  - intros c Hc _. apply list_elem_of_singleton in Hc as ->. reflexivity.
Defined.

(** After a clear whose counter request succeeded on counters with pairwise
    different keys, the baseline holds the value of every non-zero counter
    under its key, and the next [GetErrors] reports for such a counter the
    increase since the clear: the new raw value minus the value at the
    clear. *)
Theorem ClearErrorCounters_then_increase (s : Stats.VPP)
    (counters later : list Stats.NodeCounter) (cli : result string) :
  NoDup (Stats.errKey <$> counters) ->
  let s' := (Stats.ClearErrorCounters s (Ok counters) cli).1 in
  (forall c, c ∈ counters -> Stats.Value c <> 0 ->
             Stats.lastErrorCounters s' !! Stats.errKey c = Some (Stats.Value c))
  /\ exists res,
       Stats.GetErrors s' (Ok later) = Ok res
       /\ forall e, e ∈ res ->
            exists c', c' ∈ later
                       /\ Stats.Node e = Stats.Node c'
                       /\ Stats.Name e = Stats.Name c'
                       /\ forall c, c ∈ counters ->
                                    Stats.errKey c = Stats.errKey c' ->
                                    Stats.Value c <> 0 ->
                                    Stats.Value e
                                    = U64.sub (Stats.Value c') (Stats.Value c).
Proof.
  intros Hdup s'.
  assert (forall c, c ∈ counters -> Stats.Value c <> 0 ->
            Stats.lastErrorCounters s' !! Stats.errKey c = Some (Stats.Value c))
    as Hown.
  { intros c Hc Hv. simpl. by apply updateLastErrors_loop_own. }
  split; [done|]. eexists. split; [reflexivity|].
  rewrite GetErrors_loop. simpl. intros e He.
  apply list_elem_of_filter in He as [_ He].
  apply list_elem_of_fmap in He as (c' & -> & Hc'). exists c'.
  split; [done|]. split; [done|]. split; [done|].
  intros c Hc Hk Hv. specialize (Hown c Hc Hv). subst s'.
  simpl in *. unfold map_index. by rewrite <- Hk, Hown.
Qed.

Lemma ClearErrorCounters_then_increase_witness :
  Stats.lastErrorCounters
    (Stats.ClearErrorCounters Stats.connected
       (Ok [Stats.mkNodeCounter 5 "node1" "err-a";
            Stats.mkNodeCounter 2 "node1" "err-b"])
       (Ok "")).1
  !! "node1err-b"
  = Some 2.
Proof.
  assert (NoDup (Stats.errKey <$> [Stats.mkNodeCounter 5 "node1" "err-a";
                                   Stats.mkNodeCounter 2 "node1" "err-b"]))
    as Hdup.
  { apply NoDup_cons. split.
    - intros H. apply list_elem_of_singleton in H. discriminate H.
    - apply NoDup_singleton. }
  destruct (ClearErrorCounters_then_increase Stats.connected
              [Stats.mkNodeCounter 5 "node1" "err-a";
               Stats.mkNodeCounter 2 "node1" "err-b"] [] (Ok "") Hdup)
    as [Hown _].
  apply (Hown (Stats.mkNodeCounter 2 "node1" "err-b")).
  - right. left.
  - discriminate.
Defined.

(** Before any clear, on a fresh connection, [GetErrors] reports the raw
    counters as they are, without the ones that are zero. *)
Theorem GetErrors_before_any_clear (counters : list Stats.NodeCounter) :
  Forall (fun c => U64.in_range (Stats.Value c)) counters ->
  Stats.GetErrors Stats.connected (Ok counters)
  = Ok (filter (fun c => Stats.Value c <> 0) counters).
Proof.
  intros Hrange. simpl. f_equal. rewrite GetErrors_loop. simpl.
  induction Hrange as [|c counters Hc _ IH]; [done|].
  rewrite fmap_cons, !filter_cons, IH. simpl.
  unfold map_index. rewrite lookup_empty. simpl.
  rewrite (U64_sub_0_r _ Hc). by destruct c.
Qed.

Lemma GetErrors_before_any_clear_witness :
  Stats.GetErrors Stats.connected
    (Ok [Stats.mkNodeCounter 0 "node1" "err-a";
         Stats.mkNodeCounter 2 "node1" "err-b"])
  = Ok [Stats.mkNodeCounter 2 "node1" "err-b"].
Proof.
  rewrite GetErrors_before_any_clear; [reflexivity|].
  repeat constructor; unfold U64.modulus; simpl; lia.
Defined.

(** ** More on the goroutines of [GetInterfaces] *)

(** Every action of an execution lowers the bound. *)
Lemma execute_bound dReply sReply sched s s' :
  Stats.GetInterfaces.execute dReply sReply sched s = Some s' ->
  (length sched + Stats.GetInterfaces.actions_left s'
   <= Stats.GetInterfaces.actions_left s)%nat.
Proof.
  revert s. induction sched as [|t sched IH]; intros s; simpl.
  - intros [= ->]. lia.
  - destruct (Stats.GetInterfaces.step dReply sReply t s) as [s1|] eqn:Hstep;
      [|done].
    simpl. intros Hexec. apply IH in Hexec.
    pose proof (step_decreases _ _ _ _ _ Hstep). lia.
Qed.

(** In every reachable state the channel holds at most its two buffered
    values, a fetching goroutine that is about to send finds room, and the
    channel is closed only after both fetching goroutines are done, so that
    nothing is ever sent on a closed channel.  When no goroutine can move,
    all of them have finished, also after an early return of the caller.
    An execution of [n] actions from the state lowers the bound
    [actions_left] by [n] at least, and the bound is at most 10 in a
    reachable state: no execution of the goroutines has more than 10
    actions. *)
Theorem GetInterfaces_goroutines_finish
    (dReply : result (gmap Z Stats.InterfaceDetails))
    (sReply : result Stats.InterfaceStats) (s : Stats.GetInterfaces.state) :
  Stats.GetInterfaces.reachable dReply sReply s ->
  (length (Stats.GetInterfaces.errChan s) <= Stats.GetInterfaces.capacity)%nat
  /\ (forall err,
        Stats.GetInterfaces.gDetails s = Stats.GetInterfaces.FFetched err
        \/ Stats.GetInterfaces.gStats s = Stats.GetInterfaces.FFetched err ->
        is_Some (Stats.GetInterfaces.send s err))
  /\ (Stats.GetInterfaces.closed s = true ->
      Stats.GetInterfaces.gDetails s = Stats.GetInterfaces.FDone
      /\ Stats.GetInterfaces.gStats s = Stats.GetInterfaces.FDone)
  /\ (Stats.GetInterfaces.stuck dReply sReply s ->
      Stats.GetInterfaces.gDetails s = Stats.GetInterfaces.FDone
      /\ Stats.GetInterfaces.gStats s = Stats.GetInterfaces.FDone
      /\ Stats.GetInterfaces.gCloser s = true
      /\ Stats.GetInterfaces.closed s = true)
  /\ (forall sched s',
        Stats.GetInterfaces.execute dReply sReply sched s = Some s' ->
        (length sched + Stats.GetInterfaces.actions_left s'
         <= Stats.GetInterfaces.actions_left s)%nat)
  /\ (Stats.GetInterfaces.actions_left s <= 10)%nat
  /\ (forall sched s',
        Stats.GetInterfaces.execute dReply sReply sched Stats.GetInterfaces.init
        = Some s' ->
        (length sched <= 10)%nat).
Proof.
  intros Hreach. pose proof (reachable_inv _ _ _ Hreach) as Hinv.
  split; [|split; [|split; [|split; [|split; [|split]]]]].
  - destruct (Stats.GetInterfaces.inv_queue _ _ _ Hinv) as [pre Hpre].
    pose proof (Permutation_length (Stats.GetInterfaces.inv_sent _ _ _ Hinv))
      as Hlen.
    rewrite Hpre in Hlen. rewrite !length_app in Hlen.
    unfold Stats.GetInterfaces.capacity.
    destruct (Stats.GetInterfaces.gDetails s), (Stats.GetInterfaces.gStats s);
      simpl in Hlen; lia.
  - intros err Hf. unfold Stats.GetInterfaces.send.
    rewrite decide_True; [by eexists|].
    by apply (send_never_blocks dReply sReply s err).
  - intros Hclosed. apply (Stats.GetInterfaces.inv_closer _ _ _ Hinv).
    by rewrite <- (Stats.GetInterfaces.inv_closed _ _ _ Hinv).
  - intros Hstuck.
    destruct (stuck_returned _ _ s Hinv Hstuck) as (_ & HD & HS & HC).
    split; [done|]. split; [done|]. split; [done|].
    by rewrite (Stats.GetInterfaces.inv_closed _ _ _ Hinv).
  - intros sched s'. apply execute_bound.
  - clear Hinv. induction Hreach as [|s t s' _ IH Hstep]; [by vm_compute|].
    pose proof (step_decreases _ _ _ _ _ Hstep). lia.
  - intros sched s' Hexec. apply execute_bound in Hexec.
    change (Stats.GetInterfaces.actions_left Stats.GetInterfaces.init)
      with 10%nat in Hexec. lia.
Qed.

Lemma GetInterfaces_goroutines_finish_witness :
  let dReply : result (gmap Z Stats.InterfaceDetails) := Err "timeout" in
  let sReply : result Stats.InterfaceStats := Ok (Stats.mkInterfaceStats []) in
  let s :=
    Stats.GetInterfaces.run dReply sReply
      [Stats.GetInterfaces.TDetails; Stats.GetInterfaces.TDetails;
       Stats.GetInterfaces.TStats; Stats.GetInterfaces.TStats]
      Stats.GetInterfaces.init in
  (length (Stats.GetInterfaces.errChan s) <= 2)%nat
  /\ (forall sched s',
        Stats.GetInterfaces.execute dReply sReply sched s = Some s' ->
        (length sched <= 6)%nat).
Proof.
  intros dReply sReply s.
  assert (Stats.GetInterfaces.reachable dReply sReply s) as Hreach.
  { apply run_reachable. constructor. }
  destruct (GetInterfaces_goroutines_finish dReply sReply s Hreach)
    as (Hcap & _ & _ & _ & Hbound & _).
  split; [done|].
  intros sched s' Hexec. apply Hbound in Hexec.
  change (Stats.GetInterfaces.actions_left s) with 6%nat in Hexec. lia.
Defined.

(** When both requests fail, which of the two errors [GetInterfaces] reports
    depends on the order in which the goroutines run: either error can be
    the one returned. *)
Theorem GetInterfaces_either_error (e1 e2 : string) :
  exists s1 s2,
    Stats.GetInterfaces.reachable (Err e1) (Err e2) s1
    /\ Stats.GetInterfaces.reachable (Err e1) (Err e2) s2
    /\ Stats.GetInterfaces.gMain s1
       = Stats.GetInterfaces.MReturn (Err ("request failed: " +:+ e1))
    /\ Stats.GetInterfaces.gMain s2
       = Stats.GetInterfaces.MReturn (Err ("request failed: " +:+ e2)).
Proof.
  exists (Stats.GetInterfaces.run (Err e1) (Err e2)
            [Stats.GetInterfaces.TDetails; Stats.GetInterfaces.TDetails;
             Stats.GetInterfaces.TMain] Stats.GetInterfaces.init),
         (Stats.GetInterfaces.run (Err e1) (Err e2)
            [Stats.GetInterfaces.TStats; Stats.GetInterfaces.TStats;
             Stats.GetInterfaces.TMain] Stats.GetInterfaces.init).
  split; [apply run_reachable; constructor|].
  split; [apply run_reachable; constructor|].
  split; reflexivity.
Qed.

(** ** Connecting *)

(** The connection is attempted at most three times and the first success
    ends the loop: after [i] failures and a success the loop has slept [i]
    times.  When the three attempts fail the error of the third one is the
    one kept, and the loop has slept three times, once after the last
    failure too. *)
Theorem dial_three_attempts {C : Type} (Connect : nat -> result C) :
  let d := Stats.dial Connect in
  (Stats.dial_sleeps d <= 3)%nat
  /\ (forall i c,
        (i < 3)%nat -> Connect i = Ok c ->
        (forall j, (j < i)%nat -> error_of (Connect j) <> None) ->
        d = Stats.mkDialing (Some c) None i)
  /\ (forall e,
        error_of (Connect 0%nat) <> None -> error_of (Connect 1%nat) <> None ->
        Connect 2%nat = Err e ->
        d = Stats.mkDialing None (Some e) 3)
  /\ (Stats.dial_err d = None
      <-> exists i, (i < 3)%nat /\ error_of (Connect i) = None)
  /\ (Stats.dial_err d = None <-> is_Some (Stats.dial_client d)).
Proof.
  intros d. subst d. unfold Stats.dial. simpl.
  destruct (Connect 0%nat) as [c0|e0] eqn:H0; simpl.
  { split; [lia|]. split.
    { intros [|i] c Hi Hc Hprev; [congruence|].
      destruct (Hprev 0%nat); [lia|by rewrite H0]. }
    split; [intros e Hn; exfalso; by apply Hn|].
    split; [|split; [intros _; by eexists|intros _; reflexivity]].
    split; [|done]. intros _. exists 0%nat. split; [lia|by rewrite H0]. }
  destruct (Connect 1%nat) as [c1|e1] eqn:H1; simpl.
  { split; [lia|]. split.
    { intros [|[|i]] c Hi Hc Hprev; [congruence|congruence|].
      destruct (Hprev 1%nat); [lia|by rewrite H1]. }
    split; [intros e _ Hn; exfalso; by apply Hn|].
    split; [|split; [intros _; by eexists|intros _; reflexivity]].
    split; [|done]. intros _. exists 1%nat. split; [lia|by rewrite H1]. }
  destruct (Connect 2%nat) as [c2|e2] eqn:H2; simpl.
  { split; [lia|]. split.
    { intros [|[|[|i]]] c Hi Hc Hprev; [congruence|congruence|congruence|lia]. }
    split; [by intros e _ _ [=]|].
    split; [|split; [intros _; by eexists|intros _; reflexivity]].
    split; [|done]. intros _. exists 2%nat. split; [lia|by rewrite H2]. }
  split; [lia|]. split.
  { intros [|[|[|i]]] c Hi Hc Hprev; [congruence|congruence|congruence|lia]. }
  split; [by intros e _ _ [= ->]|]. split.
  - split; [done|]. intros ([|[|[|i]]] & Hi & Hok).
    + by rewrite H0 in Hok.
    + by rewrite H1 in Hok.
    + by rewrite H2 in Hok.
    + lia.
  - split; [done|]. by intros [? ?].
Qed.

Lemma dial_three_attempts_witness :
  Stats.dial (fun i => if decide (i = 1%nat) then Ok "peer" else Err "refused")
  = Stats.mkDialing (Some "peer") None 1.
Proof.
  destruct (dial_three_attempts
              (fun i => if decide (i = 1%nat) then Ok "peer" else Err "refused"))
    as (_ & Hfirst & _).
  apply (Hfirst 1%nat "peer"); [lia | reflexivity |].
  intros [|j] Hj; [discriminate|lia].
Defined.

Lemma dial_all_failed {C : Type} (Connect : nat -> result C) e0 e1 e2 :
  Connect 0%nat = Err e0 -> Connect 1%nat = Err e1 -> Connect 2%nat = Err e2 ->
  Stats.dial Connect = Stats.mkDialing None (Some e2) 3.
Proof. intros H0 H1 H2. unfold Stats.dial. simpl. by rewrite H0, H1, H2. Qed.

Lemma dial_sleeps_bound {C : Type} (Connect : nat -> result C) :
  (Stats.dial_sleeps (Stats.dial Connect) <= 3)%nat.
Proof.
  unfold Stats.dial. simpl.
  destruct (Connect 0%nat); simpl; [lia|].
  destruct (Connect 1%nat); simpl; [lia|].
  destruct (Connect 2%nat); simpl; lia.
Qed.

Lemma dial_some_failed {C : Type} (Connect : nat -> result C) e :
  Stats.dial_err (Stats.dial Connect) = Some e ->
  error_of (Connect 0%nat) <> None /\ error_of (Connect 1%nat) <> None
  /\ Connect 2%nat = Err e.
Proof.
  unfold Stats.dial. simpl.
  destruct (Connect 0%nat); simpl; [done|].
  destruct (Connect 1%nat); simpl; [done|].
  destruct (Connect 2%nat); simpl; [done|].
  by intros [= ->].
Qed.

Lemma channels_loop_three (NewClient : nat -> result unit) :
  match Stats.channels_loop NewClient 3 0 with
  | (None, calls) =>
      calls = 3%nat
      /\ forall k, (1 <= k <= 3)%nat -> error_of (NewClient k) = None
  | (Some e, calls) =>
      (1 <= calls <= 3)%nat /\ NewClient calls = Err e
      /\ forall k, (1 <= k < calls)%nat -> error_of (NewClient k) = None
  end.
Proof.
  simpl.
  destruct (NewClient 1%nat) as [?|e1] eqn:H1; [|by repeat split; try lia].
  destruct (NewClient 2%nat) as [?|e2] eqn:H2.
  2:{ split; [lia|]. split; [done|].
      intros k Hk. assert (k = 1%nat) as -> by lia. by rewrite H1. }
  destruct (NewClient 3%nat) as [?|e3] eqn:H3.
  2:{ split; [lia|]. split; [done|].
      intros k Hk. assert (k = 1 \/ k = 2)%nat as [-> | ->] by lia;
        [by rewrite H1|by rewrite H2]. }
  split; [done|].
  intros k Hk. assert (k = 1 \/ k = 2 \/ k = 3)%nat as [-> | [-> | ->]] by lia;
    [by rewrite H1|by rewrite H2|by rewrite H3].
Qed.

(** [ConnectRemote] empties the baseline whatever happens next.  When the
    three connection attempts fail it reports the third error with the
    address, after three sleeps, and asks for no client.  Messages are
    registered only once the four binary-API clients were obtained; when it
    returns without error every request had succeeded, the version is the
    one the engine answered and the registry is the one the version loop
    left.  A failed version request is reported after the registration. *)
Theorem ConnectRemote_steps {V : Type} (b : Stats.Binapi) (raddr : string)
    (r : Stats.remote V) (gob : list Stats.Message) :
  let c := Stats.ConnectRemote b raddr r gob in
  let registered :=
    (Stats.resolve b (Stats.CheckCompatiblity r) (Stats.range_order r) gob).2 in
  let connected_through :=
    Stats.dial_err (Stats.dial (Stats.proxy_Connect r)) = None
    /\ error_of (Stats.NewStatsClient r) = None
    /\ (forall k, (k <= 3)%nat -> error_of (Stats.NewBinapiClient r k) = None) in
  Stats.conn_vpp c = Stats.connected
  /\ (Stats.conn_sleeps c <= 3)%nat
  /\ (Stats.conn_binapi_clients c <= 4)%nat
  /\ (forall e0 e1 e2,
        Stats.proxy_Connect r 0%nat = Err e0 ->
        Stats.proxy_Connect r 1%nat = Err e1 ->
        Stats.proxy_Connect r 2%nat = Err e2 ->
        c = Stats.mkConnection
              (Some ("failed to connect to raddr " +:+ raddr +:+ ", reason: " +:+ e2))
              Stats.connected None gob 3 0)
  /\ (Stats.conn_gob c <> gob -> connected_through)
  /\ (Stats.conn_err c = None ->
      connected_through
      /\ Stats.conn_binapi_clients c = 4%nat
      /\ Stats.conn_gob c = registered
      /\ exists v, Stats.GetVersionInfo r = Ok v /\ Stats.conn_version c = Some v)
  /\ (forall e,
        connected_through -> Stats.GetVersionInfo r = Err e ->
        Stats.conn_err c = Some ("failed to get vpp version: " +:+ e)
        /\ Stats.conn_gob c = registered
        /\ Stats.conn_version c = None).
Proof.
  intros c registered connected_through.
  subst c registered connected_through. unfold Stats.ConnectRemote.
  pose proof (dial_sleeps_bound (Stats.proxy_Connect r)) as Hsl.
  pose proof (channels_loop_three (Stats.NewBinapiClient r)) as Hch.
  destruct (Stats.dial_err (Stats.dial (Stats.proxy_Connect r))) as [e|] eqn:Hd.
  { simpl. split; [done|]. split; [done|]. split; [lia|]. split.
    - intros e0 e1 e2 H0 H1 H2.
      rewrite (dial_all_failed _ e0 e1 e2 H0 H1 H2) in *. simpl in *.
      by injection Hd as <-.
    - split; [done|]. split; [done|]. by intros e' [? _]. }
  assert (forall e0 e1 e2,
            Stats.proxy_Connect r 0%nat = Err e0 ->
            Stats.proxy_Connect r 1%nat = Err e1 ->
            Stats.proxy_Connect r 2%nat = Err e2 -> False) as Hnot.
  { intros e0 e1 e2 H0 H1 H2.
    by rewrite (dial_all_failed _ e0 e1 e2 H0 H1 H2) in Hd. }
  destruct (Stats.NewStatsClient r) as [?|es].
  2:{ simpl. split; [done|]. split; [done|]. split; [lia|].
      split; [intros e0 e1 e2 H0 H1 H2; by destruct (Hnot e0 e1 e2)|].
      split; [done|]. split; [done|]. by intros e' (_ & ? & _). }
  destruct (Stats.NewBinapiClient r 0%nat) as [?|ea] eqn:Ha.
  2:{ simpl. split; [done|]. split; [done|]. split; [lia|].
      split; [intros e0 e1 e2 H0 H1 H2; by destruct (Hnot e0 e1 e2)|].
      split; [done|]. split; [done|].
      intros e' (_ & _ & Hall).
      pose proof (Hall 0%nat ltac:(lia)) as H. by rewrite Ha in H. }
  destruct (Stats.channels_loop (Stats.NewBinapiClient r) 3 0)
    as [[ec|] calls].
  { destruct Hch as (Hcalls & Hfail & _). simpl.
    split; [done|]. split; [done|]. split; [lia|].
    split; [intros e0 e1 e2 H0 H1 H2; by destruct (Hnot e0 e1 e2)|].
    split; [done|]. split; [done|].
    intros e' (_ & _ & Hall).
    pose proof (Hall calls ltac:(lia)) as H. by rewrite Hfail in H. }
  destruct Hch as [-> Hok].
  assert (forall k, (k <= 3)%nat ->
            error_of (Stats.NewBinapiClient r k) = None) as Hall.
  { intros [|k] Hk; [by rewrite Ha|]. apply Hok. lia. }
  destruct (Stats.GetVersionInfo r) as [ver|ev]; simpl.
  - split; [done|]. split; [done|]. split; [lia|].
    split; [intros e0 e1 e2 H0 H1 H2; by destruct (Hnot e0 e1 e2)|].
    split; [done|]. split; [|by intros e' _ [=]].
    intros _. repeat split; try done. by exists ver.
  - split; [done|]. split; [done|]. split; [lia|].
    split; [intros e0 e1 e2 H0 H1 H2; by destruct (Hnot e0 e1 e2)|].
    split; [done|]. split; [done|]. by intros e' _ [= ->].
Qed.

Lemma ConnectRemote_steps_witness :
  Stats.ConnectRemote Sample.binapi ":9191"
    (Stats.mkRemote (fun _ => Err "refused") (Ok ()) (fun _ => Ok ())
       Sample.compatible_with_all [] (Ok "19.08"))
    []
  = Stats.mkConnection
      (Some "failed to connect to raddr :9191, reason: refused")
      Stats.connected None [] 3 0.
Proof.
  destruct (ConnectRemote_steps Sample.binapi ":9191"
              (Stats.mkRemote (fun _ => Err "refused") (Ok ()) (fun _ => Ok ())
                 Sample.compatible_with_all [] (Ok "19.08")) [])
    as (_ & _ & _ & Hfail & _).
  exact (Hfail "refused" "refused" "refused" eq_refl eq_refl eq_refl).
Defined.

Lemma dial_succeeded {C : Type} (Connect : nat -> result C) :
  Stats.dial_err (Stats.dial Connect) = None ->
  exists i, (i < 3)%nat /\ error_of (Connect i) = None.
Proof.
  unfold Stats.dial. simpl.
  destruct (Connect 0%nat) eqn:H0; simpl.
  { intros _. exists 0%nat. split; [lia|by rewrite H0]. }
  destruct (Connect 1%nat) eqn:H1; simpl.
  { intros _. exists 1%nat. split; [lia|by rewrite H1]. }
  destruct (Connect 2%nat) eqn:H2; simpl; [|done].
  intros _. exists 2%nat. split; [lia|by rewrite H2].
Qed.

(** The lines with which the serving goroutine can end the process. *)
Lemma server_fatal_lines r statsSocket binapiSocket raddr line :
  Cmd.server r statsSocket binapiSocket raddr = Cmd.Fatal line ->
  (Cmd.NewServer r <> None /\ line = "creating local server failed")
  \/ (exists err, Cmd.NewServer r = None /\ Cmd.ConnectStats r = Some err
                  /\ line = "connecting to stats failed: " +:+ err)
  \/ (exists err, Cmd.NewServer r = None /\ Cmd.ConnectStats r = None
                  /\ Cmd.ConnectBinapi r = Some err
                  /\ line = "connecting to binapi failed: " +:+ err).
Proof.
  unfold Cmd.server.
  destruct (Cmd.NewServer r) as [e0|]; [intros [= <-]; by left|].
  destruct (Cmd.ConnectStats r) as [e1|].
  { intros [= <-]. right. left. by exists e1. }
  destruct (Cmd.ConnectBinapi r) as [e2|]; [|done].
  intros [= <-]. right. right. by exists e2.
Qed.

Lemma server_listens r statsSocket binapiSocket raddr a b c :
  Cmd.server r statsSocket binapiSocket raddr = Cmd.ListenAndServe a b c ->
  Cmd.NewServer r = None /\ Cmd.ConnectStats r = None
  /\ Cmd.ConnectBinapi r = None
  /\ a = statsSocket /\ b = binapiSocket /\ c = raddr.
Proof.
  unfold Cmd.server.
  destruct (Cmd.NewServer r); [done|].
  destruct (Cmd.ConnectStats r); [done|].
  destruct (Cmd.ConnectBinapi r); [done|].
  by intros [= <- <- <-].
Qed.

Local Ltac once_only :=
  let H := fresh in
  intros ? ? ? ? ? ? before between ? H;
  repeat (destruct before as [|? before]; simplify_eq/=);
  repeat (destruct between as [|? between]; simplify_eq/=).

Local Ltac not_here Hres :=
  let H := fresh in
  intros; simplify_eq/=; rewrite Hres in *; simplify_eq/=.



(** ** The memory report *)

Section Trim.

Import StatsCli.

Lemma trim_left_starts s : starts_blank (trim_left s) = false.
Proof.
  induction s as [|c s IH]; simpl; [done|].
  destruct (blank c) eqn:Hc; [done|]. simpl. by rewrite Hc.
Qed.

Lemma trim_right_ends s : ends_blank (trim_right s) = false.
Proof.
  induction s as [|c s IH]; simpl; [done|].
  destruct (trim_right s) as [|c' r'] eqn:Hr.
  - destruct (blank c) eqn:Hc; [done|]. simpl. by rewrite Hc.
  - simpl in *. done.
Qed.

Lemma trim_right_starts s :
  starts_blank s = false -> starts_blank (trim_right s) = false.
Proof.
  destruct s as [|c s]; simpl; [done|]. intros Hc.
  destruct (trim_right s); [by rewrite Hc|done].
Qed.

Lemma trim_left_split s :
  exists pre, s = pre +:+ trim_left s /\ all_blank pre = true.
Proof.
  induction s as [|c s (pre & Hs & Hpre)]; simpl; [by exists ""|].
  destruct (blank c) eqn:Hc; [|by exists ""].
  exists (String c pre). split.
  - transitivity (String c (pre +:+ trim_left s)); [by f_equal|reflexivity].
  - simpl. by rewrite Hc, Hpre.
Qed.

Lemma trim_right_split s :
  exists post, s = trim_right s +:+ post /\ all_blank post = true.
Proof.
  induction s as [|c s (post & Hs & Hpost)]; simpl; [by exists ""|].
  destruct (trim_right s) as [|c' r'] eqn:Hr.
  - destruct (blank c) eqn:Hc.
    + exists (String c post). split.
      * transitivity (String c ("" +:+ post)); [|reflexivity].
        f_equal. by rewrite Hs at 1.
      * simpl. by rewrite Hc, Hpost.
    + exists post. split; [|done].
      transitivity (String c ("" +:+ post)); [|reflexivity].
      f_equal. by rewrite Hs at 1.
  - exists post. split; [|done].
    transitivity (String c (String c' r' +:+ post)); [by f_equal|reflexivity].
Qed.

Lemma trim_right_blank s : all_blank s = true -> trim_right s = "".
Proof.
  induction s as [|c s IH]; simpl; [done|].
  intros [Hc Hs]%andb_prop. by rewrite (IH Hs), Hc.
Qed.

Lemma trim_left_blank s : all_blank s = true -> trim_left s = "".
Proof.
  induction s as [|c s IH]; simpl; [done|].
  intros [Hc Hs]%andb_prop. by rewrite Hc, (IH Hs).
Qed.

Lemma Memory_loop lines acc :
  foldl Memory_body acc lines
  = acc ++ (Trim <$> filter (fun line => line <> "") lines).
Proof.
  revert acc. induction lines as [|line lines IH]; intros acc; simpl.
  - by rewrite app_nil_r.
  - rewrite IH, filter_cons. unfold Memory_body at 1.
    destruct (decide (line = "")) as [->|Hne].
    + by rewrite decide_False by (by intros H).
    + rewrite decide_True by done. simpl. by rewrite <- app_assoc.
Qed.

End Trim.

(** [Memory] returns one row for every non-empty line of the report, in
    order: the line without the spaces and line ends around it.  No row
    starts or ends with a space; a non-empty line made of spaces only gives
    an empty row, so rows can be empty.  An empty report gives no row, and a
    failed command is passed on as it is. *)
Theorem Memory_rows (cli : result string) :
  (forall e, cli = Err e -> StatsCli.Memory cli = Err e)
  /\ (forall mem,
        cli = Ok mem ->
        let lines := filter (fun line => line <> "") (split_on "010"%char mem) in
        exists rows,
          StatsCli.Memory cli = Ok rows
          /\ length rows = length lines
          /\ (forall i row,
                rows !! i = Some row ->
                starts_blank row = false /\ ends_blank row = false
                /\ exists line pre post,
                     lines !! i = Some line
                     /\ line = pre +:+ row +:+ post
                     /\ all_blank pre = true /\ all_blank post = true)
          /\ (forall i line,
                lines !! i = Some line -> all_blank line = true ->
                rows !! i = Some "")
          /\ (mem = "" -> rows = [])).
Proof.
  split; [by intros e ->|]. intros mem -> lines.
  exists (StatsCli.Trim <$> lines). unfold StatsCli.Memory.
  rewrite Memory_loop. fold lines. simpl.
  split; [done|]. split; [by rewrite length_fmap|]. split; [|split].
  - intros i row Hrow. rewrite list_lookup_fmap in Hrow.
    destruct (lines !! i) as [line|] eqn:Hline; [|done].
    simpl in Hrow. injection Hrow as <-. unfold StatsCli.Trim.
    split; [apply trim_right_starts, trim_left_starts|].
    split; [apply trim_right_ends|].
    destruct (trim_left_split line) as (pre & Hline' & Hpre).
    destruct (trim_right_split (StatsCli.trim_left line)) as (post & Hmid & Hpost).
    exists line, pre, post. split; [done|]. split; [|done].
    by rewrite <- Hmid.
  - intros i line Hline Hblank. rewrite list_lookup_fmap, Hline. simpl.
    unfold StatsCli.Trim. by rewrite (trim_left_blank line Hblank).
  - intros ->. done.
Qed.

Lemma Memory_rows_witness :
  exists rows,
    StatsCli.Memory (Ok ("Thread 0 vpp_main" +:+ String "010"%char "   ")) = Ok rows
    /\ rows !! 1%nat = Some "".
Proof.
  destruct (Memory_rows (Ok ("Thread 0 vpp_main" +:+ String "010"%char "   ")))
    as [_ Hrows].
  destruct (Hrows _ eq_refl) as (rows & Hmem & _ & _ & Hblank & _).
  exists rows. split; [exact Hmem|].
  apply (Hblank 1%nat "   "); reflexivity.
Defined.

(** ** The memory table *)

Section Memstats.

Import Client.

Variable EmptyCell : string.

Lemma memory_entry_block (m : list string) i (pre post : list (list string)) :
  length pre = (RowsPerMemory * i)%nat -> (7 * i + 6 < length m)%nat ->
  memory_entry EmptyCell m i (pre ++ replicate RowsPerMemory [] ++ post)
  = Some (pre ++ memory_block EmptyCell m i ++ post).
Proof.
  intros Hpre Hlen. unfold memory_entry, memory_block.
  set (n := (RowsPerMemory * i)%nat) in *.
  destruct (lookup_lt_is_Some_2 m (7 * i)) as [l0 H0]; [lia|].
  destruct (lookup_lt_is_Some_2 m (7 * i + 1)) as [l1 H1]; [lia|].
  destruct (lookup_lt_is_Some_2 m (7 * i + 2)) as [l2 H2]; [lia|].
  destruct (lookup_lt_is_Some_2 m (7 * i + 3)) as [l3 H3]; [lia|].
  destruct (lookup_lt_is_Some_2 m (7 * i + 4)) as [l4 H4]; [lia|].
  destruct (lookup_lt_is_Some_2 m (7 * i + 5)) as [l5 H5]; [lia|].
  destruct (lookup_lt_is_Some_2 m (7 * i + 6)) as [l6 H6]; [lia|].
  rewrite Nat.add_0_r, H0, H1, H2, H3, H4, H5, H6.
  cbn [mbind option_bind default]. f_equal.
  rewrite <- (Nat.add_0_r n) at 7.
  rewrite !insert_mid by (done || (simpl; lia)).
  reflexivity.
Qed.

Lemma memory_loop_blocks (m : list string) count fuel :
  forall i (pre : list (list string)),
    length pre = (RowsPerMemory * i)%nat ->
    (i + fuel = count)%nat -> (7 * count <= length m)%nat ->
    memory_loop EmptyCell m fuel i count
      (pre ++ replicate (RowsPerMemory * fuel) [])
    = Some (pre ++ flat_map (memory_block EmptyCell m) (seq i fuel)).
Proof.
  induction fuel as [|fuel IH]; intros i pre Hpre Hcount Hlen.
  - by rewrite Nat.mul_0_r.
  - cbn [memory_loop seq flat_map]. rewrite decide_True by lia.
    replace (RowsPerMemory * S fuel)%nat
      with (RowsPerMemory + RowsPerMemory * fuel)%nat by lia.
    rewrite replicate_add, memory_entry_block by (done || lia).
    cbn [mbind option_bind]. rewrite (app_assoc pre).
    rewrite IH; [by rewrite <- app_assoc| |lia|done].
    rewrite length_app, Hpre. unfold memory_block, RowsPerMemory. simpl. lia.
Qed.

End Memstats.

(** [formatMemstats] never reads outside the report: it completes on every
    input.  It lays out one block of eight rows for every full group of
    seven lines, drops the lines left over after the last full group, and
    leaves the eighth row of every block without any cell.  A report of
    fewer than seven lines gives an empty table. *)
Theorem formatMemstats_blocks (EmptyCell : string) (memstats : list string) :
  let count := (length memstats / 7)%nat in
  exists rows,
    Client.formatMemstats EmptyCell memstats = Some rows
    /\ rows = flat_map (memory_block EmptyCell memstats) (seq 0 count)
    /\ length rows = (Client.RowsPerMemory * count)%nat
    /\ (forall i, (i < count)%nat ->
          rows !! (Client.RowsPerMemory * i + 7)%nat = Some [])
    /\ ((length memstats < 7)%nat -> rows = []).
Proof.
  intros count. eexists. split.
  { unfold Client.formatMemstats. fold count.
    apply (memory_loop_blocks EmptyCell memstats count count 0 []); [done|done|].
    unfold count. apply Nat.Div0.mul_div_le. }
  split; [done|].
  assert (forall n i,
            length (flat_map (memory_block EmptyCell memstats) (seq i n))
            = (Client.RowsPerMemory * n)%nat) as Hlen.
  { induction n as [|n IH]; intros i; [done|].
    cbn [seq flat_map]. rewrite length_app, IH. unfold Client.RowsPerMemory.
    simpl. lia. }
  split; [apply Hlen|]. split.
  - intros i Hi.
    assert (forall n j k,
              (k < n)%nat ->
              flat_map (memory_block EmptyCell memstats) (seq j n)
              !! (Client.RowsPerMemory * k + 7)%nat = Some []) as Hrow.
    { induction n as [|n IH]; intros j k Hk; [lia|].
      cbn [seq flat_map]. destruct k as [|k].
      - reflexivity.
      - rewrite lookup_app_r by (unfold Client.RowsPerMemory; simpl; lia).
        replace (Client.RowsPerMemory * S k + 7
                 - length (memory_block EmptyCell memstats j))%nat
          with (Client.RowsPerMemory * k + 7)%nat
          by (unfold Client.RowsPerMemory; simpl; lia).
        apply IH. lia. }
    by apply Hrow.
  - intros Hshort. unfold count. by rewrite Nat.div_small.
Qed.

Lemma formatMemstats_blocks_witness :
  Client.formatMemstats "-" ["Thread 0 vpp_main"; "heap"; "total: 1G"] = Some [].
Proof.
  destruct (formatMemstats_blocks "-" ["Thread 0 vpp_main"; "heap"; "total: 1G"])
    as (rows & Hrows & _ & _ & _ & Hshort).
  rewrite Hrows. f_equal. apply Hshort. simpl. lia.
Defined.

(** ** Cells obtained by splitting a formatted line *)

Lemma count_char_app c a b :
  count_char c (a +:+ b) = (count_char c a + count_char c b)%nat.
Proof.
  induction a as [|c' a IH]; [done|].
  change (String c' a +:+ b) with (String c' (a +:+ b)). simpl.
  case_decide; by rewrite IH.
Qed.

Lemma count_char_single c : count_char c (String c "") = 1%nat.
Proof. simpl. by rewrite decide_True. Qed.

Lemma length_split_on sep s : length (split_on sep s) = S (count_char sep s).
Proof.
  induction s as [|c s IH]; simpl; [done|].
  case_decide; simpl; [by rewrite IH|].
  destruct (split_on sep s); simpl in *; [done|lia].
Qed.

Lemma split_on_whole sep s : count_char sep s = 0%nat -> split_on sep s = [s].
Proof.
  induction s as [|c s IH]; simpl; [done|].
  case_decide; [done|]. intros Hs. by rewrite (IH Hs).
Qed.

Lemma split_on_field sep a b :
  count_char sep a = 0%nat ->
  split_on sep (a +:+ String sep b) = a :: split_on sep b.
Proof.
  induction a as [|c a IH]; intros Ha.
  - change ("" +:+ String sep b) with (String sep b). simpl.
    by rewrite decide_True.
  - change (String c a +:+ String sep b) with (String c (a +:+ String sep b)).
    simpl in *. case_decide; [done|]. by rewrite (IH Ha).
Qed.

(** A decimal numeral holds digits and possibly a sign, nothing else. *)
Lemma count_char_pretty_N_go c x s :
  (forall d, pretty_N_char d <> c) ->
  count_char c (pretty_N_go x s) = count_char c s.
Proof.
  intros Hc. revert s. induction (N.lt_wf_0 x) as [x _ IH]; intros s.
  destruct (decide (0 < x)%N) as [Hx|Hx].
  - rewrite pretty_N_go_step by done. rewrite IH by (by apply N.div_lt).
    simpl. rewrite decide_False; [done|apply Hc].
  - assert (x = 0%N) as -> by lia. by rewrite pretty_N_go_0.
Qed.

Lemma count_char_Sprint c z :
  (forall d, pretty_N_char d <> c) -> c <> "-"%char ->
  count_char c (Sprint z) = 0%nat.
Proof.
  intros Hc Hdash. unfold Sprint, pretty, pretty_Z.
  assert (forall p : positive, count_char c (pretty p) = 0%nat) as Hpos.
  { intros p. unfold pretty, pretty_positive, pretty, pretty_N.
    rewrite decide_False by done. by rewrite count_char_pretty_N_go. }
  destruct z as [|p|p].
  - simpl. rewrite decide_False; [done|]. apply (Hc 0%N).
  - apply Hpos.
  - rewrite count_char_app, Hpos. simpl. by rewrite decide_False.
Qed.

Lemma digit_not_semicolon d : pretty_N_char d <> ";"%char.
Proof. unfold pretty_N_char. repeat case_match; discriminate. Qed.

Lemma digit_not_space d : pretty_N_char d <> " "%char.
Proof. unfold pretty_N_char. repeat case_match; discriminate. Qed.

(** The errors table always has a row: one row per error, or a single row
    of three empty cells when there is no error.  The row of an error has
    three cells, the value, the node and the counter name, when neither the
    node nor the name contains a semicolon; every semicolon in them adds a
    cell, since the row is cut at the semicolons of the formatted line. *)
Theorem formatErrors_rows (errors : list Stats.Error) :
  length (Client.formatErrors errors) = Nat.max 1 (length errors)
  /\ (errors = [] -> Client.formatErrors errors = [[""; ""; ""]])
  /\ (forall i e,
        errors !! i = Some e ->
        exists row,
          Client.formatErrors errors !! i = Some row
          /\ length row
             = (3 + count_char ";" (Stats.Node e) + count_char ";" (Stats.Name e))%nat
          /\ (count_char ";" (Stats.Node e) = 0%nat ->
              count_char ";" (Stats.Name e) = 0%nat ->
              row = [Sprint (Stats.Value e); Stats.Node e; Stats.Name e])).
Proof.
  unfold Client.formatErrors, Stats.Error in *. rewrite length_fmap.
  destruct errors as [|e0 errors].
  { split; [done|]. split; [done|]. intros i e Hi. by rewrite lookup_nil in Hi. }
  rewrite decide_False by done. rewrite length_fmap.
  split; [reflexivity|]. split; [done|].
  intros i e Hi. rewrite list_lookup_fmap, Hi. simpl. eexists. split; [done|].
  assert (count_char ";" (Sprint (Stats.Value e)) = 0%nat) as Hv.
  { apply count_char_Sprint; [apply digit_not_semicolon|discriminate]. }
  split.
  - rewrite length_split_on, !count_char_app, Hv, !count_char_single. lia.
  - intros Hnode Hname.
    change (Sprint (Stats.Value e) +:+ ";" +:+ Stats.Node e +:+ ";" +:+ Stats.Name e)
      with (Sprint (Stats.Value e)
            +:+ String ";" (Stats.Node e +:+ String ";" (Stats.Name e))).
    rewrite split_on_field by done. rewrite split_on_field by done.
    by rewrite split_on_whole.
Qed.

Lemma formatErrors_rows_witness :
  Client.formatErrors [] = [[""; ""; ""]].
Proof.
  destruct (formatErrors_rows []) as (_ & Hempty & _). by apply Hempty.
Defined.

(** The threads table has one row per thread, and none for no thread.  A row
    has its seven cells when the name and the type of the thread contain no
    space; every space in them adds a cell and shifts the cells after it. *)
Theorem formatThreads_rows (threads : list Client.ThreadData) :
  length (Client.formatThreads threads) = length threads
  /\ forall i t,
       threads !! i = Some t ->
       exists row,
         Client.formatThreads threads !! i = Some row
         /\ length row
            = (7 + count_char " " (Client.ThreadName t)
               + count_char " " (Client.ThreadType t))%nat
         /\ (count_char " " (Client.ThreadName t) = 0%nat ->
             count_char " " (Client.ThreadType t) = 0%nat ->
             row = [Sprint (Client.ID t); Client.ThreadName t; Client.ThreadType t;
                    Sprint (Client.PID t); Sprint (Client.CPUID t);
                    Sprint (Client.Core t); Sprint (Client.CPUSocket t)]).
Proof.
  unfold Client.formatThreads. split; [by rewrite length_fmap|].
  intros i t Hi. rewrite list_lookup_fmap, Hi. simpl. eexists. split; [done|].
  assert (forall z, count_char " " (Sprint z) = 0%nat) as Hv.
  { intros z. apply count_char_Sprint; [apply digit_not_space|discriminate]. }
  split.
  - rewrite length_split_on, !count_char_app, !Hv, !count_char_single. lia.
  - intros Hname Htype.
    change (Sprint (Client.ID t) +:+ " " +:+ Client.ThreadName t +:+ " "
            +:+ Client.ThreadType t +:+ " " +:+ Sprint (Client.PID t) +:+ " "
            +:+ Sprint (Client.CPUID t) +:+ " " +:+ Sprint (Client.Core t) +:+ " "
            +:+ Sprint (Client.CPUSocket t))
      with (Sprint (Client.ID t)
            +:+ String " " (Client.ThreadName t
            +:+ String " " (Client.ThreadType t
            +:+ String " " (Sprint (Client.PID t)
            +:+ String " " (Sprint (Client.CPUID t)
            +:+ String " " (Sprint (Client.Core t)
            +:+ String " " (Sprint (Client.CPUSocket t)))))))).
    rewrite !split_on_field by done. by rewrite split_on_whole.
Qed.

Lemma formatThreads_rows_witness :
  Client.formatThreads [Client.mkThreadData 0 "vpp_main" "" 7 1 0 0]
  !! 0%nat
  = Some [Sprint 0; "vpp_main"; ""; Sprint 7; Sprint 1; Sprint 0; Sprint 0].
Proof.
  destruct (formatThreads_rows [Client.mkThreadData 0 "vpp_main" "" 7 1 0 0])
    as [_ Hrow].
  destruct (Hrow 0%nat _ eq_refl) as (row & -> & _ & Hcells).
  f_equal. by apply Hcells.
Defined.

(** ** More on the interface table *)

Section Interface_table.

Import Stats Client.

Variable EmptyCell : string.

Local Arguments Sprint : simpl never.
Local Arguments pair_cell : simpl never.

Lemma set_first_cell_lengths (rows : list (list string)) r a :
  length <$> set_first_cell r a rows = length <$> rows.
Proof.
  unfold set_first_cell. apply list_eq. intros j.
  rewrite !list_lookup_fmap.
  destruct (decide (r = j)) as [->|Hne].
  - rewrite list_lookup_alter_eq. destruct (rows !! j); simpl; [|done].
    by rewrite length_insert.
  - by rewrite list_lookup_alter_ne.
Qed.

Lemma ip_loop_lengths addrs maxr ip :
  forall r (rows rows' : list (list string)),
    ip_loop addrs maxr ip r rows = Some rows' ->
    length <$> rows' = length <$> rows.
Proof.
  induction ip as [|ip IH]; intros r rows rows'; simpl.
  - by intros [= <-].
  - case_decide; [|by intros [= <-]].
    destruct (addrs !! ip) as [addr|]; simpl; [|done].
    destruct (address_of addr) as [a|]; simpl; [|done].
    intros Hloop. rewrite (IH _ _ _ Hloop). apply set_first_cell_lengths.
Qed.

(** The first cells the address loop writes: going down from row [r], the
    addresses from the last one backwards, as long as there are addresses
    and rows. *)
Lemma ip_loop_first_cells addrs maxr ip :
  forall r (rows rows' : list (list string)),
    (ip <= length addrs)%nat ->
    ip_loop addrs maxr ip r rows = Some rows' ->
    (forall j, (r <= j < maxr)%nat ->
               exists row, rows !! j = Some row /\ (0 < length row)%nat) ->
    forall j,
      ((r <= j)%nat -> (j < r + ip)%nat -> (j < maxr)%nat ->
       exists addr, addrs !! (ip - 1 - (j - r))%nat = Some addr
                    /\ cell rows' j 0 = address_of addr)
      /\ ((j < r)%nat \/ (r + ip <= j)%nat \/ (maxr <= j)%nat ->
          cell rows' j 0 = cell rows j 0).
Proof.
  induction ip as [|ip IH]; intros r rows rows' Hip Hloop Hrows j;
    simpl in Hloop.
  { injection Hloop as <-. split; [lia|done]. }
  destruct (decide (r < maxr)%nat) as [Hr|Hr].
  2:{ injection Hloop as <-. split; [lia|done]. }
  destruct (addrs !! ip) as [addr|] eqn:Haddr; simpl in Hloop; [|done].
  destruct (address_of addr) as [a|] eqn:Ha; simpl in Hloop; [|done].
  assert (forall j', (S r <= j' < maxr)%nat ->
            exists row, set_first_cell r a rows !! j' = Some row
                        /\ (0 < length row)%nat) as Hrows'.
  { intros j' Hj'. destruct (Hrows j') as (row & Hrow & Hlen); [lia|].
    exists row. split; [|done]. unfold set_first_cell.
    rewrite list_lookup_alter_ne by lia. done. }
  destruct (IH (S r) _ _ ltac:(lia) Hloop Hrows' j) as [Hin Hout].
  assert (cell (set_first_cell r a rows) r 0 = Some a) as Hhere.
  { destruct (Hrows r) as (row & Hrow & Hlen); [lia|].
    unfold cell, set_first_cell. rewrite list_lookup_alter_eq, Hrow. simpl.
    by apply list_lookup_insert_eq. }
  assert (forall j', j' <> r ->
            cell (set_first_cell r a rows) j' 0 = cell rows j' 0) as Hother.
  { intros j' Hj'. unfold cell, set_first_cell.
    by rewrite list_lookup_alter_ne. }
  split.
  - intros H1 H2 H3. destruct (decide (j = r)) as [->|Hne].
    + exists addr. replace (S ip - 1 - (r - r))%nat with ip by lia.
      split; [done|]. rewrite Hout by lia. by rewrite Hhere, Ha.
    + destruct Hin as (addr' & Haddr' & Hcell); [lia..|].
      exists addr'. split; [|done].
      by replace (S ip - 1 - (j - r))%nat with (ip - 1 - (j - S r))%nat by lia.
  - intros Hj. rewrite Hout by lia. apply Hother. lia.
Qed.

(** The address shown is the part of the address before its first slash. *)
Lemma address_of_prefix addr a :
  address_of addr = Some a ->
  count_char "/" a = 0%nat
  /\ (addr = a \/ exists rest, addr = a +:+ String "/" rest).
Proof.
  unfold address_of. revert a. induction addr as [|c addr IH]; intros a; simpl.
  - intros [= <-]. split; [done|by left].
  - case_decide as Hc.
    + simpl. intros [= <-]. split; [done|]. right. exists addr. subst c.
      reflexivity.
    + destruct (split_on "/" addr) as [|h t] eqn:Hsplit; simpl.
      * destruct (split_on_cons "/" addr) as (h & t & H). congruence.
      * intros [= <-]. destruct (IH h eq_refl) as [Hh Hrest].
        split; [simpl; by rewrite decide_False|].
        destruct Hrest as [->|[rest ->]]; [by left|right]. by exists rest.
Qed.

Lemma format_entry_short cache idx i iface (rows : list (list string)) :
  (length (MTU iface) < 4)%nat ->
  format_entry EmptyCell cache idx i iface rows = None.
Proof.
  intros Hshort. unfold format_entry.
  destruct (MTU iface !! 0%nat) eqn:H0; cbn [mbind option_bind]; [|done].
  destruct (MTU iface !! 1%nat) eqn:H1; cbn [mbind option_bind]; [|done].
  destruct (MTU iface !! 2%nat) eqn:H2; cbn [mbind option_bind]; [|done].
  destruct (MTU iface !! 3%nat) eqn:H3; cbn [mbind option_bind]; [|done].
  apply lookup_lt_Some in H3. lia.
Qed.

(** The block of an interface: twelve cells in each of its eleven rows, the
    name in the first one, and below it the addresses, last one first. *)
Lemma format_entry_cells cache idx iface (b : list (list string)) :
  format_entry EmptyCell cache idx 0 iface (replicate RowsPerIface []) = Some b ->
  Forall (fun row => length row = 12%nat) b
  /\ cell b 0 0 = Some (InterfaceName (Counters iface))
  /\ cell b 0 2 = Some (State iface)
  /\ forall k, (k < 10)%nat ->
       ((k < length (IPAddrs iface))%nat ->
        exists addr,
          IPAddrs iface !! (length (IPAddrs iface) - 1 - k)%nat = Some addr
          /\ cell b (1 + k) 0 = address_of addr)
       /\ ((length (IPAddrs iface) <= k)%nat -> cell b (1 + k) 0 = Some EmptyCell).
Proof.
  unfold format_entry. rewrite Nat.mul_0_r.
  destruct (MTU iface !! 0%nat) as [m0|]; cbn [mbind option_bind]; [|done].
  destruct (MTU iface !! 1%nat) as [m1|]; cbn [mbind option_bind]; [|done].
  destruct (MTU iface !! 2%nat) as [m2|]; cbn [mbind option_bind]; [|done].
  destruct (MTU iface !! 3%nat) as [m3|]; cbn [mbind option_bind]; [|done].
  destruct (compute_rates cache idx iface) as [rt|]; cbn [mbind option_bind];
    [|done].
  intros Hloop. split; [|split; [|split]].
  - pose proof (ip_loop_lengths _ _ _ _ _ _ Hloop) as Hlens.
    apply Forall_forall. intros row Hrow.
    apply list_elem_of_lookup in Hrow as [j Hj].
    assert ((length <$> b) !! j = Some (length row)) as Hlen
      by (by rewrite list_lookup_fmap, Hj).
    rewrite Hlens in Hlen. simpl in Hlen.
    repeat (destruct j as [|j]; [by injection Hlen as <-|]). done.
  - destruct (ip_loop_first_cells _ _ _ _ _ _ (Nat.le_refl _) Hloop) with (j := 0%nat)
      as [_ Hout].
    + intros j Hj. simpl.
      repeat (destruct j as [|j]; [first [lia | eexists; split; [done|simpl; lia]]|]).
      unfold RowsPerIface in Hj. lia.
    + rewrite Hout by lia. reflexivity.
  - by rewrite (ip_loop_cell _ _ _ _ _ _ 0%nat 2%nat Hloop).
  - intros k Hk.
    destruct (ip_loop_first_cells _ _ _ _ _ _ (Nat.le_refl _) Hloop)
      with (j := (1 + k)%nat) as [Hin Hout].
    + intros j Hj. simpl.
      repeat (destruct j as [|j]; [first [lia | eexists; split; [done|simpl; lia]]|]).
      unfold RowsPerIface in Hj. lia.
    + split.
      * intros Hlt. destruct Hin as (addr & Haddr & Hcell);
          [lia | lia | unfold RowsPerIface; lia |].
        exists addr. split; [|done].
        by replace (length (IPAddrs iface) - 1 - k)%nat
          with (length (IPAddrs iface) - 1 - (1 + k - (0 + 1)))%nat by lia.
      * intros Hge. rewrite Hout by lia.
        repeat (destruct k as [|k]; [reflexivity|]). lia.
Qed.

End Interface_table.

Section Interface_blocks.

Import Stats Client.

Variable EmptyCell : string.

Lemma formatInterfaces_blocks cache ifaces :
  formatInterfaces EmptyCell cache ifaces
  = (fun blocks => (concat blocks, ifaces))
      <$> mapM (fun iface =>
                  format_entry EmptyCell cache (build_index 0 cache ∅) 0 iface
                    (replicate RowsPerIface []))
            ifaces.
Proof.
  unfold formatInterfaces.
  rewrite (format_loop_blocks EmptyCell cache _ ifaces 0 []) by done.
  by destruct (mapM _ ifaces).
Qed.

Lemma formatInterfaces_block_at cache ifaces rows cache' i iface :
  formatInterfaces EmptyCell cache ifaces = Some (rows, cache') ->
  ifaces !! i = Some iface ->
  exists b,
    format_entry EmptyCell cache (build_index 0 cache ∅) 0 iface
      (replicate RowsPerIface []) = Some b
    /\ forall j c, (j < RowsPerIface)%nat ->
                   cell rows (RowsPerIface * i + j) c = cell b j c.
Proof.
  rewrite formatInterfaces_blocks.
  destruct (mapM _ ifaces) as [blocks|] eqn:Hblocks; [|done].
  cbn [fmap option_fmap option_map]. intros [= <- <-] Hi.
  apply mapM_Some in Hblocks.
  destruct (Forall2_lookup_l _ _ _ _ _ Hblocks Hi) as (b & Hb & Hf).
  exists b. split; [done|]. intros j c Hj. unfold cell.
  rewrite (lookup_concat_blocks blocks RowsPerIface i j); [by rewrite Hb|..|done].
  apply Forall_forall. intros b' Hb'.
  apply list_elem_of_lookup in Hb' as [k Hk].
  destruct (Forall2_lookup_r _ _ _ _ _ Hblocks Hk) as (iface' & _ & Hf').
  apply format_entry_rates in Hf' as [? _]; [done|by rewrite length_replicate].
Qed.

End Interface_blocks.

(** [formatInterfaces] panics exactly when some interface has fewer than
    four MTU values.  Otherwise the cache becomes the formatted list and the
    table is rectangular: eleven rows for every interface, twelve cells in
    every row. *)
Theorem formatInterfaces_table (EmptyCell : string)
    (cache ifaces : list Stats.Interface) :
  (Client.formatInterfaces EmptyCell cache ifaces = None
   <-> Exists (fun iface => (length (Stats.MTU iface) < 4)%nat) ifaces)
  /\ forall rows cache',
       Client.formatInterfaces EmptyCell cache ifaces = Some (rows, cache') ->
       cache' = ifaces
       /\ length rows = (Client.RowsPerIface * length ifaces)%nat
       /\ Forall (fun row => length row = 12%nat) rows.
Proof.
  split.
  - split.
    + intros Hnone.
      destruct (decide (Exists (fun iface => (length (Stats.MTU iface) < 4)%nat)
                          ifaces)) as [|Hno]; [done|].
      apply not_Exists_Forall in Hno; [|intros x; apply _].
      destruct (formatInterfaces_total EmptyCell cache ifaces) as [rows Hrows].
      { eapply Forall_impl; [exact Hno|]. simpl. intros iface. lia. }
      congruence.
    + intros Hshort. rewrite formatInterfaces_blocks.
      destruct (mapM _ ifaces) as [blocks|] eqn:Hblocks; [|done].
      apply mapM_Some in Hblocks. apply Exists_exists in Hshort as (iface & Hin & Hlt).
      apply list_elem_of_lookup in Hin as [i Hi].
      destruct (Forall2_lookup_l _ _ _ _ _ Hblocks Hi) as (b & _ & Hf).
      by rewrite format_entry_short in Hf.
  - intros rows cache' Hf.
    destruct (formatInterfaces_rates EmptyCell cache ifaces rows cache' Hf)
      as (-> & Hlen & _).
    split; [done|]. split; [done|].
    rewrite formatInterfaces_blocks in Hf.
    destruct (mapM _ ifaces) as [blocks|] eqn:Hblocks; [|done].
    simpl in Hf. injection Hf as <-. apply mapM_Some in Hblocks.
    apply Forall_forall. intros row Hrow.
    apply list_elem_of_In, in_concat in Hrow as (b & Hb & Hrow).
    apply list_elem_of_In in Hb, Hrow.
    apply list_elem_of_lookup in Hb as [k Hk].
    destruct (Forall2_lookup_r _ _ _ _ _ Hblocks Hk) as (iface & _ & Hfe).
    apply format_entry_cells in Hfe as [Hcells _].
    rewrite Forall_forall in Hcells. by apply Hcells.
Qed.

Lemma formatInterfaces_table_witness :
  Client.formatInterfaces "-" []
    [Stats.mkInterface Sample.eth0_counters [] "up" [9000; 0]]
  = None.
Proof.
  destruct (formatInterfaces_table "-" []
              [Stats.mkInterface Sample.eth0_counters [] "up" [9000; 0]])
    as [[_ Hpanic] _].
  apply Hpanic. left. simpl. lia.
Defined.

(** In the block of an interface the first row starts with its name and
    holds its state; the first cells of the ten rows below hold its
    addresses without the prefix length, the last address first.  With more
    than ten addresses only the last ten are shown; rows without an address
    start with the empty cell. *)
Theorem formatInterfaces_addresses (EmptyCell : string)
    (cache ifaces : list Stats.Interface) (rows : list (list string))
    (cache' : list Stats.Interface) (i : nat) (iface : Stats.Interface) :
  Client.formatInterfaces EmptyCell cache ifaces = Some (rows, cache') ->
  ifaces !! i = Some iface ->
  let r := (Client.RowsPerIface * i)%nat in
  let n := length (Stats.IPAddrs iface) in
  Client.cell rows r 0 = Some (Stats.InterfaceName (Stats.Counters iface))
  /\ Client.cell rows r 2 = Some (Stats.State iface)
  /\ forall k, (k < 10)%nat ->
       ((k < n)%nat ->
        exists addr shown,
          Stats.IPAddrs iface !! (n - 1 - k)%nat = Some addr
          /\ Client.cell rows (r + 1 + k) 0 = Some shown
          /\ count_char "/" shown = 0%nat
          /\ (addr = shown \/ exists rest, addr = shown +:+ String "/" rest))
       /\ ((n <= k)%nat -> Client.cell rows (r + 1 + k) 0 = Some EmptyCell).
Proof.
  intros Hf Hi r n.
  destruct (formatInterfaces_block_at EmptyCell cache ifaces rows cache' i iface
              Hf Hi) as (b & Hb & Hcell).
  apply format_entry_cells in Hb as (_ & Hname & Hstate & Haddrs).
  subst r. rewrite <- (Nat.add_0_r (Client.RowsPerIface * i)).
  rewrite !Hcell by (unfold Client.RowsPerIface; lia).
  split; [done|]. split; [done|].
  intros k Hk. rewrite Nat.add_0_r, <- Nat.add_assoc.
  rewrite Hcell by (unfold Client.RowsPerIface; lia).
  destruct (Haddrs k Hk) as [Hin Hout]. split; [|done].
  intros Hlt. destruct (Hin Hlt) as (addr & Haddr & Hshown).
  destruct (address_of_total addr) as [shown Hs].
  exists addr, shown. split; [done|]. split; [by rewrite Hshown|].
  by apply address_of_prefix.
Qed.

Lemma formatInterfaces_addresses_witness :
  exists rows,
    Client.formatInterfaces "-" [] [Sample.eth0_after]
    = Some (rows, [Sample.eth0_after])
    /\ Client.cell rows 0 0 = Some "eth0"
    /\ Client.cell rows 2 0 = Some "-".
Proof.
  destruct (formatInterfaces_total "-" [] [Sample.eth0_after]) as [rows Hrows].
  { repeat constructor. }
  exists rows. split; [exact Hrows|].
  destruct (formatInterfaces_addresses "-" [] [Sample.eth0_after] rows
              [Sample.eth0_after] 0 Sample.eth0_after Hrows eq_refl)
    as (Hname & _ & Haddrs).
  split; [exact Hname|].
  destruct (Haddrs 1%nat) as [_ Hempty]; [lia|].
  apply Hempty. simpl. lia.
Defined.

(** ** Runs of the application *)

Section Runs.

Import Stats Client.

Variable EmptyCell : string.
Variable sortInterfaceStats : list Interface -> Z -> bool -> list Interface.
Variable sortErrorStats : list Error -> Z -> bool -> list Error.
Variable float64 : Type.
Variable to_uint64 : float64 -> Z.
Variable fmt_2f : float64 -> string.
Variable sortNodeStats :
  list (RuntimeItem float64) -> Z -> bool -> list (RuntimeItem float64).

(** The sorting routine of the interfaces reorders its argument: what it
    leaves in the slice was in it. *)
Hypothesis sortInterfaceStats_elements :
  forall l f a x, x ∈ sortInterfaceStats l f a -> x ∈ l.

(** Sorting a slice does not change its length. *)
Hypothesis sortErrorStats_same_length :
  forall l f a, length (sortErrorStats l f a) = length l.

Local Abbreviation handle :=
  (Client.handle EmptyCell sortInterfaceStats sortErrorStats float64 to_uint64
     fmt_2f sortNodeStats).

Local Abbreviation handle_all :=
  (Client.handle_all EmptyCell sortInterfaceStats sortErrorStats float64
     to_uint64 fmt_2f sortNodeStats).

Lemma formatMemstats_total (memstats : list string) :
  is_Some (formatMemstats EmptyCell memstats).
Proof.
  unfold formatMemstats. eexists.
  apply (memory_loop_blocks EmptyCell memstats (length memstats / 7)
           (length memstats / 7) 0 []); [done|done|].
  apply Nat.Div0.mul_div_le.
Qed.

Lemma onSort_five app tab row :
  length (sortBy app) = 5%nat ->
  exists app',
    onSort app tab row = Some app' /\ length (sortBy app') = 5%nat
    /\ vpp app' = vpp app.
Proof.
  intros Hlen. destruct app as [v cache specs cur]. simpl in Hlen.
  destruct (five_specs specs Hlen) as (s0 & s1 & s2 & s3 & s4 & ->).
  unfold onSort.
  destruct (tab =? Interfaces); [by eexists|].
  destruct (tab =? Nodes); [by eexists|].
  destruct (tab =? Errors); by eexists.
Qed.

Lemma handle_step app ev :
  length (sortBy app) = 5%nat -> well_formed ev ->
  exists app' eff,
    handle app ev = Some (app', eff)
    /\ length (sortBy app') = 5%nat
    /\ (match ev with EClear tab _ _ => tab <> Errors | _ => True end ->
        vpp app' = vpp app).
Proof.
  intros Hlen Hwf. destruct ev as [r|tab counters cli|tab row|tab]; simpl.
  - destruct (five_specs _ Hlen) as (s0 & s1 & s2 & s3 & s4 & Hspecs).
    destruct (Z.eqb_spec (currTab app) Interfaces) as [Htab|Htab].
    { rewrite (tick_interfaces _ _ _ _ _ _ _ app r s0 Htab)
        by (by rewrite Hspecs).
      destruct (formatInterfaces_total EmptyCell (IfCache app)
                  (sortInterfaceStats (value_or_nil (rInterfaces r))
                     (field s0) (asc s0))) as [rows ->].
      - apply Forall_forall. intros x Hx.
        apply sortInterfaceStats_elements in Hx.
        simpl in Hwf. rewrite Forall_forall in Hwf. by apply Hwf.
      - by eexists _, _. }
    unfold tick. destruct (currTab app =? Interfaces) eqn:E; [lia|].
    rewrite Hspecs.
    destruct (currTab app =? Nodes); [by eexists _, _|].
    destruct (currTab app =? Errors); [by eexists _, _|].
    destruct (currTab app =? Memory).
    { destruct (formatMemstats_total (value_or_nil (rMemory r))) as [rows ->].
      by eexists _, _. }
    destruct (currTab app =? Threads); by eexists _, _.
  - unfold onClear.
    destruct (Z.eqb_spec tab Interfaces); [by eexists _, _|].
    destruct (Z.eqb_spec tab Nodes); [by eexists _, _|].
    destruct (Z.eqb_spec tab Errors); by eexists _, _.
  - destruct (onSort_five app tab row Hlen) as (app' & -> & Hlen' & Hvpp).
    by eexists _, _.
  - by eexists _, _.
Qed.

(** A run never panics on polls whose interfaces all carry their four MTU
    values: whatever the order of ticks, clears, sort events and tab
    switches, and whatever the engine answers, every event is handled.  The
    five sort specifications stay five, and only the clear action of the
    errors tab changes the error baseline. *)
Theorem run_never_panics (app : App) (evs : list (event float64)) :
  length (sortBy app) = 5%nat ->
  Forall well_formed evs ->
  exists app' eff,
    handle_all app evs = Some (app', eff)
    /\ length (sortBy app') = 5%nat
    /\ (Forall (fun ev => match ev with
                          | EClear tab _ _ => tab <> Errors
                          | _ => True
                          end) evs ->
        vpp app' = vpp app).
Proof.
  intros Hlen Hwf. revert app Hlen.
  induction Hwf as [|ev evs Hev _ IH]; intros app Hlen.
  - by exists app, [].
  - destruct (handle_step app ev Hlen Hev) as (app1 & eff1 & H1 & Hlen1 & Hvpp1).
    destruct (IH app1 Hlen1) as (app2 & eff2 & H2 & Hlen2 & Hvpp2).
    exists app2, (eff1 ++ eff2). cbn [Client.handle_all]. rewrite H1. simpl.
    rewrite H2. simpl. split; [done|]. split; [done|].
    intros Hno. apply Forall_cons in Hno as [Hno1 Hno2].
    by rewrite (Hvpp2 Hno2), (Hvpp1 Hno1).
Qed.

(** After the clear action of the errors tab, the next tick of that tab
    shows the single row of three empty cells and logs nothing, provided
    the engine reports the same raw counters, counters sharing a key carry
    the same value and no zero-valued counter has a non-zero baseline. *)
Theorem clear_errors_then_tick (app : App) (counters : list NodeCounter)
    (cli : result string) (r : replies float64) :
  length (sortBy app) = 5%nat ->
  currTab app = Errors ->
  rNodeCounters r = Ok counters ->
  (forall c c', c ∈ counters -> c' ∈ counters ->
      errKey c = errKey c' -> Value c = Value c') ->
  (forall c, c ∈ counters -> Value c = 0 ->
      map_index (lastErrorCounters (vpp app)) (errKey c) = 0) ->
  let app1 := (onClear app Errors (Ok counters) cli).1 in
  Client.tick EmptyCell sortInterfaceStats sortErrorStats float64 to_uint64
    fmt_2f sortNodeStats app1 r
  = Some (app1, [Update Errors [[""; ""; ""]]]).
Proof.
  intros Hlen Htab Hr Hsame Hzero app1.
  destruct (five_specs _ Hlen) as (s0 & s1 & s2 & s3 & s4 & Hspecs).
  assert (GetErrors (vpp app1) (Ok counters) = Ok []) as Hget.
  { subst app1. simpl. f_equal. rewrite GetErrors_loop. simpl.
    apply filter_none. apply Forall_forall. intros e He.
    apply list_elem_of_fmap in He as (c & -> & Hc). simpl.
    intros Hne. apply Hne. clear Hne.
    destruct (decide (Value c = 0)) as [Hv|Hv].
    - unfold map_index. rewrite updateLastErrors_loop_untouched.
      + fold (map_index (lastErrorCounters (vpp app)) (errKey c)).
        rewrite Hzero by done. by rewrite Hv.
      + intros c' Hc' Hk. by rewrite (Hsame c' c Hc' Hc Hk).
    - destruct (updateLastErrors_loop_recorded counters
                  (lastErrorCounters (vpp app)) c Hc Hv)
        as (c' & Hc' & Hk & _ & Hl).
      unfold map_index. rewrite Hl. simpl.
      rewrite <- (Hsame c' c Hc' Hc Hk). apply U64_sub_diag. }
  unfold Client.tick.
  assert (currTab app1 = Errors) as -> by done.
  assert (sortBy app1 = [s0; s1; s2; s3; s4]) as -> by done.
  rewrite Hr, Hget. simpl.
  assert (sortErrorStats [] (field s2) (asc s2) = []) as ->.
  { apply nil_length_inv. by rewrite sortErrorStats_same_length. }
  done.
Qed.

End Runs.

Lemma run_never_panics_witness :
  exists app' eff,
    Client.handle_all "-" Sample.keep_order Sample.keep_order unit
      (fun _ => 0) (fun _ => "0.00") Sample.keep_order (Client.NewApp (-1))
      [Client.ETick Sample.eth0_polled; Client.ESort Client.Interfaces 8;
       Client.EClear Client.Interfaces (Err "timeout") (Ok "");
       Client.ETick Sample.all_failed]
    = Some (app', eff)
    /\ Client.vpp app' = Client.vpp (Client.NewApp (-1)).
Proof.
  destruct (run_never_panics "-" Sample.keep_order Sample.keep_order unit
              (fun _ => 0) (fun _ => "0.00") Sample.keep_order
              (fun l f a x H => H) (Client.NewApp (-1))
              [Client.ETick Sample.eth0_polled; Client.ESort Client.Interfaces 8;
               Client.EClear Client.Interfaces (Err "timeout") (Ok "");
               Client.ETick Sample.all_failed] eq_refl)
    as (app' & eff & Hrun & _ & Hvpp).
  { repeat constructor. }
  exists app', eff. split; [exact Hrun|]. apply Hvpp.
  repeat constructor. discriminate.
Defined.

Lemma clear_errors_then_tick_witness :
  let counters := [Stats.mkNodeCounter 5 "node1" "err-a"] in
  let app := Client.onTabSwitch Sample.polled Client.Errors in
  let r : Client.replies unit :=
    Client.mkReplies (Err "timeout") (Err "timeout") (Ok counters)
      (Err "timeout") (Err "timeout") in
  exists app1,
    Client.tick "-" Sample.keep_order Sample.keep_order unit (fun _ => 0)
      (fun _ => "0.00") Sample.keep_order
      (Client.onClear app Client.Errors (Ok counters) (Ok "")).1 r
    = Some (app1, [Client.Update Client.Errors [[""; ""; ""]]]).
Proof.
  intros counters app r. eexists.
  apply (clear_errors_then_tick "-" Sample.keep_order Sample.keep_order unit
           (fun _ => 0) (fun _ => "0.00") Sample.keep_order
           (fun l f a => eq_refl) app counters (Ok "") r eq_refl eq_refl eq_refl).
  - intros c c' Hc Hc' _.
    apply list_elem_of_singleton in Hc as ->.
    by apply list_elem_of_singleton in Hc' as ->.
  - intros c Hc Hv. apply list_elem_of_singleton in Hc as ->. discriminate Hv.
Defined.

(** ** What a tick shows *)

Section Tick_effects.

Import Stats Client.

Variable EmptyCell : string.
Variable sortInterfaceStats : list Interface -> Z -> bool -> list Interface.
Variable sortErrorStats : list Error -> Z -> bool -> list Error.
Variable float64 : Type.
Variable to_uint64 : float64 -> Z.
Variable fmt_2f : float64 -> string.
Variable sortNodeStats :
  list (RuntimeItem float64) -> Z -> bool -> list (RuntimeItem float64).

(** Sorting a slice does not change its length. *)
Hypothesis sortInterfaceStats_same_length :
  forall l f a, length (sortInterfaceStats l f a) = length l.

Local Abbreviation tick :=
  (Client.tick EmptyCell sortInterfaceStats sortErrorStats float64 to_uint64
     fmt_2f sortNodeStats).

(** The error the fetch of the current tab returned, if any. *)
Local Abbreviation fetch_error app r :=
  (if currTab app =? Interfaces then error_of (rInterfaces r)
   else if currTab app =? Nodes then error_of (rNodes r)
   else if currTab app =? Errors then error_of (rNodeCounters r)
   else if currTab app =? Memory then error_of (rMemory r)
   else error_of (rThreads r)).

(** A completed tick on one of the five tabs updates the view of the
    current tab, exactly once and no other view, after one log line when
    the fetch failed and none when it succeeded; on any other tab index it
    does nothing.  It never changes the current tab, the sort
    specifications or the error baseline. *)
Theorem tick_updates_current_tab (app app' : App) (r : replies float64)
    (eff : list effect) :
  tick app r = Some (app', eff) ->
  currTab app' = currTab app /\ sortBy app' = sortBy app /\ vpp app' = vpp app
  /\ ((0 <= currTab app <= 4) ->
      exists rows,
        match fetch_error app r with
        | Some _ => exists line, eff = [Log line; Update (currTab app) rows]
        | None => eff = [Update (currTab app) rows]
        end)
  /\ (~ (0 <= currTab app <= 4) -> eff = [] /\ app' = app).
Proof.
  unfold Client.tick, log_poll.
  destruct (Z.eqb_spec (currTab app) Interfaces) as [Htab|H0].
  { rewrite Htab. destruct (sortBy app !! Z.to_nat Interfaces); simpl; [|done].
    destruct (formatInterfaces _ _ _) as [[rows cache]|]; simpl; [|done].
    intros [= <- <-]. simpl.
    split; [done|]. split; [done|]. split; [done|]. split.
    - intros _. exists rows. destruct (rInterfaces r); simpl; [done|by eexists].
    - intros Hn. exfalso. apply Hn. unfold Interfaces. lia. }
  destruct (Z.eqb_spec (currTab app) Nodes) as [Htab|H1].
  { rewrite Htab. destruct (sortBy app !! Z.to_nat Nodes); simpl; [|done].
    intros [= <- <-].
    split; [done|]. split; [done|]. split; [done|]. split.
    - intros _. destruct (rNodes r); simpl; eexists; [done|by eexists].
    - intros Hn. exfalso. apply Hn. unfold Nodes. lia. }
  destruct (Z.eqb_spec (currTab app) Errors) as [Htab|H2].
  { rewrite Htab. destruct (sortBy app !! Z.to_nat Errors); simpl; [|done].
    intros [= <- <-].
    split; [done|]. split; [done|]. split; [done|]. split.
    - intros _. destruct (rNodeCounters r); simpl; eexists; [done|by eexists].
    - intros Hn. exfalso. apply Hn. unfold Errors. lia. }
  destruct (Z.eqb_spec (currTab app) Memory) as [Htab|H3].
  { rewrite Htab. destruct (formatMemstats _ _) as [rows|]; simpl; [|done].
    intros [= <- <-].
    split; [done|]. split; [done|]. split; [done|]. split.
    - intros _. exists rows. destruct (rMemory r); simpl; [done|by eexists].
    - intros Hn. exfalso. apply Hn. unfold Memory. lia. }
  destruct (Z.eqb_spec (currTab app) Threads) as [Htab|H4].
  { rewrite Htab. intros [= <- <-].
    split; [done|]. split; [done|]. split; [done|]. split.
    - intros _. destruct (rThreads r); simpl; eexists; [done|by eexists].
    - intros Hn. exfalso. apply Hn. unfold Threads. lia. }
  intros [= <- <-].
  split; [done|]. split; [done|]. split; [done|]. split; [|done].
  intros Hin. exfalso.
  unfold Interfaces, Nodes, Errors, Memory, Threads in *. lia.
Qed.

(** After a failed poll of the interfaces tab, the next poll of that tab
    shows a rate of 0 in the four rate cells of every interface, whatever
    the counters were before the failure. *)
Theorem rates_zero_after_failed_poll (app : App) (failed r : replies float64)
    (e : string) :
  length (sortBy app) = 5%nat ->
  currTab app = Interfaces ->
  rInterfaces failed = Err e ->
  exists app1 eff1 s,
    tick app failed = Some (app1, eff1)
    /\ IfCache app1 = []
    /\ sortBy app !! 0%nat = Some s
    /\ let shown :=
         sortInterfaceStats (value_or_nil (rInterfaces r)) (field s) (asc s) in
       Forall (fun iface => (4 <= length (MTU iface))%nat) shown ->
       exists app2 rows,
         tick app1 r
         = Some (app2, log_poll "interface" (rInterfaces r) ++ [Update Interfaces rows])
         /\ forall i, (i < length shown)%nat ->
              cell rows (RowsPerIface * i + 1) 5 = Some "0"
              /\ cell rows (RowsPerIface * i + 1) 7 = Some "0"
              /\ cell rows (RowsPerIface * i + 3) 5 = Some "0"
              /\ cell rows (RowsPerIface * i + 3) 7 = Some "0".
Proof.
  intros Hlen Htab Herr.
  destruct (five_specs _ Hlen) as (s0 & s1 & s2 & s3 & s4 & Hspecs).
  assert (sortBy app !! 0%nat = Some s0) as Hs by (by rewrite Hspecs).
  pose proof (tick_interfaces EmptyCell sortInterfaceStats sortErrorStats float64
                to_uint64 fmt_2f sortNodeStats app failed s0 Htab Hs) as H1.
  rewrite Herr in H1. simpl in H1.
  assert (sortInterfaceStats [] (field s0) (asc s0) = []) as Hnil.
  { apply nil_length_inv. by rewrite sortInterfaceStats_same_length. }
  rewrite Hnil in H1. simpl in H1.
  eexists _, _, s0. split; [exact H1|]. split; [done|]. split; [done|].
  intros shown Hmtu.
  pose proof (tick_interfaces EmptyCell sortInterfaceStats sortErrorStats float64
                to_uint64 fmt_2f sortNodeStats
                (mkApp (vpp app) [] (sortBy app) (currTab app)) r s0 Htab Hs) as H2.
  fold shown in H2. simpl in H2.
  destruct (formatInterfaces_total EmptyCell [] shown Hmtu) as [rows Hf].
  rewrite Hf in H2. eexists _, rows. split; [exact H2|].
  destruct (formatInterfaces_rates EmptyCell [] shown rows shown Hf)
    as (_ & _ & Hrates).
  intros i Hi.
  destruct (lookup_lt_is_Some_2 shown i Hi) as [iface Hiface].
  destruct (Hrates i iface Hiface) as (rt & Hrt & H15 & H17 & H35 & H37).
  rewrite (compute_rates_absent [] iface) in Hrt by constructor.
  injection Hrt as <-. done.
Qed.

End Tick_effects.

Lemma tick_updates_current_tab_witness :
  exists app' eff line,
    Sample.tick Sample.polled Sample.all_failed = Some (app', eff)
    /\ eff = [Client.Log line; Client.Update Client.Interfaces []]
    /\ Client.currTab app' = Client.Interfaces.
Proof.
  destruct (Sample.tick Sample.polled Sample.all_failed) as [[app' eff]|] eqn:Ht;
    [|discriminate Ht].
  destruct (tick_updates_current_tab "-" Sample.keep_order Sample.keep_order unit
              (fun _ => 0) (fun _ => "0.00") Sample.keep_order
              Sample.polled app' Sample.all_failed eff Ht)
    as (Htab & _ & _ & Hupd & _).
  destruct Hupd as (rows & line & Heff); [simpl; unfold Client.Interfaces; lia|].
  exists app', eff, line. split; [done|]. split; [|done].
  rewrite Heff. vm_compute in Ht. injection Ht as _ <-.
  by injection Heff as _ <-.
Defined.

Lemma rates_zero_after_failed_poll_witness :
  exists app1 eff1,
    Sample.tick Sample.polled Sample.all_failed = Some (app1, eff1)
    /\ Client.IfCache app1 = [].
Proof.
  destruct (rates_zero_after_failed_poll "-" Sample.keep_order Sample.keep_order
              unit (fun _ => 0) (fun _ => "0.00") Sample.keep_order
              (fun l f a => eq_refl) Sample.polled Sample.all_failed
              Sample.eth0_polled "request failed: timeout" eq_refl eq_refl eq_refl)
    as (app1 & eff1 & s & Ht & Hc & _).
  by exists app1, eff1.
Defined.
